(* ===== verification/_CoqProject ===== *)
-Q . S2P
Prelude.v
Saida.v
Modelo.v
Leitor.v
Projetor.v
Agregador.v
Insercao.v
Ordenador.v
Maquina.v
FiltroGenero.v
Mapa.v
Relatorio.v
Principal.v
