(* ===== verification/Prelude.v ===== *)
(** * Verification of [medalhas.py]: the Olympic medal table

    The program ([src/medalhas.py], 190 lines of Python) reads a CSV file of
    medal-winning performances and prints two reports: the medal table of the
    countries, ranked by gold, then silver, then bronze, and the list of the
    countries whose medallists are all of one gender.  [main] is a linear
    pipeline

      le_arquivo -> filtro_tabela -> quadro -> ordena
                                            -> filtrar_paises_genero_unico
                                            -> exibir_quadro, exibir_paises_formatado

    and the script calls [main] (lines 189-190).

    ** Files of the development, in dependency order

    - [Prelude] (this file): the fragment of Python's semantics the program
      uses.  Exceptions are values: a computation that can raise has type
      [result A], either [Ok a] or [Raise e] with [e : excecao]; [getitem]
      and [setitem] are [l[i]] and [l[i] = x] on lists, negative indices and
      [IndexError] included; [foldM] and [for_range] are the [for] loops
      whose body can raise.  Notations live in [py_scope]; the rewriting
      rules of the monad and of the list operations are in the hint
      databases [py] and [py_rw]; the tactics [py_simpl] and [case_py] do
      the routine case analysis.
    - [Saida]: what a run prints.  A part of the program that prints is a
      value of [execucao A], the lines printed and the [result]; [print]
      and [sys_exit] are the two calls of the library the program makes;
      [status] is the exit status the interpreter gives the process.
    - [Modelo]: the data.  [Medalha] is the [Enum] of lines 6-9 with its
      [value]s; [Pais] is the dataclass of lines 12-19, a [Record] with the
      fields in the source's order, integers as [Z] (Python's integers are
      unbounded) and [generos] as an [option] because its default is [None];
      [Linha] is the 3-tuple [filtro_tabela] builds.  [podio] is the triple
      (gold, silver, bronze) the ranking compares, and [pais_ok] the
      well-formedness invariant of an accumulator.
    - [Leitor]: [le_arquivo] (lines 40-64), given what [open] answers
      ([abertura]: the text of the file, or the [IOError]): the loop over
      the lines [le_linhas], and the [except] branch, which prints
      [mensagem_erro] and leaves with [sys.exit(1)]; the two methods of
      Python it calls, [readlines] and [split], are functions on strings.
    - [Projetor]: [filtro_tabela] (lines 66-78), which keeps the fields 1, 4
      and 5 of every row and raises [IndexError] on a row shorter than six
      fields.
    - [Agregador]: [quadro] (lines 80-124), the fold of the projected rows
      into the list of [Pais], in the order of first appearance: the inner
      search loop [percorre] with its [break], the update of a found
      country [atualiza_item], the creation of a new one [novo_pais].
    - [Insercao]: the theory of stable insertion sorts, generic in the
      element type and in the key ([Section]s with [Context]).  A ranking
      criterion is the class [Criterio]: a boolean comparison that decides
      a strict total order on the keys.  [ordena_por] (insertion from the
      right end, the shape of the loops of [ordena]) and [isort] (the
      textbook recursive sort) are the reference sorts.  The contract of a
      ranker is the class [Classificador]: the result is ranked and keeps
      the elements, tied ones in their order.  The lemmas of the section
      [cliente] are proved against that contract alone.
    - [Ordenador]: [ordena] (lines 126-155), the in-place insertion sort, as
      written: the [for] over [range(1, len(paises))], the [while j >= 0]
      with [j] a [Z] that reaches [-1], the nested comparison [desloca],
      every list access through [getitem]/[setitem].  The list object is a
      [list Pais] threaded through the loops: [laco_interno] is the [while]
      loop, [passo] the body of the [for] loop.  [desloca] with the key
      [podio] in lexicographic order is an instance of [Criterio], and
      [ordenada], the list [ordena] leaves, an instance of
      [Classificador].
    - [Maquina]: the same loops of [ordena] as a transition system.  A
      configuration [config] is a control point ([ponto]: the head of the
      [for] loop, the head of the [while] loop, the [return], an
      exception), the bound of the range and the list; [passo_maquina]
      has one rule for each way an iteration can go, and [avanca] is the
      same relation as a function.
    - [FiltroGenero]: [filtrar_paises_genero_unico] (lines 165-178), the
      recursive filter, with Python's bound on the depth of recursion as the
      parameter [limite] and [TypeError] on a country whose [generos] is
      [None].
    - [Mapa]: the table of countries as the specification describes it, a
      finite map from the code of a country to its accumulator ([gmap]),
      built by [registra] row by row, and the equivalence [mesmo_placar]
      of accumulators up to the order of their genders, with the [Proper]
      instances of the operations that respect it.
    - [Relatorio]: [exibir_quadro] and [exibir_paises_formatado] (lines
      157-163 and 180-186) as the lists of the lines they print, with the
      replacement field [{x:<n}] of an f-string as [esq n] and the length
      of a string counted in characters on its UTF-8 bytes.
    - [Principal]: [main] (lines 22-37) as a run: the checks on [sys.argv]
      with their messages, the call of [le_arquivo], lines 31-35 as
      [nucleo], from the table [le_arquivo] returns to the two lists that
      are printed, and the two reports; [programa] is the script, the
      lines written and the exit status.  Lists are
      objects of a store ([gmap] from references to lists): [quadro_ref]
      allocates the table, [ordena_ref] updates it in place and returns
      its reference, [filtrar_ref] reads it afterwards and allocates its
      result.  [sys.exit(1)] is the exception [SystemExit 1].

    ** What the theorems show

    - [Saida]: [execucao] satisfies the laws of a monad, and what is
      printed is never taken back.
    - [Leitor]: [le_arquivo] returns the lines after the header cut at
      their commas, or prints the message of the [IOError] and leaves;
      joined again the rows give the text of the file; no field holds a
      comma; the line break of every line but the last stays in the last
      field of its row ([le_arquivo_quebra_de_linha]), unlike what the
      docstring shows (the example [le_arquivo_docstring]), and the last
      field of the last row ends as the text ends ([linhas_ultima]).
    - [Projetor]: the projection succeeds exactly on tables whose rows have
      six fields or more, and is then a [map]; otherwise it raises
      [IndexError], as it does on the rows of three fields of its own
      docstring (the example [filtro_tabela_docstring]).
    - [Agregador]: every accumulator [quadro] returns is well formed
      ([quant_total] is the sum of the three counts, the counts are not
      negative, [generos] is a non-empty duplicate-free list); the names are
      the distinct country codes in the order of first appearance; each
      count is the number of rows of that country with that medal code; an
      unknown medal code changes no count.
    - [Insercao]: both reference sorts return a ranked permutation that
      keeps tied elements in order; a ranked list with that property is
      unique ([classificada_estavel_eq]), hence the two sorts agree, are
      idempotent and commute with [filter]; so does every [Classificador].
    - [Ordenador]: one round of the [for] loop inserts [paises[i]] into
      the prefix before it ([passo_insere]), so [ordena] never raises and
      returns [ordena_por desloca] of its argument ([ordena_ordena_por]).
      From there: [ordena] computes [isort]; its result is a permutation of
      the argument, ranked by the three-level comparison [acima], with ties
      in their original order; it is the only such list; ranking a ranked
      list changes nothing; ranking commutes with selection.  The [while]
      loop alone returns within its bounds and raises [IndexError] outside
      them.
    - [Maquina]: the relation and the function are the same, so the
      machine is deterministic.  What remains to be computed from a
      configuration by the functional model, [resto], is unchanged by
      every transition: the machine reaches the [return] with a list
      exactly when [ordena] returns it ([maquina_ordena]), and no
      reachable configuration is an exception ([maquina_segura]).  The
      well-formed configurations ([bem_formada]: indices within the list)
      are closed under the transitions and never stuck
      ([maquina_bem_formada]).  The measure [medida] decreases at every
      transition: every run is finite and reaches a final configuration
      ([maquina_termina]), within a quadratic number of transitions
      ([maquina_custo]), a bound that a table in reverse order attains.
    - [FiltroGenero]: within the recursion limit the filter is
      [filter] by "exactly one gender"; it never raises on the output of
      [quadro]; beyond the limit it raises [RecursionError]; a country
      without a list of genders makes it raise [TypeError]; a negative
      [index] counts from the end and makes it return countries twice
      ([filtrar_indice_negativo]).
    - [Mapa]: the list [quadro] returns represents the map that
      [registra] builds ([quadro_refina_mapa]): the search of the list and
      the update of the map commute, row by row.  Two tables with the same
      rows in another order give equivalent maps and the same countries
      of one gender ([quadro_permutacao]).
    - [Relatorio]: the lines of the medal table have 40 characters when
      the names and the counts fit their columns; the line of a country
      determines its name and its counts; the second report holds one
      name a line.
    - [Principal]: [main] prints a message and leaves with status 1 on a
      wrong number of arguments or an unreadable file, and otherwise
      prints the reports of what [nucleo] returns on the rows of the
      file.  The pipeline is
      characterised on every table ([nucleo_total]): a short row makes it
      raise [IndexError], too many countries for the frames
      [RecursionError], and otherwise it returns the ranked table and the
      single-gender countries selected from the ranked table, so that the
      second report is itself in ranked order and not in the order of
      first appearance (the example [nucleo_formatado_exemplo]).  The
      country of a row is its field 4 and its medal code its field 1, and
      the counts of the first report are numbers of rows by these fields
      ([nucleo_campos]); the specification names other fields.  When the
      last line of the file has no line break and the gender is the last
      field, a country with a row on that line and a row on an earlier
      line has two genders, even if they are the same, and is left out of
      the second report ([nucleo_quebra_de_linha]).  The script prints both
      reports and exits with status 0, or no part of a report and exits
      with status 1 ([programa_relatorios_ou_erro]).

    ** Bounds and fuel

    - The [while] loop of [ordena] is defined by well-founded recursion on
      [Z.to_nat (j + 1)] (Equations), so it needs no fuel: every iteration
      that does not [break] decrements [j], and the loop stops at [j = -1].
    - [filtrar_paises_genero_unico] takes the number of stack frames
      available, [limite]: CPython raises [RecursionError] at depth
      [sys.getrecursionlimit()] (1000 by default).  A list of [n] countries
      from [index] needs [n - index + 1] frames.  The witnesses use 1000.
    - The transition system of [Maquina] needs no fuel either: [medida]
      bounds the transitions left from a configuration, [custo_for] those
      of the rounds of the [for] loop that are left ([2 + i] for the
      round of [i]: enter, at most [i] shifts, write).  [executa k] runs
      [k] transitions; the witnesses run 4 and 8.
    - Integers are [Z]: Python's integers do not overflow.

    ** Axioms

    The development states no axiom.  The equation that unfolds
    [laco_interno], generated by Equations for a definition by
    well-founded recursion, uses functional extensionality, an axiom of
    the Standard Library; the theorems on [ordena] depend on it through
    that equation.

    ** Not modelled

    - The file system: what [open] answers for a name is a parameter of
      [le_arquivo] and of [main], as are [sys.argv] and the number of
      frames.  [readlines] is the text mode of Python after the
      translation of line breaks: a line ends at a newline.
    - Exceptions of [open] and of the reading other than [IOError] (a
      text that cannot be decoded): [abertura] has the text or the
      [IOError], whose [errno] is an integer.
    - The rows [quadro] receives are triples ([Linha]), as
      [filtro_tabela] builds them: [linha[0]], [linha[1]] and [linha[2]]
      (lines 91-93) cannot raise.
    - The standard error: the traceback the interpreter writes for an
      exception nothing catches.  The exit status of that case is
      modelled ([status]).  The standard output is the list of the lines
      printed; buffering is not modelled.
    - An exception that interrupts [ordena] leaves the list partly
      updated: [ordena_ref] does not model the store in that case, as
      nothing can observe it ([main] does not catch exceptions, and
      [ordena] raises none).
    - Python strings are sequences of code points; they are modelled as
      [string], the bytes of their UTF-8 encoding.  Equality is the same
      on both; [comprimento] counts the characters; [split] and
      [readlines] cut at a comma and at a newline, bytes that no
      character of several bytes contains.
*)

From stdpp Require Export base tactics option list sets numbers strings.
#[export] Set Warnings "-clear-no-such-hyp".

(** ** Exceptions and results *)

(** The exceptions the program can raise in the modelled code. *)
Inductive excecao : Type :=
| IndexError
| TypeError
| RecursionError
| SystemExit (codigo : Z).

#[export] Instance excecao_eq_dec : EqDecision excecao.
Proof. solve_decision. Defined.

(** A computation that returns [a] or raises [e]. *)
Inductive result (A : Type) : Type :=
| Ok (a : A)
| Raise (e : excecao).
Arguments Ok {A} a.
Arguments Raise {A} e.

#[export] Instance result_eq_dec `{EqDecision A} : EqDecision (result A).
Proof. solve_decision. Defined.

#[export] Instance result_ret : MRet result := λ A a, Ok a.
#[export] Instance result_bind : MBind result := λ A B f m,
  match m with
  | Ok a => f a
  | Raise e => Raise e
  end.
#[export] Instance result_fmap : FMap result := λ A B f m,
  match m with
  | Ok a => Ok (f a)
  | Raise e => Raise e
  end.

Definition is_Ok {A} (m : result A) : Prop := ∃ a, m = Ok a.

Definition of_option {A} (e : excecao) (o : option A) : result A :=
  match o with
  | Some a => Ok a
  | None => Raise e
  end.

#[export] Instance is_Ok_dec {A} (m : result A) : Decision (is_Ok m).
Proof.
  refine (match m with Ok a => left _ | Raise e => right _ end);
    [by eexists | by intros [??]].
Defined.

(** ** Python lists: indexing and item assignment *)

(** [len(l)], an integer. *)
Abbreviation len l := (Z.of_nat (length l)) (only parsing).

(** The position [l[i]] denotes: [i] itself when [0 <= i < len(l)],
    [len(l) + i] when [-len(l) <= i < 0], none otherwise. *)
Definition indice {A} (l : list A) (i : Z) : option nat :=
  if decide (0 ≤ i < len l)%Z then Some (Z.to_nat i)
  else if decide (- len l ≤ i < 0)%Z then Some (Z.to_nat (len l + i))
  else None.

(** [l[i]]: raises [IndexError] out of range. *)
Definition getitem {A} (l : list A) (i : Z) : result A :=
  match indice l i with
  | Some n => of_option IndexError (l !! n)
  | None => Raise IndexError
  end.

(** [l[i] = x]: raises [IndexError] out of range, never grows the list. *)
Definition setitem {A} (l : list A) (i : Z) (x : A) : result (list A) :=
  match indice l i with
  | Some n => Ok (<[n := x]> l)
  | None => Raise IndexError
  end.

(** ** Loops whose body can raise *)

(** [for x in l: s = f(s, x)], stopping at the first exception. *)
Fixpoint foldM {A S} (f : S → A → result S) (s : S) (l : list A) : result S :=
  match l with
  | [] => Ok s
  | x :: l => s' ← f s x; foldM f s' l
  end.

(** [for i in range(a, b): s = f(s, i)]. *)
Definition for_range {S} (a b : Z) (f : S → Z → result S) (s : S) : result S :=
  foldM f s (seqZ a (b - a)).

(** [[f(x) for x in l]], stopping at the first exception. *)
Fixpoint mapM {A B} (f : A → result B) (l : list A) : result (list B) :=
  match l with
  | [] => Ok []
  | x :: l => y ← f x; ys ← mapM f l; Ok (y :: ys)
  end.

(** ** Notations *)

Declare Scope py_scope.
Delimit Scope py_scope with py.
Notation "l .[ i ]" := (getitem l i%Z)
  (at level 1, i at level 99, left associativity, format "l .[ i ]") : py_scope.
Notation "l .[ i := x ]" := (setitem l i%Z x)
  (at level 1, i at level 99, x at level 99, left associativity,
   format "l .[ i  :=  x ]") : py_scope.
Open Scope py_scope.

(** ** Automation *)

Create HintDb py discriminated.
Create Rewrite HintDb py_rw.

(** Unfolds the monad operations of [result] and simplifies. *)
Ltac py_simpl :=
  repeat (progress (cbn [mbind mret fmap result_bind result_ret result_fmap
                         of_option] in * ));
  simplify_eq/=.

(** Case analysis on the first [result] a bind or a match scrutinises. *)
Ltac case_py :=
  match goal with
  | |- context [mbind _ ?m] => destruct m eqn:?; py_simpl
  | |- context [match ?m with Ok _ => _ | Raise _ => _ end] =>
      destruct m eqn:?; py_simpl
  | H : context [mbind _ ?m] |- _ => destruct m eqn:?; py_simpl
  | H : context [match ?m with Ok _ => _ | Raise _ => _ end] |- _ =>
      destruct m eqn:?; py_simpl
  end.

(** ** Lemmas on results *)

Section results.
Context {A B C : Type}.
Implicit Types (a : A) (m : result A) (f : A → result B) (g : B → result C).

Lemma bind_Ok a f : Ok a ≫= f = f a.
Proof. done. Qed.

Lemma bind_Raise e f : Raise e ≫= f = Raise e.
Proof. done. Qed.

Lemma bind_ret m : m ≫= Ok = m.
Proof. by destruct m. Qed.

Lemma bind_assoc m f g : (m ≫= f) ≫= g = m ≫= (λ a, f a ≫= g).
Proof. by destruct m. Qed.

Lemma bind_Ok_inv m f b :
  m ≫= f = Ok b ↔ ∃ a, m = Ok a ∧ f a = Ok b.
Proof. destruct m; naive_solver. Qed.

Lemma bind_Raise_inv m f e :
  m ≫= f = Raise e ↔ m = Raise e ∨ ∃ a, m = Ok a ∧ f a = Raise e.
Proof. destruct m; naive_solver. Qed.

Lemma fmap_Ok_inv (h : A → B) m b :
  h <$> m = Ok b ↔ ∃ a, m = Ok a ∧ b = h a.
Proof. destruct m; cbn; naive_solver. Qed.

Lemma is_Ok_Ok a : is_Ok (Ok a).
Proof. by eexists. Qed.

Lemma is_Ok_Raise e : ¬ is_Ok (@Raise A e).
Proof. by intros [??]. Qed.

Lemma of_option_Ok e (o : option A) a : of_option e o = Ok a ↔ o = Some a.
Proof. destruct o; naive_solver. Qed.

Lemma of_option_Raise e e' (o : option A) :
  of_option e o = Raise e' ↔ o = None ∧ e = e'.
Proof. destruct o; naive_solver. Qed.

End results.

#[export] Hint Rewrite @bind_Ok @bind_Raise @bind_ret : py_rw.
#[export] Hint Resolve is_Ok_Ok : py.

(** ** Lemmas on indexing *)

Section indexing.
Context {A : Type}.
Implicit Types (l : list A) (i : Z) (n : nat) (x : A).

Lemma indice_nonneg l i :
  (0 ≤ i < len l)%Z → indice l i = Some (Z.to_nat i).
Proof. intros. unfold indice. by rewrite decide_True. Qed.

Lemma indice_neg l i :
  (- len l ≤ i < 0)%Z → indice l i = Some (Z.to_nat (len l + i)).
Proof.
  intros. unfold indice. rewrite decide_False by lia. by rewrite decide_True.
Qed.

Lemma indice_None l i :
  indice l i = None ↔ (i < - len l ∨ len l ≤ i)%Z.
Proof. unfold indice. repeat case_decide; split; (done || lia). Qed.

Lemma indice_lt l i n : indice l i = Some n → n < length l.
Proof. unfold indice. repeat case_decide; intros; simplify_eq; lia. Qed.

Lemma indice_nat l n : n < length l → indice l (Z.of_nat n) = Some n.
Proof. intros. rewrite indice_nonneg by lia. by rewrite Nat2Z.id. Qed.

Lemma getitem_nat l n x : l !! n = Some x → getitem l (Z.of_nat n) = Ok x.
Proof.
  intros Hl. unfold getitem.
  rewrite indice_nat by (by eapply lookup_lt_Some). by rewrite Hl.
Qed.

Lemma getitem_Ok l i x :
  getitem l i = Ok x ↔ ∃ n, indice l i = Some n ∧ l !! n = Some x.
Proof.
  unfold getitem. destruct (indice l i) as [n|] eqn:Hi; [|naive_solver].
  rewrite of_option_Ok. naive_solver.
Qed.

Lemma getitem_Raise l i e :
  getitem l i = Raise e ↔ e = IndexError ∧ (i < - len l ∨ len l ≤ i)%Z.
Proof.
  unfold getitem. destruct (indice l i) as [n|] eqn:Hi.
  - destruct (lookup_lt_is_Some_2 l n) as [x ->]; [by eapply indice_lt|].
    assert (indice l i ≠ None) as Hn by congruence.
    rewrite indice_None in Hn. naive_solver lia.
  - apply indice_None in Hi. naive_solver.
Qed.

Lemma getitem_last l : l ≠ [] → getitem l (-1) = of_option IndexError (last l).
Proof.
  intros Hl. unfold getitem. destruct l as [|x l _] using rev_ind; [done|].
  rewrite indice_neg by (rewrite length_app; simpl; lia).
  f_equal. rewrite last_snoc, length_app. simpl.
  replace (Z.to_nat _) with (length l) by lia.
  by rewrite lookup_app_r, Nat.sub_diag by lia.
Qed.

Lemma setitem_nat l n x :
  n < length l → setitem l (Z.of_nat n) x = Ok (<[n := x]> l).
Proof. intros. unfold setitem. by rewrite indice_nat. Qed.

Lemma setitem_Ok l i x l' :
  setitem l i x = Ok l' ↔ ∃ n, indice l i = Some n ∧ l' = <[n := x]> l.
Proof. unfold setitem. destruct (indice l i); naive_solver. Qed.

Lemma setitem_Raise l i x e :
  setitem l i x = Raise e ↔ e = IndexError ∧ (i < - len l ∨ len l ≤ i)%Z.
Proof.
  unfold setitem. destruct (indice l i) eqn:Hi.
  - assert (indice l i ≠ None) as Hn by congruence.
    rewrite indice_None in Hn. naive_solver lia.
  - apply indice_None in Hi. naive_solver.
Qed.

Lemma setitem_length l i x l' : setitem l i x = Ok l' → length l' = length l.
Proof. rewrite setitem_Ok. intros (n & _ & ->). apply length_insert. Qed.

(** Reading and writing the position that follows a prefix [l1]. *)
Lemma getitem_meio l1 x l2 : getitem (l1 ++ x :: l2) (len l1) = Ok x.
Proof. apply getitem_nat. by apply list_lookup_middle. Qed.

(** A negative index counts from the end of the list. *)
Lemma getitem_do_fim l1 x l2 : getitem (l1 ++ x :: l2) (- len (x :: l2)) = Ok x.
Proof.
  unfold getitem. rewrite indice_neg by (rewrite length_app; simpl; lia).
  replace (Z.to_nat _) with (length l1) by (rewrite length_app; simpl; lia).
  by rewrite list_lookup_middle.
Qed.

Lemma setitem_meio l1 x l2 y :
  setitem (l1 ++ x :: l2) (len l1) y = Ok (l1 ++ y :: l2).
Proof.
  rewrite setitem_nat by (rewrite length_app; simpl; lia).
  by rewrite insert_app_r_alt, Nat.sub_diag by lia.
Qed.

End indexing.

(** ** Lemmas on loops *)

Section loops.
Context {A B S : Type}.
Implicit Types (l : list A) (s : S).

Lemma foldM_app (f : S → A → result S) s l1 l2 :
  foldM f s (l1 ++ l2) = s' ← foldM f s l1; foldM f s' l2.
Proof.
  revert s. induction l1 as [|x l1 IH]; intros s; [done|].
  simpl. destruct (f s x); [apply IH|done].
Qed.

(** A loop whose body never raises is a [fold_left]. *)
Lemma foldM_pure (f : S → A → result S) (g : S → A → S) s l :
  (∀ s x, f s x = Ok (g s x)) → foldM f s l = Ok (fold_left g l s).
Proof.
  intros Hf. revert s. induction l as [|x l IH]; intros s; [done|].
  simpl. rewrite Hf. apply IH.
Qed.

(** Invariant rule for a loop that does not raise under the invariant. *)
Lemma foldM_inv (I : S → Prop) (f : S → A → result S) s l :
  I s →
  (∀ s x, I s → x ∈ l → ∃ s', f s x = Ok s' ∧ I s') →
  ∃ s', foldM f s l = Ok s' ∧ I s'.
Proof.
  revert s. induction l as [|x l IH]; intros s Hs Hf; [by eexists|].
  destruct (Hf s x) as (s' & Hfx & Hs'); [done|by left|].
  simpl. rewrite Hfx. apply IH; [done|].
  intros ????. apply Hf; [done|by right].
Qed.

Lemma mapM_Ok_fmap (f : A → result B) (g : A → B) l :
  (∀ x, x ∈ l → f x = Ok (g x)) → mapM f l = Ok (g <$> l).
Proof.
  induction l as [|x l IH]; intros Hf; [done|].
  simpl. rewrite Hf by left. simpl. rewrite IH; [done|].
  intros ??. apply Hf. by right.
Qed.

Lemma mapM_length (f : A → result B) l (ys : list B) :
  mapM f l = Ok ys → length ys = length l.
Proof.
  revert ys. induction l as [|x l IH]; intros ys Hl; simpl in *.
  - by simplify_eq.
  - destruct (f x); [|done]. simpl in *.
    destruct (mapM f l); [|done]. simpl in *. simplify_eq. simpl.
    f_equal. by apply IH.
Qed.

End loops.

Section ranges.
Context {S : Type}.
Implicit Types (s : S) (f : S → Z → result S).

Lemma for_range_empty (a b : Z) f s :
  (b ≤ a)%Z → for_range a b f s = Ok s.
Proof. intros. unfold for_range. by rewrite seqZ_nil by lia. Qed.

Lemma for_range_first (a b : Z) f s :
  (a < b)%Z → for_range a b f s = s' ← f s a; for_range (a + 1) b f s'.
Proof.
  intros. unfold for_range. rewrite seqZ_cons by lia. simpl.
  by replace (Z.pred (b - a)) with (b - (a + 1))%Z by lia.
Qed.

Lemma for_range_last (a b : Z) f s :
  (a ≤ b)%Z →
  for_range a (b + 1) f s = s' ← for_range a b f s; f s' b.
Proof.
  intros. unfold for_range.
  replace (b + 1 - a)%Z with ((b - a) + 1)%Z by lia.
  rewrite seqZ_app, foldM_app by lia.
  replace (a + (b - a))%Z with b by lia.
  destruct (foldM f s _) as [s'|]; [|done].
  rewrite seqZ_cons, seqZ_nil by lia. cbn. by destruct (f s' b).
Qed.

End ranges.

#[export] Hint Rewrite @foldM_app : py_rw.

(** ** Generic definitions and lemmas on lists *)

(** The distinct elements of [l], each at the place of its first
    occurrence. *)
Definition distintos `{EqDecision A} (l : list A) : list A :=
  reverse (remove_dups (reverse l)).

Section lists.
Context `{EqDecision A}.
Implicit Types (l k : list A) (x y : A).

Lemma distintos_nil : distintos (@nil A) = [].
Proof. done. Qed.

Lemma elem_of_distintos l x : x ∈ distintos l ↔ x ∈ l.
Proof.
  unfold distintos.
  by rewrite elem_of_reverse, elem_of_remove_dups, elem_of_reverse.
Qed.

Lemma NoDup_distintos l : NoDup (distintos l).
Proof.
  unfold distintos. rewrite reverse_Permutation. apply NoDup_remove_dups.
Qed.

Lemma distintos_snoc l x :
  distintos (l ++ [x]) =
  if decide (x ∈ l) then distintos l else distintos l ++ [x].
Proof.
  unfold distintos. rewrite reverse_snoc. simpl.
  destruct (decide_rel _ x (reverse l)) as [Hx|Hx];
    rewrite elem_of_reverse in Hx.
  - by rewrite decide_True.
  - by rewrite decide_False, reverse_cons.
Qed.

Lemma distintos_fmap_snoc {B} (f : B → A) (k : list B) (b : B) :
  distintos (f <$> (k ++ [b])) =
  if decide (f b ∈ f <$> k) then distintos (f <$> k)
  else distintos (f <$> k) ++ [f b].
Proof. rewrite fmap_app. apply distintos_snoc. Qed.

Lemma distintos_NoDup l : NoDup l → distintos l = l.
Proof.
  induction l as [|x l IH] using rev_ind; [done|].
  rewrite NoDup_app. intros (Hl & Hx & _).
  rewrite distintos_snoc, decide_False, IH; [done..|].
  intros ?. by eapply Hx; [|left].
Qed.

Lemma distintos_idemp l : distintos (distintos l) = distintos l.
Proof. apply distintos_NoDup, NoDup_distintos. Qed.

Lemma distintos_length_le l : length (distintos l) ≤ length l.
Proof.
  induction l as [|x l IH] using rev_ind; [done|].
  rewrite distintos_snoc, length_app. simpl.
  case_decide; rewrite ?length_app; simpl; lia.
Qed.

Lemma insert_take_drop_snoc l n x y :
  l !! n = Some y →
  <[n := x]> l = take n l ++ x :: drop (S n) l.
Proof. intros Hn. apply insert_take_drop. by eapply lookup_lt_Some. Qed.

(** Two selections may be made in either order. *)
Lemma filter_troca (P Q : A → Prop)
    `{!∀ a, Decision (P a), !∀ a, Decision (Q a)} l :
  filter P (filter Q l) = filter Q (filter P l).
Proof. rewrite !list_filter_filter. apply list_filter_iff. naive_solver. Qed.

Lemma filter_nil_not_elem_of (P : A → Prop) `{∀ x, Decision (P x)} l :
  (∀ x, x ∈ l → ¬ P x) → filter P l = [].
Proof.
  intros Hl. induction l as [|x l IH]; [done|].
  rewrite filter_cons_False by (apply Hl; left).
  apply IH. intros ??. apply Hl. by right.
Qed.

End lists.
