(* ===== verification/Saida.v ===== *)
(** * Saida: what a run prints

    The program writes on its standard output with [print] and stops with
    [sys.exit] or with an exception nothing catches.  A part of the
    program that prints is a value of [execucao A]: the lines it has
    printed, in order, and its result.  The lines printed before an
    exception stay printed.  [execucao] is a monad; the computations of
    [result], which print nothing, are lifted into it with [eleva]. *)

From S2P Require Import Prelude.

(** ** Runs *)

(** The lines printed and the result. *)
Record execucao (A : Type) : Type := Exec {
  impresso : list string;
  fim : result A;
}.
Arguments Exec {A} impresso fim.
Arguments impresso {A} e.
Arguments fim {A} e.

#[export] Instance execucao_eq_dec `{EqDecision A} : EqDecision (execucao A).
Proof. solve_decision. Defined.

#[export] Instance execucao_ret : MRet execucao := λ A a, Exec [] (Ok a).

#[export] Instance execucao_bind : MBind execucao := λ A B k m,
  match fim m with
  | Ok a => Exec (impresso m ++ impresso (k a)) (fim (k a))
  | Raise e => Exec (impresso m) (Raise e)
  end.

(** A computation that prints nothing. *)
Definition eleva {A} (m : result A) : execucao A := Exec [] m.

(** [print(s)]. *)
Definition print (s : string) : execucao unit := Exec [s] (Ok tt).

(** A [print] for each line. *)
Definition imprime (linhas : list string) : execucao unit :=
  Exec linhas (Ok tt).

(** [sys.exit(codigo)]. *)
Definition sys_exit {A} (codigo : Z) : execucao A :=
  Exec [] (Raise (SystemExit codigo)).

(** The exit status of the process whose run is [m]: [0] when the run
    ends normally, the argument of [sys.exit], and [1] when it ends with
    another exception, which nothing catches. *)
Definition status {A} (m : execucao A) : Z :=
  match fim m with
  | Ok _ => 0
  | Raise (SystemExit codigo) => codigo
  | Raise _ => 1
  end.

(** ** Lemmas *)

Lemma execucao_eq {A} (m m' : execucao A) :
  impresso m = impresso m' → fim m = fim m' → m = m'.
Proof. destruct m, m'; simpl; congruence. Qed.

Lemma exec_bind_Ok {A B} linhas (a : A) (k : A → execucao B) :
  Exec linhas (Ok a) ≫= k = Exec (linhas ++ impresso (k a)) (fim (k a)).
Proof. done. Qed.

Lemma exec_bind_Raise {A B} linhas e (k : A → execucao B) :
  Exec linhas (Raise e) ≫= k = Exec linhas (Raise e).
Proof. done. Qed.

Section execucoes.
Context {A B C : Type}.
Implicit Types (a : A) (m : execucao A) (r : result A) (s : string).
Implicit Types (k : A → execucao B) (h : B → execucao C).

(** The laws of the monad. *)
Lemma exec_ret_bind a k : mret a ≫= k = k a.
Proof. by apply execucao_eq. Qed.

Lemma exec_bind_ret m : m ≫= mret = m.
Proof.
  destruct m as [linhas [a|e]]; [|done].
  rewrite exec_bind_Ok. by apply execucao_eq; [apply app_nil_r|].
Qed.

Lemma exec_bind_assoc m k h : (m ≫= k) ≫= h = m ≫= (λ a, k a ≫= h).
Proof.
  destruct m as [linhas [a|e]]; [|done]. rewrite !exec_bind_Ok.
  destruct (k a) as [linhas' [b|e]]; [|done].
  rewrite !exec_bind_Ok. cbn [impresso fim]. by rewrite app_assoc.
Qed.

Lemma eleva_Ok_bind a k : eleva (Ok a) ≫= k = k a.
Proof. by apply execucao_eq. Qed.

Lemma eleva_Raise_bind e k : eleva (Raise e) ≫= k = eleva (Raise e).
Proof. done. Qed.

(** Lifting commutes with sequencing. *)
Lemma eleva_bind r (f : A → result B) :
  eleva (r ≫= f) = eleva r ≫= (λ a, eleva (f a)).
Proof. by destruct r. Qed.

(** What is printed is never taken back. *)
Lemma impresso_bind m k : impresso m `prefix_of` impresso (m ≫= k).
Proof.
  destruct m as [linhas [a|e]]; [|done].
  rewrite exec_bind_Ok. by apply prefix_app_r.
Qed.

End execucoes.

Lemma print_bind {B} s (m : execucao B) :
  (print s ;; m) = Exec (s :: impresso m) (fim m).
Proof. done. Qed.

Lemma imprime_bind {B} linhas (m : execucao B) :
  (imprime linhas ;; m) = Exec (linhas ++ impresso m) (fim m).
Proof. done. Qed.

#[export] Hint Rewrite @eleva_Ok_bind @eleva_Raise_bind @exec_bind_Ok
  @exec_bind_Raise @print_bind @imprime_bind : py_rw.
