(* ===== verification/Modelo.v ===== *)
(** * Modelo: the data of [medalhas.py]

    The enumeration [Medalha] and the dataclass [Pais] (lines 6-19), the
    projected row [Linha] that [filtro_tabela] hands to [quadro], the
    attribute assignments the program performs on a [Pais], the ranking key
    [podio] and the well-formedness invariant [pais_ok] of an accumulator. *)

From S2P Require Import Prelude.

(** ** [class Medalha(Enum)] *)

Inductive Medalha : Type :=
| BRONZE
| PRATA
| OURO.

(** [Medalha.X.value]: the code of a medal in the input file. *)
Definition value (m : Medalha) : string :=
  match m with
  | BRONZE => "3"
  | PRATA => "2"
  | OURO => "1"
  end.

#[export] Instance Medalha_eq_dec : EqDecision Medalha.
Proof. solve_decision. Defined.

(** The medal a code denotes, if any: the inverse of [value]. *)
Definition medalha_de_codigo (codigo : string) : option Medalha :=
  if decide (codigo = value BRONZE) then Some BRONZE
  else if decide (codigo = value PRATA) then Some PRATA
  else if decide (codigo = value OURO) then Some OURO
  else None.

(** ** [@dataclass class Pais] *)

Record Pais : Type := mkPais {
  nome : string;
  quant_bronze : Z;
  quant_prata : Z;
  quant_ouro : Z;
  quant_total : Z;
  generos : option (list string);
}.

#[export] Instance Pais_eq_dec : EqDecision Pais.
Proof. solve_decision. Defined.

#[export] Instance Pais_inhabited : Inhabited Pais :=
  populate (mkPais "" 0 0 0 0 None).

(** [Pais(nome=n, generos=g)]: the counts take their default, [0]. *)
Definition Pais_init (n : string) (g : option (list string)) : Pais :=
  mkPais n 0 0 0 0 g.

(** Attribute assignments [p.campo = v]: those of [quadro] to the
    accumulator found (lines 100-110) and to a new one (lines 117-122). *)
Definition com_quant_bronze (v : Z) (p : Pais) : Pais :=
  mkPais (nome p) v (quant_prata p) (quant_ouro p) (quant_total p) (generos p).
Definition com_quant_prata (v : Z) (p : Pais) : Pais :=
  mkPais (nome p) (quant_bronze p) v (quant_ouro p) (quant_total p) (generos p).
Definition com_quant_ouro (v : Z) (p : Pais) : Pais :=
  mkPais (nome p) (quant_bronze p) (quant_prata p) v (quant_total p) (generos p).
Definition com_quant_total (v : Z) (p : Pais) : Pais :=
  mkPais (nome p) (quant_bronze p) (quant_prata p) (quant_ouro p) v (generos p).
Definition com_generos (v : option (list string)) (p : Pais) : Pais :=
  mkPais (nome p) (quant_bronze p) (quant_prata p) (quant_ouro p)
    (quant_total p) v.

(** ** Projected rows *)

(** The tuple [(item[1], item[4], item[5])] of [filtro_tabela]. *)
Definition Linha : Type := string * string * string.

(** [linha[0]], [linha[1]] and [linha[2]], under the names [quadro] gives
    them. *)
Definition medal_code (linha : Linha) : string := linha.1.1.
Definition nome_pais (linha : Linha) : string := linha.1.2.
Definition genero_atleta (linha : Linha) : string := linha.2.

(** ** The ranking key and the invariant *)

(** What the ranking compares: gold, then silver, then bronze. *)
Definition podio (p : Pais) : Z * Z * Z :=
  (quant_ouro p, quant_prata p, quant_bronze p).

(** The medal counts of an accumulator are not negative. *)
Definition contagens_ok (p : Pais) : Prop :=
  (0 ≤ quant_bronze p ∧ 0 ≤ quant_prata p ∧ 0 ≤ quant_ouro p)%Z.

(** The total is the sum of the three counts. *)
Definition total_ok (p : Pais) : Prop :=
  quant_total p = (quant_bronze p + quant_prata p + quant_ouro p)%Z.

(** The genders seen are a non-empty list without repetition. *)
Definition generos_ok (p : Pais) : Prop :=
  match generos p with
  | Some gs => NoDup gs ∧ gs ≠ []
  | None => False
  end.

(** Well-formedness of an accumulator built by [quadro]. *)
Definition pais_ok (p : Pais) : Prop :=
  total_ok p ∧ contagens_ok p ∧ generos_ok p.

#[export] Instance contagens_ok_dec p : Decision (contagens_ok p).
Proof. unfold contagens_ok. apply _. Defined.
#[export] Instance total_ok_dec p : Decision (total_ok p).
Proof. unfold total_ok. apply _. Defined.
#[export] Instance generos_ok_dec p : Decision (generos_ok p).
Proof. unfold generos_ok. destruct (generos p); apply _. Defined.
#[export] Instance pais_ok_dec p : Decision (pais_ok p).
Proof. unfold pais_ok. apply _. Defined.

(** The number of medals a country has won. *)
Definition medalhas (p : Pais) : Z :=
  (quant_bronze p + quant_prata p + quant_ouro p)%Z.

(** ** Lemmas *)

Lemma value_inj : Inj (=) (=) value.
Proof. by intros [] [] ?. Qed.

Lemma medalha_de_codigo_value m : medalha_de_codigo (value m) = Some m.
Proof. by destruct m. Qed.

Lemma medalha_de_codigo_Some codigo m :
  medalha_de_codigo codigo = Some m ↔ codigo = value m.
Proof.
  split; [|intros ->; apply medalha_de_codigo_value].
  unfold medalha_de_codigo. repeat case_decide; naive_solver.
Qed.

Lemma medalha_de_codigo_None codigo :
  medalha_de_codigo codigo = None ↔ ∀ m, codigo ≠ value m.
Proof.
  split.
  - intros Hc m ->. by rewrite medalha_de_codigo_value in Hc.
  - intros Hc. destruct (medalha_de_codigo codigo) as [m|] eqn:Hm; [|done].
    apply medalha_de_codigo_Some in Hm. by destruct (Hc m).
Qed.

(** Two accumulators with the same fields are the same. *)
Lemma Pais_eq (p q : Pais) :
  nome p = nome q →
  quant_bronze p = quant_bronze q →
  quant_prata p = quant_prata q →
  quant_ouro p = quant_ouro q →
  quant_total p = quant_total q →
  generos p = generos q →
  p = q.
Proof. destruct p, q; simpl; congruence. Qed.

Section atribuicoes.
Implicit Types (p : Pais) (v : Z).

Lemma nome_com_quant_bronze v p : nome (com_quant_bronze v p) = nome p.
Proof. done. Qed.
Lemma nome_com_quant_prata v p : nome (com_quant_prata v p) = nome p.
Proof. done. Qed.
Lemma nome_com_quant_ouro v p : nome (com_quant_ouro v p) = nome p.
Proof. done. Qed.
Lemma nome_com_quant_total v p : nome (com_quant_total v p) = nome p.
Proof. done. Qed.
Lemma nome_com_generos g p : nome (com_generos g p) = nome p.
Proof. done. Qed.

Lemma podio_com_quant_total v p : podio (com_quant_total v p) = podio p.
Proof. done. Qed.
Lemma podio_com_generos g p : podio (com_generos g p) = podio p.
Proof. done. Qed.

End atribuicoes.

#[export] Hint Rewrite nome_com_quant_bronze nome_com_quant_prata
  nome_com_quant_ouro nome_com_quant_total nome_com_generos
  podio_com_quant_total podio_com_generos : py_rw.

Lemma pais_ok_total p : pais_ok p → quant_total p = medalhas p.
Proof. by intros (? & _). Qed.

Lemma pais_ok_generos p :
  pais_ok p → ∃ gs, generos p = Some gs ∧ NoDup gs ∧ gs ≠ [].
Proof.
  intros (_ & _ & Hg). unfold generos_ok in Hg.
  destruct (generos p) as [gs|]; naive_solver.
Qed.
