(* ===== verification/Leitor.v ===== *)
(** * Leitor: [le_arquivo]

    The reading of the file (lines 40-64).  The file system is outside the
    model: what [open] answers is an argument, [Aberto texto] when the
    file can be read and [IOError errno strerror] when [open], or the
    reading inside the [try], raises [IOError], in which case the function
    prints a message and leaves with [sys.exit(1)].

    [readlines] and [split] are the methods of Python the function calls:
    [readlines] cuts the text after every newline and keeps the newline in
    the line; [split] cuts a line at every comma.  The header line is
    skipped by starting the loop at [1].  Nothing removes the newline of a
    line: it stays in the last field of the row. *)

From Stdlib Require Import Ascii.
From stdpp Require Import pretty.
From S2P Require Import Prelude Saida.

(** ** The methods of Python *)

(** The newline, the comma and the double quote. *)
Definition nl : ascii := "010"%char.
Definition virgula : ascii := ","%char.
Definition aspas : ascii := "034"%char.

(** [f.readlines()]: the lines of the text, each with its newline. *)
Fixpoint readlines (texto : string) : list string :=
  match texto with
  | EmptyString => []
  | String c texto =>
      if decide (c = nl) then String c EmptyString :: readlines texto
      else
        match readlines texto with
        | linha :: linhas => String c linha :: linhas
        | [] => [String c EmptyString]
        end
  end.

(** [s.split(sep)] for a separator of one character. *)
Fixpoint split (sep : ascii) (s : string) : list string :=
  match s with
  | EmptyString => [EmptyString]
  | String c s =>
      if decide (c = sep) then EmptyString :: split sep s
      else
        match split sep s with
        | campo :: campos => String c campo :: campos
        | [] => [String c EmptyString]
        end
  end.

(** ** The model *)

(** What [open(nome)] answers. *)
Inductive abertura : Type :=
| Aberto (texto : string)
| IOError (errno : Z) (strerror : string).

(** The loop over the lines after the first (lines 57-61). *)
Definition le_linhas (linhas : list string) : result (list (list string)) :=
  for_range 1 (len linhas)
    (λ tabela i, linha ← linhas.[i]; Ok (tabela ++ [split virgula linha]))
    [].

(** The message of the [except] branch (line 63). *)
Definition mensagem_erro (nome : string) (errno : Z) (strerror : string) :
    string :=
  "Erro na leitura do arquivo " +:+ String aspas nome +:+ String aspas ": "
  +:+ pretty errno +:+ " - " +:+ strerror +:+ ".".

(** [le_arquivo(nome)], given what [open(nome)] answers. *)
Definition le_arquivo (nome : string) (arquivo : abertura) :
    execucao (list (list string)) :=
  match arquivo with
  | Aberto texto => eleva (le_linhas (readlines texto))
  | IOError errno strerror =>
      print (mensagem_erro nome errno strerror) ;; sys_exit 1
  end.

(** ** Reference definitions *)

(** The text of a list of lines, and the line of a list of fields. *)
Definition junta_linhas (linhas : list string) : string :=
  foldr String.append EmptyString linhas.

Fixpoint junta (sep : ascii) (campos : list string) : string :=
  match campos with
  | [] => EmptyString
  | [campo] => campo
  | campo :: campos => campo +:+ String sep (junta sep campos)
  end.

(** The characters of a string. *)
Fixpoint caracteres (s : string) : list ascii :=
  match s with
  | EmptyString => []
  | String c s => c :: caracteres s
  end.

(** The file of the docstring of [le_arquivo]. *)
Definition texto_exemplo : string :=
  "tipo,cor,ano" +:+ String nl ("carro,verde,2010" +:+ String nl
    ("moto,branca,1995" +:+ String nl EmptyString)).

(** ** Lemmas *)

Section metodos.
Implicit Types (s texto linha : string) (c sep : ascii).

Lemma split_nao_vazio sep s : split sep s ≠ [].
Proof. induction s as [|c s IH]; simpl; [done|]. by repeat case_match. Qed.

Lemma junta_cons sep campo campos :
  campos ≠ [] →
  junta sep (campo :: campos) = campo +:+ String sep (junta sep campos).
Proof. by destruct campos. Qed.

Lemma junta_cons_String sep c campo campos :
  junta sep (String c campo :: campos) = String c (junta sep (campo :: campos)).
Proof. by destruct campos. Qed.

(** Joining the fields of a line with the separator gives the line. *)
Lemma split_junta sep s : junta sep (split sep s) = s.
Proof.
  induction s as [|c s IH]; [done|]. cbn [split].
  pose proof (split_nao_vazio sep s) as Hs.
  destruct (split sep s) as [|campo campos] eqn:Hsp; [done|].
  case_decide as Hc.
  - subst c. by rewrite junta_cons, IH.
  - by rewrite junta_cons_String, IH.
Qed.

(** The fields of a line hold no separator. *)
Lemma split_sem_separador sep s campo :
  campo ∈ split sep s → sep ∉ caracteres campo.
Proof.
  revert campo. induction s as [|c s IH]; intros campo; simpl.
  - intros ->%list_elem_of_singleton. apply not_elem_of_nil.
  - pose proof (split_nao_vazio sep s) as Hs.
    destruct (split sep s) as [|campo' campos] eqn:Hsp; [done|].
    case_decide as Hc.
    + intros [->|Hin]%elem_of_cons; [apply not_elem_of_nil|by apply IH].
    + intros [->|Hin]%elem_of_cons.
      * simpl. rewrite not_elem_of_cons. split; [done|]. apply IH. by left.
      * apply IH. by right.
Qed.

(** A line has one field more than it has separators. *)
Lemma split_length sep s :
  length (split sep s) = S (length (filter (λ c, c = sep) (caracteres s))).
Proof.
  induction s as [|c s IH]; [done|]. simpl.
  pose proof (split_nao_vazio sep s) as Hs.
  rewrite filter_cons. destruct (split sep s) as [|campo campos]; [done|].
  case_decide; simpl in *; lia.
Qed.

Lemma readlines_junta texto : junta_linhas (readlines texto) = texto.
Proof.
  induction texto as [|c texto IH]; [done|]. cbn [readlines].
  case_decide; [by rewrite <-IH at 2|].
  destruct (readlines texto) as [|linha linhas]; by rewrite <-IH.
Qed.

(** No line of [readlines] is empty. *)
Lemma readlines_nao_vazia texto linha :
  linha ∈ readlines texto → caracteres linha ≠ [].
Proof.
  revert linha. induction texto as [|c texto IH]; intros linha; simpl.
  - by intros ?%elem_of_nil.
  - case_decide.
    + intros [->|?]%elem_of_cons; [done|by apply IH].
    + destruct (readlines texto) as [|linha' linhas].
      * by intros ->%list_elem_of_singleton.
      * intros [->|?]%elem_of_cons; [done|]. apply IH. by right.
Qed.

(** Every line of [readlines] but the last ends with its newline. *)
Lemma readlines_nl texto i linha :
  readlines texto !! i = Some linha → S i < length (readlines texto) →
  last (caracteres linha) = Some nl.
Proof.
  revert i linha.
  induction texto as [|c texto IH]; intros i linha; simpl; [done|].
  case_decide as Hc.
  - destruct i as [|i]; simpl; [by intros [= <-]; subst c|].
    intros Hi Hlen. apply (IH i); [done|lia].
  - pose proof (readlines_nao_vazia texto) as Hne.
    destruct (readlines texto) as [|linha' linhas]; simpl; [lia|].
    destruct i as [|i]; simpl; [|intros Hi Hlen; apply (IH (S i)); [done|simpl; lia]].
    intros [= <-] Hlen. simpl. rewrite last_cons.
    by rewrite (IH 0 linha') by (done || simpl; lia).
Qed.

(** The last field of a line ends as the line ends, when that is not with
    the separator. *)
Lemma split_ultimo sep s c :
  last (caracteres s) = Some c → c ≠ sep →
  ∃ campo, last (split sep s) = Some campo ∧ last (caracteres campo) = Some c.
Proof.
  intros Hs Hc. induction s as [|a s IH]; [done|]. simpl in *.
  rewrite last_cons in Hs. pose proof (split_nao_vazio sep s) as Hne.
  destruct (last (caracteres s)) as [c'|] eqn:Hs'.
  - destruct IH as (campo & Hl & Hcampo); [done|].
    destruct (split sep s) as [|campo0 campos] eqn:Hsp; [done|].
    case_decide; [exists campo; by rewrite last_cons, Hl|].
    destruct campos as [|campo1 campos].
    + injection Hl as ->. eexists. split; [done|].
      simpl. by rewrite last_cons, Hcampo.
    + exists campo. by rewrite last_cons_cons.
  - apply last_None in Hs'. destruct s; [|done]. injection Hs as ->.
    simpl. rewrite decide_False by done. by eexists.
Qed.

Lemma split_unico_vazio sep s : split sep s = [EmptyString] → s = EmptyString.
Proof. intros Hs. by rewrite <-(split_junta sep s), Hs. Qed.

(** A last field that is not empty ends as the line ends. *)
Lemma split_ultimo_fim sep s campo c :
  last (split sep s) = Some campo → last (caracteres campo) = Some c →
  last (caracteres s) = Some c.
Proof.
  revert campo. induction s as [|a s IH]; intros campo; simpl.
  - by intros [= <-].
  - pose proof (split_unico_vazio sep s) as Hvazio.
    pose proof (split_nao_vazio sep s) as Hne.
    destruct (split sep s) as [|campo0 campos]; [done|].
    case_decide; [|destruct campos as [|campo1 campos]].
    + rewrite last_cons_cons. intros Hl Hc. by rewrite last_cons, (IH campo).
    + intros [= <-]. simpl. rewrite !last_cons.
      destruct (last (caracteres campo0)) as [c'|] eqn:Hc0.
      * intros [= ->]. by rewrite (IH campo0).
      * apply last_None in Hc0. destruct campo0; [|done].
        by rewrite Hvazio.
    + rewrite last_cons_cons. intros Hl Hc. by rewrite last_cons, (IH campo).
Qed.

Lemma readlines_nil texto : readlines texto = [] → texto = EmptyString.
Proof. intros Hr. by rewrite <-(readlines_junta texto), Hr. Qed.

(** The last line of [readlines] ends as the text ends. *)
Lemma readlines_ultima texto linha :
  last (readlines texto) = Some linha →
  last (caracteres linha) = last (caracteres texto).
Proof.
  revert linha. induction texto as [|c texto IH]; intros linha; [done|].
  pose proof (readlines_nil texto) as Hnil.
  pose proof (readlines_nao_vazia texto) as Hne. cbn [readlines caracteres].
  rewrite (last_cons c). case_decide as Hc.
  - destruct (readlines texto) as [|linha' linhas]; [|rewrite last_cons_cons].
    + intros [= <-]. by rewrite Hnil.
    + intros Hl. rewrite <-(IH linha) by done.
      apply last_Some_elem_of, Hne, last_is_Some in Hl as Hs.
      by destruct Hs as [? ->].
  - destruct (readlines texto) as [|linha' [|linha'' linhas]].
    + intros [= <-]. by rewrite Hnil.
    + intros [= <-]. simpl. by rewrite last_cons, (IH linha').
    + rewrite last_cons_cons. intros Hl. rewrite <-(IH linha) by done.
      apply last_Some_elem_of, (list_elem_of_further _ linha'), Hne in Hl.
      apply last_is_Some in Hl as [? ->]. done.
Qed.

End metodos.

Section leitura.
Implicit Types (texto linha : string) (linhas : list string).
Implicit Types (tabela : list (list string)).

(** The rounds of the loop from the end of a prefix on. *)
Lemma le_arquivo_laco (lidas linhas : list string) tabela :
  for_range (len lidas) (len (lidas ++ linhas))
    (λ tabela i,
       linha ← (lidas ++ linhas).[i]; Ok (tabela ++ [split virgula linha]))
    tabela
  = Ok (tabela ++ (split virgula <$> linhas)).
Proof.
  revert lidas tabela.
  induction linhas as [|linha linhas IH]; intros lidas tabela.
  - rewrite !app_nil_r. by apply for_range_empty.
  - rewrite for_range_first by (rewrite length_app; simpl; lia).
    rewrite getitem_meio, !bind_Ok.
    specialize (IH (lidas ++ [linha]) (tabela ++ [split virgula linha])).
    replace (len (lidas ++ [linha])) with (len lidas + 1)%Z in IH
      by (rewrite length_app; simpl; lia).
    rewrite <-!app_assoc in IH. cbn [app] in IH. by rewrite IH.
Qed.

Lemma le_linhas_drop linhas :
  le_linhas linhas = Ok (split virgula <$> drop 1 linhas).
Proof.
  unfold le_linhas. destruct linhas as [|cabecalho linhas]; [done|].
  apply (le_arquivo_laco [cabecalho] linhas []).
Qed.

Lemma le_arquivo_drop nome texto :
  le_arquivo nome (Aberto texto)
  = eleva (Ok (split virgula <$> drop 1 (readlines texto))).
Proof. unfold le_arquivo. by rewrite le_linhas_drop. Qed.

(** The line break of a line stays in the last field of its row, in
    every row but the last. *)
Lemma linhas_quebra_de_linha texto i item :
  (split virgula <$> drop 1 (readlines texto)) !! i = Some item →
  S i < length (split virgula <$> drop 1 (readlines texto)) →
  ∃ campo, last item = Some campo ∧ last (caracteres campo) = Some nl.
Proof.
  rewrite list_lookup_fmap, lookup_drop, length_fmap, length_drop.
  intros (linha & Hlinha & ->)%fmap_Some Hlen.
  apply split_ultimo; [|done]. apply (readlines_nl texto (1 + i)); [done|lia].
Qed.

(** The last field of the last row, when it is not empty, ends as the
    text ends. *)
Lemma linhas_ultima texto item campo c :
  last (split virgula <$> drop 1 (readlines texto)) = Some item →
  last item = Some campo → last (caracteres campo) = Some c →
  last (caracteres texto) = Some c.
Proof.
  rewrite fmap_last. intros (linha & Hlinha & ->)%fmap_Some Hcampo Hc.
  rewrite <-(readlines_ultima texto linha).
  - by eapply split_ultimo_fim.
  - destruct (readlines texto) as [|cabecalho linhas]; [done|].
    change (last linhas = Some linha) in Hlinha. by rewrite last_cons, Hlinha.
Qed.

End leitura.

(** ** Properties *)

(** C27: [le_arquivo] prints nothing and returns the lines of the file
    after the first, each cut at its commas; when the file cannot be
    opened it prints the message of the error and leaves the program with
    status 1. *)
Theorem le_arquivo_linhas (nome : string) (arquivo : abertura) :
  le_arquivo nome arquivo =
  match arquivo with
  | Aberto texto => Exec [] (Ok (split virgula <$> drop 1 (readlines texto)))
  | IOError errno strerror =>
      Exec [mensagem_erro nome errno strerror] (Raise (SystemExit 1))
  end.
Proof. destruct arquivo as [texto|errno strerror]; [apply le_arquivo_drop|done]. Qed.

(** C28: nothing of the file is lost but the commas and the line breaks
    between fields: the header line followed by the rows [le_arquivo]
    returns, each joined with commas, is the text of the file. *)
Theorem le_arquivo_junta (nome texto : string) (tabela : list (list string)) :
  fim (le_arquivo nome (Aberto texto)) = Ok tabela →
  junta_linhas (take 1 (readlines texto) ++ (junta virgula <$> tabela)) = texto.
Proof.
  rewrite le_arquivo_drop. intros [= <-].
  rewrite <-list_fmap_compose.
  rewrite (list_fmap_ext _ id (drop 1 (readlines texto)))
    by (intros; apply split_junta).
  by rewrite list_fmap_id, take_drop, readlines_junta.
Qed.

Lemma le_arquivo_junta_witness :
  junta_linhas
    (take 1 (readlines texto_exemplo) ++
     (junta virgula <$>
        [["carro"; "verde"; String.append "2010" (String nl EmptyString)];
         ["moto"; "branca"; String.append "1995" (String nl EmptyString)]]))
  = texto_exemplo.
Proof. apply (le_arquivo_junta "f.csv" texto_exemplo). by vm_compute. Defined.

(** Every row [le_arquivo] returns has at least one field, and no field
    holds a comma. *)
Lemma le_arquivo_campos (nome texto : string) (tabela : list (list string))
    (item : list string) :
  fim (le_arquivo nome (Aberto texto)) = Ok tabela → item ∈ tabela →
  item ≠ [] ∧ Forall (λ campo, virgula ∉ caracteres campo) item.
Proof.
  rewrite le_arquivo_drop. intros [= <-] (linha & -> & _)%list_elem_of_fmap.
  split; [apply split_nao_vazio|].
  apply Forall_forall. intros campo. apply split_sem_separador.
Qed.

(** C29: the line break of a line stays in the last field of its row:
    in every row [le_arquivo] returns but the last, the last field ends
    with a newline. *)
Theorem le_arquivo_quebra_de_linha (nome texto : string)
    (tabela : list (list string)) (i : nat) (item : list string) :
  fim (le_arquivo nome (Aberto texto)) = Ok tabela →
  tabela !! i = Some item → S i < length tabela →
  ∃ campo, last item = Some campo ∧ last (caracteres campo) = Some nl.
Proof.
  rewrite le_arquivo_drop. intros [= <-]. apply linhas_quebra_de_linha.
Qed.

Lemma le_arquivo_quebra_de_linha_witness :
  ∃ campo,
    last ["carro"; "verde"; String.append "2010" (String nl EmptyString)]
    = Some campo ∧
    last (caracteres campo) = Some nl.
Proof.
  apply (le_arquivo_quebra_de_linha "f.csv" texto_exemplo
           [["carro"; "verde"; String.append "2010" (String nl EmptyString)];
            ["moto"; "branca"; String.append "1995" (String nl EmptyString)]]
           0);
    [by vm_compute|done|simpl; lia].
Defined.

(** The line break stays in the last field of a row: on the file of
    the docstring of [le_arquivo] the rows end with the fields "2010" and
    "1995" followed by a newline, not with the fields the docstring
    shows. *)
Example le_arquivo_docstring :
  fim (le_arquivo "f.csv" (Aberto texto_exemplo)) =
  Ok [["carro"; "verde"; String.append "2010" (String nl EmptyString)];
      ["moto"; "branca"; String.append "1995" (String nl EmptyString)]] ∧
  fim (le_arquivo "f.csv" (Aberto texto_exemplo)) ≠
  Ok [["carro"; "verde"; "2010"]; ["moto"; "branca"; "1995"]].
Proof. split; [by vm_compute|]. vm_compute. by intros [=]. Qed.
