(* ===== verification/Projetor.v ===== *)
(** * Projetor: [filtro_tabela]

    The projection of every row of the table onto the three fields the
    program uses (lines 66-78): [item[1]], the medal code; [item[4]], the
    country; [item[5]], the gender.  A row of fewer than six fields makes
    the subscript [item[5]] (or an earlier one) raise [IndexError], which
    nothing catches: the whole call raises.  The docstring of the function
    (lines 70-72) applies it to rows of three fields, on which it
    raises. *)

From S2P Require Import Prelude Modelo.

(** ** The model *)

(** [filtra = item[1], item[4], item[5]] (line 76). *)
Definition filtra (item : list string) : result Linha :=
  a ← item.[1];
  b ← item.[4];
  c ← item.[5];
  Ok (a, b, c).

(** [filtro_tabela(tabela)]: the loop appends the projection of each row. *)
Definition filtro_tabela (tabela : list (list string)) : result (list Linha) :=
  foldM (λ nova_tabela item, f ← filtra item; Ok (nova_tabela ++ [f])) [] tabela.

(** ** Reference definitions *)

(** A row the projection accepts: six fields or more. *)
Definition linha_valida (item : list string) : Prop := 6 ≤ length item.

#[export] Instance linha_valida_dec item : Decision (linha_valida item).
Proof. unfold linha_valida. apply _. Defined.

(** The projection of a valid row, total: the fields at 1, 4 and 5. *)
Definition campos (item : list string) : Linha :=
  (item !!! 1, item !!! 4, item !!! 5).

(** The table of the docstring of [filtro_tabela] (line 70): rows of
    three fields. *)
Definition tabela_docstring : list (list string) :=
  [["1"; "BRA"; "M"]; ["2"; "USA"; "F"]; ["3"; "BRA"; "M"]; ["1"; "FRA"; "M"]].

(** ** Lemmas *)

Section projetor.
Implicit Types (item : list string) (tabela : list (list string)).

Lemma filtra_valida item : linha_valida item → filtra item = Ok (campos item).
Proof.
  unfold linha_valida, filtra, campos, getitem. intros Hlen.
  rewrite !indice_nonneg by lia. simpl.
  do 6 (destruct item as [|? item]; [simpl in Hlen; lia|]). done.
Qed.

Lemma filtra_invalida item :
  ¬ linha_valida item → filtra item = Raise IndexError.
Proof.
  unfold linha_valida, filtra. intros Hlen.
  assert (item.[5] = Raise IndexError) as H5
    by (apply getitem_Raise; split; [done|lia]).
  destruct (item.[1]) as [a|e] eqn:H1; simpl;
    [|by apply getitem_Raise in H1 as [-> _]].
  destruct (item.[4]) as [b|e] eqn:H4; simpl;
    [|by apply getitem_Raise in H4 as [-> _]].
  by rewrite H5.
Qed.

Lemma filtra_Ok item linha :
  filtra item = Ok linha ↔ linha_valida item ∧ linha = campos item.
Proof.
  destruct (decide (linha_valida item)) as [Hv|Hv].
  - rewrite filtra_valida by done. naive_solver.
  - rewrite filtra_invalida by done. naive_solver.
Qed.

(** The accumulating loop, started from any prefix [acc]. *)
Lemma filtro_laco_mapM tabela acc :
  foldM (λ nova_tabela item, f ← filtra item; Ok (nova_tabela ++ [f]))
    acc tabela
  = ls ← mapM filtra tabela; Ok (acc ++ ls).
Proof.
  revert acc. induction tabela as [|item tabela IH]; intros acc; simpl.
  - by rewrite app_nil_r.
  - destruct (filtra item) as [f|e]; simpl; [|done].
    rewrite IH. destruct (mapM filtra tabela); simpl; [|done].
    by rewrite <-app_assoc.
Qed.

Lemma filtro_tabela_mapM tabela : filtro_tabela tabela = mapM filtra tabela.
Proof.
  unfold filtro_tabela. rewrite filtro_laco_mapM.
  by destruct (mapM filtra tabela).
Qed.

Lemma mapM_filtra_valida tabela :
  Forall linha_valida tabela → mapM filtra tabela = Ok (campos <$> tabela).
Proof.
  intros Hv. apply mapM_Ok_fmap. intros item Hitem. apply filtra_valida.
  by eapply (proj1 (Forall_forall _ _)).
Qed.

Lemma mapM_filtra_invalida tabela :
  ¬ Forall linha_valida tabela → mapM filtra tabela = Raise IndexError.
Proof.
  induction tabela as [|item tabela IH]; intros Hv.
  - by destruct Hv.
  - simpl. destruct (decide (linha_valida item)) as [Hi|Hi].
    + rewrite filtra_valida by done. simpl. rewrite IH; [done|].
      contradict Hv. by constructor.
    + by rewrite filtra_invalida.
Qed.

(** In a valid row the fields read are there. *)
Lemma linha_valida_lookup item i :
  linha_valida item → i < 6 → item !! i = Some (item !!! i).
Proof.
  unfold linha_valida. intros. apply list_lookup_lookup_total_lt. lia.
Qed.

End projetor.

(** ** Properties *)

(** C8: on a table whose rows all have six fields or more, [filtro_tabela]
    returns, row by row and in the order of the rows, the fields at
    positions 1, 4 and 5. *)
Theorem filtro_tabela_valida (tabela : list (list string)) :
  Forall linha_valida tabela →
  filtro_tabela tabela = Ok (campos <$> tabela).
Proof. intros Hv. rewrite filtro_tabela_mapM. by apply mapM_filtra_valida. Qed.

Lemma filtro_tabela_valida_witness :
  Forall linha_valida [["a"; "1"; "c"; "d"; "BRA"; "M"]] ∧
  filtro_tabela [["a"; "1"; "c"; "d"; "BRA"; "M"]] = Ok [("1", "BRA", "M")].
Proof.
  split; [by repeat constructor|].
  apply (filtro_tabela_valida [["a"; "1"; "c"; "d"; "BRA"; "M"]]).
  by repeat constructor.
Defined.

(** C26: [filtro_tabela] raises [IndexError] exactly when some row has fewer
    than six fields, it raises nothing else, and it returns exactly when
    every row is valid. *)
Theorem filtro_tabela_erro (tabela : list (list string)) :
  (∀ e, filtro_tabela tabela = Raise e ↔
        e = IndexError ∧ ¬ Forall linha_valida tabela) ∧
  (is_Ok (filtro_tabela tabela) ↔ Forall linha_valida tabela).
Proof.
  rewrite filtro_tabela_mapM.
  destruct (decide (Forall linha_valida tabela)) as [Hv|Hv].
  - rewrite mapM_filtra_valida by done. split; [naive_solver|].
    split; [done|]. intros _. apply is_Ok_Ok.
  - rewrite mapM_filtra_invalida by done. split; [naive_solver|].
    split; [by intros ?%is_Ok_Raise|done].
Qed.

(** On the table of its docstring [filtro_tabela] raises [IndexError], at
    [item[4]] of the first row: it does not return the tuples the
    docstring shows (line 72). *)
Example filtro_tabela_docstring :
  filtro_tabela tabela_docstring = Raise IndexError ∧
  ["1"; "BRA"; "M"].[4] = Raise IndexError.
Proof. by vm_compute. Qed.
