(* ===== verification/Agregador.v ===== *)
(** * Agregador: [quadro]

    The fold of the projected rows into the list of per-country
    accumulators (lines 80-124).  For every row the program searches the
    list from its head for the country of the row; when it finds it, it
    updates that accumulator in place and leaves the search ([break]);
    otherwise it appends a new accumulator.  The accumulators are objects
    that only the list refers to, each from one position, so the list of
    objects is modelled as a [list Pais] and an update in place as the
    replacement of the element.

    The reference definition is [acumulado]: the accumulator of a country as
    a function of the whole table, by counting rows.  The main theorem is
    that [quadro] maps [acumulado] over the distinct country codes in the
    order of their first appearance. *)

From S2P Require Import Prelude Modelo.

(** ** The model *)

(** The [if]/[elif] chain on the medal code of a found country and the
    recomputation of the total (lines 99-105). *)
Definition conta_medalha (codigo : string) (item : Pais) : Pais :=
  let item :=
    if decide (codigo = value BRONZE) then
      com_quant_bronze (quant_bronze item + 1) item
    else if decide (codigo = value PRATA) then
      com_quant_prata (quant_prata item + 1) item
    else if decide (codigo = value OURO) then
      com_quant_ouro (quant_ouro item + 1) item
    else item in
  com_quant_total (quant_bronze item + quant_prata item + quant_ouro item) item.

(** The gender of the row joins the genders of the country unless it is
    there already; [None] counts as the empty list (lines 107-110). *)
Definition anota_genero (genero : string) (item : Pais) : Pais :=
  let gs := default [] (generos item) in
  if decide (genero ∈ gs) then com_generos (Some gs) item
  else com_generos (Some (gs ++ [genero])) item.

(** The update of the accumulator found (lines 99-110). *)
Definition atualiza_item (linha : Linha) (item : Pais) : Pais :=
  anota_genero (genero_atleta linha) (conta_medalha (medal_code linha) item).

(** The search loop [for item in paises_list] with its [break] (lines
    95-111): whether the country was found, and the list after the update. *)
Fixpoint percorre (linha : Linha) (paises_list : list Pais) : bool * list Pais :=
  match paises_list with
  | [] => (false, [])
  | item :: resto =>
      if decide (nome item = nome_pais linha) then
        (true, atualiza_item linha item :: resto)
      else
        let '(pais_encontrado, resto) := percorre linha resto in
        (pais_encontrado, item :: resto)
  end.

(** The accumulator of a country seen for the first time (lines 115-122). *)
Definition novo_pais (linha : Linha) : Pais :=
  let novo := Pais_init (nome_pais linha) (Some [genero_atleta linha]) in
  let novo :=
    if decide (medal_code linha = value BRONZE) then com_quant_bronze 1 novo
    else if decide (medal_code linha = value PRATA) then com_quant_prata 1 novo
    else if decide (medal_code linha = value OURO) then com_quant_ouro 1 novo
    else novo in
  com_quant_total (quant_bronze novo + quant_prata novo + quant_ouro novo) novo.

(** The body of the outer loop (lines 90-123). *)
Definition processa_linha (paises_list : list Pais) (linha : Linha) : list Pais :=
  let '(pais_encontrado, paises_list) := percorre linha paises_list in
  if pais_encontrado then paises_list else paises_list ++ [novo_pais linha].

(** [quadro(tabela)]. *)
Definition quadro (tabela : list Linha) : list Pais :=
  fold_left processa_linha tabela [].

(** ** Reference definitions *)

(** The rows of a country. *)
Definition linhas_de (tabela : list Linha) (n : string) : list Linha :=
  filter (λ linha, nome_pais linha = n) tabela.

(** The number of rows of country [n] with the code of medal [m]. *)
Definition conta (tabela : list Linha) (n : string) (m : Medalha) : Z :=
  Z.of_nat (length (filter (λ linha, medal_code linha = value m)
                      (linhas_de tabela n))).

(** The accumulator of country [n] as a function of the table. *)
Definition acumulado (tabela : list Linha) (n : string) : Pais :=
  {| nome := n;
     quant_bronze := conta tabela n BRONZE;
     quant_prata := conta tabela n PRATA;
     quant_ouro := conta tabela n OURO;
     quant_total :=
       conta tabela n BRONZE + conta tabela n PRATA + conta tabela n OURO;
     generos := Some (distintos (genero_atleta <$> linhas_de tabela n)) |}.

(** A row with one of the three medal codes. *)
Definition premiada (linha : Linha) : Prop :=
  is_Some (medalha_de_codigo (medal_code linha)).

#[export] Instance premiada_dec linha : Decision (premiada linha).
Proof. unfold premiada. apply _. Defined.

(** The table of the docstring of [quadro] (line 84) and its result. *)
Definition tabela_exemplo : list Linha :=
  [("1", "BRA", "M"); ("2", "USA", "F"); ("3", "BRA", "M"); ("1", "FRA", "M")].

Definition quadro_exemplo : list Pais :=
  [mkPais "BRA" 1 0 1 2 (Some ["M"]);
   mkPais "USA" 0 1 0 1 (Some ["F"]);
   mkPais "FRA" 0 0 1 1 (Some ["M"])].

(** ** Each operation preserves the invariant *)

Section invariante.
Implicit Types (linha : Linha) (item p : Pais) (ps : list Pais).

Lemma conta_medalha_nome codigo item : nome (conta_medalha codigo item) = nome item.
Proof. unfold conta_medalha. by repeat case_decide. Qed.

Lemma conta_medalha_generos codigo item :
  generos (conta_medalha codigo item) = generos item.
Proof. unfold conta_medalha. by repeat case_decide. Qed.

Lemma conta_medalha_total_ok codigo item : total_ok (conta_medalha codigo item).
Proof. unfold conta_medalha, total_ok. by repeat case_decide. Qed.

Lemma conta_medalha_contagens_ok codigo item :
  contagens_ok item → contagens_ok (conta_medalha codigo item).
Proof.
  unfold conta_medalha, contagens_ok. repeat case_decide; simpl; lia.
Qed.

(** The counts after the chain: each code increments its own count. *)
Lemma conta_medalha_bronze codigo item :
  quant_bronze (conta_medalha codigo item) =
  (quant_bronze item + if decide (codigo = value BRONZE) then 1 else 0)%Z.
Proof. unfold conta_medalha. repeat case_decide; simplify_eq/=; lia. Qed.

Lemma conta_medalha_prata codigo item :
  quant_prata (conta_medalha codigo item) =
  (quant_prata item + if decide (codigo = value PRATA) then 1 else 0)%Z.
Proof. unfold conta_medalha. repeat case_decide; simplify_eq/=; lia. Qed.

Lemma conta_medalha_ouro codigo item :
  quant_ouro (conta_medalha codigo item) =
  (quant_ouro item + if decide (codigo = value OURO) then 1 else 0)%Z.
Proof. unfold conta_medalha. repeat case_decide; simplify_eq/=; lia. Qed.

Lemma anota_genero_generos g item :
  generos (anota_genero g item) =
  Some (let gs := default [] (generos item) in
        if decide (g ∈ gs) then gs else gs ++ [g]).
Proof. unfold anota_genero. by case_decide. Qed.

Lemma anota_genero_nome g item : nome (anota_genero g item) = nome item.
Proof. unfold anota_genero. by case_decide. Qed.

Lemma anota_genero_podio g item : podio (anota_genero g item) = podio item.
Proof. unfold anota_genero. by case_decide. Qed.

Lemma anota_genero_total g item :
  quant_total (anota_genero g item) = quant_total item.
Proof. unfold anota_genero. by case_decide. Qed.

(** No hypothesis on the genders before: a list with repetitions stays one,
    so the invariant needs [NoDup] of the list it starts from. *)
Lemma anota_genero_generos_ok g item :
  match generos item with Some gs => NoDup gs | None => True end →
  generos_ok (anota_genero g item).
Proof.
  unfold anota_genero, generos_ok. intros Hgs.
  destruct (generos item) as [gs|]; case_decide; simpl in *.
  - split; [done|]. intros ->. by apply elem_of_nil in H.
  - split; [|by destruct gs]. apply NoDup_app.
    split_and!; [done| |apply NoDup_singleton].
    by intros x Hx ->%list_elem_of_singleton.
  - by apply elem_of_nil in H.
  - split; [apply NoDup_singleton|done].
Qed.

Lemma atualiza_item_nome linha item : nome (atualiza_item linha item) = nome item.
Proof. unfold atualiza_item. by rewrite anota_genero_nome, conta_medalha_nome. Qed.

Lemma atualiza_item_ok linha item : pais_ok item → pais_ok (atualiza_item linha item).
Proof.
  intros (_ & Hc & Hg). unfold atualiza_item, pais_ok.
  split_and!.
  - pose proof (conta_medalha_total_ok (medal_code linha) item) as Ht.
    unfold total_ok in *. unfold anota_genero. by case_decide.
  - pose proof (conta_medalha_contagens_ok (medal_code linha) item Hc) as Hc'.
    unfold contagens_ok in *. unfold anota_genero. by case_decide.
  - apply anota_genero_generos_ok. rewrite conta_medalha_generos.
    unfold generos_ok in Hg. destruct (generos item); naive_solver.
Qed.

(** The fields of the updated accumulator. *)
Lemma atualiza_item_bronze linha item :
  quant_bronze (atualiza_item linha item) =
  (quant_bronze item + if decide (medal_code linha = value BRONZE) then 1 else 0)%Z.
Proof.
  unfold atualiza_item.
  pose proof (anota_genero_podio (genero_atleta linha)
                (conta_medalha (medal_code linha) item)) as [= _ _ ->].
  apply conta_medalha_bronze.
Qed.

Lemma atualiza_item_prata linha item :
  quant_prata (atualiza_item linha item) =
  (quant_prata item + if decide (medal_code linha = value PRATA) then 1 else 0)%Z.
Proof.
  unfold atualiza_item.
  pose proof (anota_genero_podio (genero_atleta linha)
                (conta_medalha (medal_code linha) item)) as [= _ -> _].
  apply conta_medalha_prata.
Qed.

Lemma atualiza_item_ouro linha item :
  quant_ouro (atualiza_item linha item) =
  (quant_ouro item + if decide (medal_code linha = value OURO) then 1 else 0)%Z.
Proof.
  unfold atualiza_item.
  pose proof (anota_genero_podio (genero_atleta linha)
                (conta_medalha (medal_code linha) item)) as [= -> _ _].
  apply conta_medalha_ouro.
Qed.

Lemma atualiza_item_total linha item :
  quant_total (atualiza_item linha item) =
  (quant_bronze (atualiza_item linha item) +
   quant_prata (atualiza_item linha item) +
   quant_ouro (atualiza_item linha item))%Z.
Proof.
  unfold atualiza_item. rewrite anota_genero_total.
  pose proof (anota_genero_podio (genero_atleta linha)
                (conta_medalha (medal_code linha) item)) as [= -> -> ->].
  apply conta_medalha_total_ok.
Qed.

Lemma atualiza_item_generos linha item :
  generos (atualiza_item linha item) =
  Some (let gs := default [] (generos item) in
        if decide (genero_atleta linha ∈ gs) then gs
        else gs ++ [genero_atleta linha]).
Proof.
  unfold atualiza_item. by rewrite anota_genero_generos, conta_medalha_generos.
Qed.

Lemma novo_pais_nome linha : nome (novo_pais linha) = nome_pais linha.
Proof. unfold novo_pais. by repeat case_decide. Qed.

Lemma novo_pais_ok linha : pais_ok (novo_pais linha).
Proof.
  unfold novo_pais, pais_ok, total_ok, contagens_ok, generos_ok.
  repeat case_decide; simpl; (split_and!; [lia..|apply NoDup_singleton|done]).
Qed.

Lemma percorre_ok linha ps :
  Forall pais_ok ps → Forall pais_ok (percorre linha ps).2.
Proof.
  induction 1 as [|item ps Hitem Hps IH]; simpl; [done|].
  case_decide.
  - constructor; [by apply atualiza_item_ok|done].
  - destruct (percorre linha ps). by constructor.
Qed.

Lemma processa_linha_ok linha ps :
  Forall pais_ok ps → Forall pais_ok (processa_linha ps linha).
Proof.
  intros Hps. unfold processa_linha.
  pose proof (percorre_ok linha ps Hps) as Hp.
  destruct (percorre linha ps) as [[] ps']; simpl in *; [done|].
  apply Forall_app. split; [done|]. apply Forall_singleton, novo_pais_ok.
Qed.

Lemma fold_processa_linha_ok tabela ps :
  Forall pais_ok ps → Forall pais_ok (fold_left processa_linha tabela ps).
Proof.
  revert ps. induction tabela as [|linha tabela IH]; intros ps Hps; [done|].
  simpl. by apply IH, processa_linha_ok.
Qed.

End invariante.

(** ** The search loop *)

Section busca.
Implicit Types (linha : Linha) (ps : list Pais) (ns : list string).

(** The country is not in the list: nothing changes. *)
Lemma percorre_ausente linha ps :
  nome_pais linha ∉ nome <$> ps → percorre linha ps = (false, ps).
Proof.
  induction ps as [|item ps IH]; simpl; [done|].
  rewrite not_elem_of_cons. intros [Hne Hps].
  rewrite decide_False by done. by rewrite IH.
Qed.

(** The country is in the list: the first accumulator of that name is
    updated, and only it. *)
Lemma percorre_presente linha ps1 item ps2 :
  nome_pais linha ∉ nome <$> ps1 →
  nome item = nome_pais linha →
  percorre linha (ps1 ++ item :: ps2) =
  (true, ps1 ++ atualiza_item linha item :: ps2).
Proof.
  intros Hps1 Hitem. induction ps1 as [|p ps1 IH]; simpl.
  - by rewrite decide_True.
  - apply not_elem_of_cons in Hps1 as [Hne Hps1].
    rewrite decide_False by done. by rewrite IH.
Qed.

(** The search over a list given by the names it holds, each once. *)
Lemma percorre_fmap linha (f : string → Pais) ns :
  (∀ n, nome (f n) = n) →
  NoDup ns →
  nome_pais linha ∈ ns →
  percorre linha (f <$> ns) =
  (true, (λ n, if decide (n = nome_pais linha)
               then atualiza_item linha (f n) else f n) <$> ns).
Proof.
  intros Hf Hnd (ns1 & ns2 & ->)%list_elem_of_split.
  apply NoDup_app in Hnd as (_ & Hns1 & Hns2%NoDup_cons).
  rewrite !fmap_app, !fmap_cons, percorre_presente.
  - rewrite decide_True by done. do 2 f_equal.
    + apply list_fmap_ext. intros i n Hn. rewrite decide_False; [done|].
      intros ->. eapply Hns1; [by eapply list_elem_of_lookup_2|left].
    + f_equal. apply list_fmap_ext. intros i n Hn.
      rewrite decide_False; [done|].
      intros ->. destruct Hns2 as [Hns2 _]. apply Hns2.
      by eapply list_elem_of_lookup_2.
  - rewrite <-list_fmap_compose.
    rewrite (list_fmap_ext (nome ∘ f) id ns1) by (intros; apply Hf).
    rewrite list_fmap_id. intros ?. by eapply Hns1; [|left].
  - apply Hf.
Qed.

End busca.

(** ** The reference accumulator under a new row *)

Section referencia.
Implicit Types (tabela : list Linha) (linha : Linha) (n : string) (m : Medalha).

Lemma linhas_de_snoc tabela linha n :
  linhas_de (tabela ++ [linha]) n =
  linhas_de tabela n ++ (if decide (nome_pais linha = n) then [linha] else []).
Proof. unfold linhas_de. by rewrite filter_app. Qed.

Lemma linhas_de_ausente tabela n :
  n ∉ nome_pais <$> tabela → linhas_de tabela n = [].
Proof.
  intros Hn. apply filter_nil_not_elem_of. intros linha Hl <-.
  by apply Hn, list_elem_of_fmap_2.
Qed.

Lemma conta_snoc tabela linha n m :
  conta (tabela ++ [linha]) n m =
  (conta tabela n m +
   if decide (nome_pais linha = n ∧ medal_code linha = value m) then 1 else 0)%Z.
Proof.
  unfold conta. rewrite linhas_de_snoc, filter_app, length_app.
  destruct (decide (nome_pais linha = n)) as [Hn|Hn]; simpl.
  - rewrite filter_cons, filter_nil.
    destruct (decide (medal_code linha = value m)); simpl;
      [rewrite decide_True by done|rewrite decide_False by tauto]; lia.
  - rewrite decide_False by tauto. lia.
Qed.

Lemma conta_snoc_mesmo tabela linha m :
  conta (tabela ++ [linha]) (nome_pais linha) m =
  (conta tabela (nome_pais linha) m +
   if decide (medal_code linha = value m) then 1 else 0)%Z.
Proof. rewrite conta_snoc. f_equal. apply decide_ext. naive_solver. Qed.

Lemma conta_ausente tabela n m : n ∉ nome_pais <$> tabela → conta tabela n m = 0%Z.
Proof. intros Hn. unfold conta. by rewrite linhas_de_ausente. Qed.

Lemma conta_nonneg tabela n m : (0 ≤ conta tabela n m)%Z.
Proof. unfold conta. lia. Qed.

(** A row of another country leaves the accumulator as it is. *)
Lemma acumulado_snoc_outro tabela linha n :
  nome_pais linha ≠ n → acumulado (tabela ++ [linha]) n = acumulado tabela n.
Proof.
  intros Hn. unfold acumulado.
  rewrite !conta_snoc, linhas_de_snoc, !decide_False by tauto.
  rewrite app_nil_r. f_equal; lia.
Qed.

(** The update of a found country computes its accumulator over the longer
    table. *)
Lemma acumulado_snoc_mesmo tabela linha :
  atualiza_item linha (acumulado tabela (nome_pais linha)) =
  acumulado (tabela ++ [linha]) (nome_pais linha).
Proof.
  apply Pais_eq;
    rewrite ?atualiza_item_total, ?atualiza_item_nome, ?atualiza_item_bronze,
      ?atualiza_item_prata, ?atualiza_item_ouro, ?atualiza_item_generos;
    simpl; rewrite ?conta_snoc_mesmo; try done.
  rewrite linhas_de_snoc, (decide_True (P := nome_pais linha = _)) by done.
  rewrite fmap_app.
  change (genero_atleta <$> [linha]) with [genero_atleta linha].
  rewrite distintos_snoc. f_equal. apply decide_ext, elem_of_distintos.
Qed.

(** The accumulator created for a new country is its accumulator over the
    longer table. *)
Lemma acumulado_novo tabela linha :
  nome_pais linha ∉ nome_pais <$> tabela →
  novo_pais linha = acumulado (tabela ++ [linha]) (nome_pais linha).
Proof.
  intros Hn. unfold acumulado, novo_pais.
  rewrite !conta_snoc_mesmo, linhas_de_snoc, !conta_ausente, linhas_de_ausente
    by done.
  rewrite (decide_True (P := nome_pais linha = _)) by done.
  repeat case_decide; simplify_eq/=; try done; congruence.
Qed.

Lemma nome_acumulado tabela : nome ∘ acumulado tabela = id.
Proof. done. Qed.

(** One iteration of the outer loop, on the closed form. *)
Lemma processa_linha_acumulado tabela linha :
  processa_linha
    (acumulado tabela <$> distintos (nome_pais <$> tabela)) linha =
  acumulado (tabela ++ [linha]) <$> distintos (nome_pais <$> (tabela ++ [linha])).
Proof.
  unfold processa_linha. rewrite distintos_fmap_snoc.
  destruct (decide (nome_pais linha ∈ nome_pais <$> tabela)) as [Hn|Hn].
  - rewrite percorre_fmap;
      [|done|apply NoDup_distintos|by apply elem_of_distintos].
    apply list_fmap_ext. intros i n _. case_decide as Hi.
    + rewrite Hi. apply acumulado_snoc_mesmo.
    + by rewrite acumulado_snoc_outro.
  - rewrite percorre_ausente.
    + rewrite fmap_app. simpl. rewrite <-acumulado_novo by done. f_equal.
      apply list_fmap_ext. intros i n Hi.
      rewrite acumulado_snoc_outro; [done|]. intros <-.
      by apply Hn, elem_of_distintos, list_elem_of_lookup_2 with i.
    + rewrite <-list_fmap_compose, nome_acumulado, list_fmap_id.
      by rewrite elem_of_distintos.
Qed.

(** The closed form of [quadro]: the reference accumulator of every country,
    in the order of first appearance. *)
Lemma quadro_acumulado tabela :
  quadro tabela = acumulado tabela <$> distintos (nome_pais <$> tabela).
Proof.
  induction tabela as [|linha tabela IH] using rev_ind; [done|].
  unfold quadro in *. rewrite fold_left_app. simpl.
  rewrite IH. apply processa_linha_acumulado.
Qed.

Lemma elem_of_quadro tabela p :
  p ∈ quadro tabela ↔
  p = acumulado tabela (nome p) ∧ nome p ∈ nome_pais <$> tabela.
Proof.
  rewrite quadro_acumulado, list_elem_of_fmap.
  setoid_rewrite elem_of_distintos. split.
  - by intros (n & -> & Hn).
  - intros [Hp Hn]. by exists (nome p).
Qed.

End referencia.

(** ** Counting by code *)

Section contagem.
Implicit Types (tabela ls : list Linha) (linha : Linha) (n : string).

Lemma premiada_codigo linha : premiada linha ↔ ∃ m, medal_code linha = value m.
Proof. unfold premiada, is_Some. by setoid_rewrite medalha_de_codigo_Some. Qed.

Lemma nao_premiada linha m : ¬ premiada linha → medal_code linha ≠ value m.
Proof. rewrite premiada_codigo. naive_solver. Qed.

(** The rows with a medal code split into the three codes. *)
Lemma length_filter_premiada ls :
  length (filter premiada ls) =
  length (filter (λ linha, medal_code linha = value BRONZE) ls) +
  length (filter (λ linha, medal_code linha = value PRATA) ls) +
  length (filter (λ linha, medal_code linha = value OURO) ls).
Proof.
  induction ls as [|linha ls IH]; [done|].
  rewrite !filter_cons.
  destruct (decide (premiada linha)) as [Hl|Hl].
  - apply premiada_codigo in Hl as [m Hm]. rewrite Hm.
    destruct m; repeat case_decide; simplify_eq/=; lia.
  - by rewrite !decide_False by by apply nao_premiada.
Qed.

Lemma conta_soma tabela n :
  (conta tabela n BRONZE + conta tabela n PRATA + conta tabela n OURO)%Z =
  Z.of_nat (length (filter premiada (linhas_de tabela n))).
Proof. unfold conta. rewrite length_filter_premiada. lia. Qed.

(** On a row without a medal code the update changes no count. *)
Lemma atualiza_item_podio_desconhecido linha item :
  ¬ premiada linha → podio (atualiza_item linha item) = podio item.
Proof.
  intros Hl. unfold podio.
  rewrite atualiza_item_bronze, atualiza_item_prata, atualiza_item_ouro.
  rewrite !decide_False by by apply nao_premiada.
  by rewrite !Z.add_0_r.
Qed.

Lemma novo_pais_podio_desconhecido linha :
  ¬ premiada linha → podio (novo_pais linha) = (0, 0, 0)%Z.
Proof.
  intros Hl. unfold novo_pais.
  by rewrite !decide_False by by apply nao_premiada.
Qed.

(** Whether the search finds the country. *)
Lemma percorre_encontrado linha (ps : list Pais) :
  (percorre linha ps).1 = bool_decide (nome_pais linha ∈ nome <$> ps).
Proof.
  induction ps as [|item ps IH]; [done|]. simpl.
  destruct (decide (nome item = nome_pais linha)) as [Hi|Hi].
  - rewrite bool_decide_eq_true_2; [done|]. rewrite Hi. left.
  - destruct (percorre linha ps) as [enc ps']. simpl in *. rewrite IH.
    apply bool_decide_ext. rewrite elem_of_cons. naive_solver.
Qed.

Lemma percorre_podio_desconhecido linha (ps : list Pais) :
  ¬ premiada linha → podio <$> (percorre linha ps).2 = podio <$> ps.
Proof.
  intros Hl. induction ps as [|item ps IH]; [done|].
  cbn [percorre]. case_decide.
  - cbn [snd]. by rewrite !fmap_cons, atualiza_item_podio_desconhecido.
  - destruct (percorre linha ps) as [enc ps'].
    cbn [snd] in *. by rewrite !fmap_cons, IH.
Qed.

End contagem.

(** ** Properties *)

(** C5: every accumulator [quadro] returns is well formed: its total is the
    sum of its three counts, no count is negative, and its genders are a
    non-empty list without repetition. *)
Theorem quadro_pais_ok (tabela : list Linha) : Forall pais_ok (quadro tabela).
Proof. unfold quadro. apply fold_processa_linha_ok. constructor. Qed.

(** C16: the countries of [quadro] are the distinct country codes of the
    table in the order of their first appearance, each once. *)
Theorem quadro_nomes (tabela : list Linha) :
  nome <$> quadro tabela = distintos (nome_pais <$> tabela) ∧
  NoDup (nome <$> quadro tabela).
Proof.
  rewrite quadro_acumulado, <-list_fmap_compose, nome_acumulado, list_fmap_id.
  split; [done|apply NoDup_distintos].
Qed.

(** C2: each count of a country is the number of its rows with that medal
    code, and its total the number of its rows with any of the three codes:
    a row with another code adds to no count. *)
Theorem quadro_contagens (tabela : list Linha) (p : Pais) :
  p ∈ quadro tabela →
  quant_bronze p = conta tabela (nome p) BRONZE ∧
  quant_prata p = conta tabela (nome p) PRATA ∧
  quant_ouro p = conta tabela (nome p) OURO ∧
  quant_total p =
    Z.of_nat (length (filter premiada (linhas_de tabela (nome p)))).
Proof.
  intros [-> _]%elem_of_quadro. simpl. by rewrite <-conta_soma.
Qed.

Lemma quadro_contagens_witness :
  mkPais "BRA" 1 0 1 2 (Some ["M"]) ∈ quadro tabela_exemplo ∧
  1%Z = conta tabela_exemplo "BRA" BRONZE ∧
  0%Z = conta tabela_exemplo "BRA" PRATA ∧
  1%Z = conta tabela_exemplo "BRA" OURO ∧
  2%Z = Z.of_nat (length (filter premiada (linhas_de tabela_exemplo "BRA"))).
Proof.
  assert (mkPais "BRA" 1 0 1 2 (Some ["M"]) ∈ quadro tabela_exemplo) as H
    by (vm_compute; left).
  split; [exact H|].
  exact (quadro_contagens tabela_exemplo _ H).
Defined.

(** C17: the genders of a country are the distinct genders of its rows, in
    the order of their first appearance: a gender is listed exactly when a
    row of the country has it, and none is listed twice. *)
Theorem quadro_generos (tabela : list Linha) (p : Pais) :
  p ∈ quadro tabela →
  ∃ gs, generos p = Some gs ∧
    gs = distintos (genero_atleta <$> linhas_de tabela (nome p)) ∧
    NoDup gs ∧
    ∀ g, g ∈ gs ↔
      ∃ linha, linha ∈ tabela ∧ nome_pais linha = nome p ∧
               genero_atleta linha = g.
Proof.
  intros [-> _]%elem_of_quadro. eexists. split_and!; [done..| |].
  - apply NoDup_distintos.
  - intros g. rewrite elem_of_distintos, list_elem_of_fmap. simpl.
    unfold linhas_de. setoid_rewrite list_elem_of_filter. naive_solver.
Qed.

Lemma quadro_generos_witness :
  mkPais "BRA" 1 0 1 2 (Some ["M"]) ∈ quadro tabela_exemplo ∧
  ∃ gs, Some ["M"] = Some gs ∧
    gs = distintos (genero_atleta <$> linhas_de tabela_exemplo "BRA") ∧
    NoDup gs ∧
    ∀ g, g ∈ gs ↔
      ∃ linha, linha ∈ tabela_exemplo ∧ nome_pais linha = "BRA" ∧
               genero_atleta linha = g.
Proof.
  assert (mkPais "BRA" 1 0 1 2 (Some ["M"]) ∈ quadro tabela_exemplo) as H
    by (vm_compute; left).
  split; [exact H|].
  exact (quadro_generos tabela_exemplo _ H).
Defined.

(** C38: a row whose medal code is none of the three changes no count of any
    country; it still registers the country, with no medal, when the
    country is new. *)
Theorem processa_linha_codigo_desconhecido (ps : list Pais) (linha : Linha) :
  ¬ premiada linha →
  podio <$> processa_linha ps linha =
  (podio <$> ps) ++
  (if decide (nome_pais linha ∈ nome <$> ps) then [] else [(0, 0, 0)%Z]).
Proof.
  intros Hl. unfold processa_linha.
  pose proof (percorre_encontrado linha ps) as Henc.
  pose proof (percorre_podio_desconhecido linha ps Hl) as Hch.
  destruct (percorre linha ps) as [enc ps']. simpl in *. subst enc.
  case_bool_decide; case_decide; try done.
  - by rewrite app_nil_r.
  - by rewrite fmap_app, Hch; simpl; rewrite novo_pais_podio_desconhecido.
Qed.

Lemma processa_linha_codigo_desconhecido_witness :
  ¬ premiada ("9", "ARG", "W") ∧
  podio <$> processa_linha quadro_exemplo ("9", "ARG", "W") =
  (podio <$> quadro_exemplo) ++
  (if decide ("ARG" ∈ nome <$> quadro_exemplo) then [] else [(0, 0, 0)%Z]).
Proof.
  assert (¬ premiada ("9", "ARG", "W")) as H by (by intros [? [=]]).
  split; [exact H|].
  exact (processa_linha_codigo_desconhecido quadro_exemplo _ H).
Defined.
