(* ===== verification/Insercao.v ===== *)
(** * Insercao: stable insertion sorts over a ranking criterion

    The theory the ranking rests on, generic in the element type.  A
    criterion compares elements through a key: [menor x y] tells that [x]
    ranks strictly below [y], which is a strict total order [lt] on the
    keys.  Elements of equal key are tied.

    Two insertion sorts are defined.  [ordena_por] inserts the elements one
    by one, from the first to the last, each from the right end of the
    sorted prefix: it is the shape of the loops of [ordena] in
    [medalhas.py].  [isort] is the textbook recursive insertion sort, which
    inserts from the left.  Both return the unique sorted rearrangement that
    keeps tied elements in their original order, hence they agree.

    [Classificador] is the contract of a ranking routine.  The section
    [cliente] derives from the contract alone what the callers of a ranker
    use: its result is determined, a permutation, idempotent, and commutes
    with selection. *)

From stdpp Require Import sorting.
From S2P Require Import Prelude.

(** ** Ranking criteria *)

(** [menor] decides the strict order [lt] of the keys. *)
Class Criterio {A K : Type}
    (menor : A → A → bool) (chave : A → K) (lt : relation K) : Prop := {
  criterio_ordem : StrictOrder lt;
  criterio_tricotomia : Trichotomy lt;
  criterio_menor x y : menor x y = true ↔ lt (chave x) (chave y);
}.

(** ** Definitions *)

Section definicoes.
Context {A : Type} (menor : A → A → bool).

(** [x] may stand before [y]: it does not rank below it. *)
Definition antes (x y : A) : Prop := menor x y = false.

#[global] Instance antes_dec : RelDecision antes.
Proof. intros x y. unfold antes. apply _. Defined.

(** A ranked list: every element may stand before all that follow it. *)
Definition classificada (l : list A) : Prop := StronglySorted antes l.

#[global] Instance classificada_dec l : Decision (classificada l).
Proof. unfold classificada. apply _. Defined.

(** Insertion from the right end: [c] goes before the longest suffix of
    elements that rank below it. *)
Fixpoint insere (c : A) (l : list A) : list A :=
  match l with
  | [] => [c]
  | x :: l' =>
      if forallb (λ y, menor y c) (x :: l') then c :: x :: l'
      else x :: insere c l'
  end.

(** The elements inserted from the first to the last. *)
Definition ordena_por (l : list A) : list A :=
  fold_left (λ acc c, insere c acc) l [].

(** Insertion from the left end: [c] passes the elements it ranks below. *)
Fixpoint insere_esq (c : A) (l : list A) : list A :=
  match l with
  | [] => [c]
  | x :: l' => if menor c x then x :: insere_esq c l' else c :: x :: l'
  end.

(** The textbook insertion sort. *)
Fixpoint isort (l : list A) : list A :=
  match l with
  | [] => []
  | x :: l' => insere_esq x (isort l')
  end.

End definicoes.

(** [l'] holds the elements of [l], those of equal key in the same order. *)
Definition estavel {A K} `{EqDecision K} (chave : A → K) (l l' : list A) : Prop :=
  ∀ k, filter (λ x, chave x = k) l' = filter (λ x, chave x = k) l.

(** ** The contract of a ranker *)

(** What a ranking routine [ordenar] promises to the code that calls it: its
    result is ranked, and it holds the elements of the argument with tied
    elements in their original order. *)
Class Classificador {A K : Type} `{EqDecision K}
    (menor : A → A → bool) (chave : A → K) (ordenar : list A → list A) : Prop := {
  ordenar_classificada l : classificada menor (ordenar l);
  ordenar_estavel l : estavel chave l (ordenar l);
}.

(** ** Insertion without an order *)

Section sem_ordem.
Context {A : Type} (menor : A → A → bool).
Implicit Types (c x y : A) (l k : list A).

(** In a ranked list an element may stand before all at later positions. *)
Lemma classificada_lookup l i j x y :
  classificada menor l → i < j → l !! i = Some x → l !! j = Some y →
  antes menor x y.
Proof.
  intros Hl. revert i j.
  induction Hl as [|z l Hl IH Hz]; intros i j Hij Hi Hj; [done|].
  destruct i as [|i], j as [|j]; try lia; simplify_eq/=.
  - apply (proj1 (Forall_forall _ _) Hz). by eapply list_elem_of_lookup_2.
  - apply (IH i j); [lia|done..].
Qed.

Lemma forallb_menor c l :
  forallb (λ y, menor y c) l = true ↔ ∀ y, y ∈ l → menor y c = true.
Proof.
  induction l as [|x l IH]; simpl.
  - split; [by intros _ y ?%elem_of_nil|done].
  - rewrite andb_true_iff, IH. setoid_rewrite elem_of_cons. naive_solver.
Qed.

Lemma insere_snoc c l x :
  insere menor c (l ++ [x]) =
  if menor x c then insere menor c l ++ [x] else l ++ [x; c].
Proof.
  induction l as [|y l IH].
  - simpl. by destruct (menor x c).
  - cbn [app insere]. rewrite IH.
    change (forallb _ (y :: ?k)) with (menor y c && forallb (λ y, menor y c) k).
    rewrite forallb_app. simpl.
    destruct (menor x c), (menor y c), (forallb _ l); try done.
Qed.

Lemma insere_perm c l : insere menor c l ≡ₚ c :: l.
Proof.
  induction l as [|x l IH]; [done|]. cbn [insere].
  case_match; [done|]. rewrite IH. apply perm_swap.
Qed.

Lemma insere_length c l : length (insere menor c l) = S (length l).
Proof. by rewrite insere_perm. Qed.

(** [c] goes to the end when the last element does not rank below it. *)
Lemma insere_fim c l x :
  menor x c = false → insere menor c (l ++ [x]) = l ++ [x; c].
Proof. intros Hx. by rewrite insere_snoc, Hx. Qed.

Lemma ordena_por_snoc l c :
  ordena_por menor (l ++ [c]) = insere menor c (ordena_por menor l).
Proof. unfold ordena_por. by rewrite fold_left_app. Qed.

Lemma ordena_por_perm l : ordena_por menor l ≡ₚ l.
Proof.
  induction l as [|c l IH] using rev_ind; [done|].
  rewrite ordena_por_snoc, insere_perm, IH.
  by rewrite <-Permutation_cons_append.
Qed.

Lemma insere_esq_perm c l : insere_esq menor c l ≡ₚ c :: l.
Proof.
  induction l as [|x l IH]; [done|]. cbn [insere_esq].
  case_match; [|done]. rewrite IH. apply perm_swap.
Qed.

Lemma isort_perm l : isort menor l ≡ₚ l.
Proof.
  induction l as [|x l IH]; [done|]. simpl. by rewrite insere_esq_perm, IH.
Qed.

End sem_ordem.

(** ** Insertion under a criterion *)

Section criterio.
Context {A K : Type} `{EqDecision K}.
Context (menor : A → A → bool) (chave : A → K) (lt : relation K).
Context `{!Criterio menor chave lt}.
Implicit Types (c x y : A) (l : list A).

#[local] Existing Instance criterio_ordem.
#[local] Existing Instance criterio_tricotomia.

#[local] Abbreviation antes := (antes menor).
#[local] Abbreviation classificada := (classificada menor).
#[local] Abbreviation insere := (insere menor).
#[local] Abbreviation ordena_por := (ordena_por menor).
#[local] Abbreviation insere_esq := (insere_esq menor).
#[local] Abbreviation isort := (isort menor).
#[local] Abbreviation estavel := (estavel chave).

Lemma antes_lt x y : antes x y ↔ ¬ lt (chave x) (chave y).
Proof.
  unfold Insercao.antes. rewrite <-criterio_menor.
  by destruct (menor x y).
Qed.

Lemma menor_irrefl x : menor x x = false.
Proof. apply antes_lt, irreflexivity, _. Qed.

Lemma menor_assim x y : menor x y = true → menor y x = false.
Proof.
  rewrite criterio_menor. intros Hxy. apply antes_lt. intros Hyx.
  by apply (irreflexivity lt (chave x)); trans (chave y).
Qed.

(** Elements that are tied have the same key. *)
Lemma empate_chave x y :
  menor x y = false → menor y x = false → chave x = chave y.
Proof.
  intros Hxy%antes_lt Hyx%antes_lt.
  by destruct (trichotomy lt (chave x) (chave y)) as [?|[?|?]].
Qed.

Lemma menor_chave x y z : chave x = chave y → menor x z = menor y z.
Proof.
  intros Hk. apply eq_true_iff_eq. by rewrite !criterio_menor, Hk.
Qed.

Lemma menor_chave_r x y z : chave x = chave y → menor z x = menor z y.
Proof.
  intros Hk. apply eq_true_iff_eq. by rewrite !criterio_menor, Hk.
Qed.

#[global] Instance antes_refl : Reflexive antes.
Proof. intros x. apply menor_irrefl. Qed.

#[global] Instance antes_trans : Transitive antes.
Proof.
  intros x y z Hxy%antes_lt Hyz%antes_lt. apply antes_lt. intros Hxz.
  destruct (trichotomy lt (chave x) (chave y)) as [?|[Hk|Hyx]]; [done|..].
  - by rewrite Hk in Hxz.
  - apply Hyz. by trans (chave x).
Qed.

#[global] Instance antes_total : Total antes.
Proof.
  intros x y. destruct (menor x y) eqn:Hxy; [|by left].
  right. by apply menor_assim.
Qed.

(** A tie with the head of a ranked list. *)
Lemma menor_antes x y z : menor x y = true → antes x z → menor z y = true.
Proof.
  rewrite antes_lt, !criterio_menor. intros Hxy Hxz.
  destruct (trichotomy lt (chave x) (chave z)) as [?|[<-|?]]; [done..|].
  by trans (chave x).
Qed.

(** *** Insertion keeps the list ranked *)

Lemma insere_classificada c l :
  classificada l → classificada (insere c l).
Proof.
  induction 1 as [|x l Hl IH Hx]; [by repeat constructor|].
  cbn [Insercao.insere]. destruct (forallb _ (x :: l)) eqn:Hall.
  - constructor; [by constructor|].
    apply Forall_forall. intros y Hy.
    by apply menor_assim, (proj1 (forallb_menor menor c (x :: l))).
  - constructor; [done|]. rewrite insere_perm. constructor; [|done].
    destruct (menor x c) eqn:Hxc; [|done]. exfalso.
    assert (forallb (λ y, menor y c) (x :: l) = true); [|congruence].
    apply forallb_menor. intros y [->|Hy]%elem_of_cons; [done|].
    apply menor_antes with x; [done|].
    by apply (proj1 (Forall_forall _ _) Hx).
Qed.

Lemma ordena_por_classificada l : classificada (ordena_por l).
Proof.
  induction l as [|c l IH] using rev_ind; [constructor|].
  rewrite ordena_por_snoc. by apply insere_classificada.
Qed.

Lemma insere_esq_classificada c l :
  classificada l → classificada (insere_esq c l).
Proof.
  induction 1 as [|x l Hl IH Hx]; [by repeat constructor|].
  cbn [Insercao.insere_esq]. destruct (menor c x) eqn:Hcx.
  - constructor; [done|]. rewrite insere_esq_perm.
    constructor; [by apply menor_assim|done].
  - constructor; [by constructor|]. constructor; [done|].
    eapply Forall_impl; [done|]. intros y Hxy. by trans x.
Qed.

Lemma isort_classificada l : classificada (isort l).
Proof.
  induction l as [|x l IH]; [constructor|].
  by apply insere_esq_classificada.
Qed.

(** *** Insertion keeps tied elements in order *)

(** Insertion from the right puts [c] after the elements tied with it. *)
Lemma insere_filter c l k :
  filter (λ x, chave x = k) (insere c l) =
  filter (λ x, chave x = k) l ++ (if decide (chave c = k) then [c] else []).
Proof.
  induction l as [|x l IH]; [done|].
  cbn [Insercao.insere]. destruct (forallb _ (x :: l)) eqn:Hall.
  - rewrite (filter_cons _ c). case_decide as Hc; [|by rewrite app_nil_r].
    rewrite (filter_nil_not_elem_of _ (x :: l)); [done|].
    intros y Hy Hk. apply (proj1 (forallb_menor menor c (x :: l)) Hall) in Hy.
    rewrite (menor_chave y c), menor_irrefl in Hy; congruence.
  - rewrite !filter_cons, IH. by destruct (decide (chave x = k)).
Qed.

(** Insertion from the left puts [c] before the elements tied with it. *)
Lemma insere_esq_filter c l k :
  filter (λ x, chave x = k) (insere_esq c l) =
  (if decide (chave c = k) then [c] else []) ++ filter (λ x, chave x = k) l.
Proof.
  induction l as [|x l IH]; [by rewrite app_nil_r|].
  cbn [Insercao.insere_esq]. destruct (menor c x) eqn:Hcx.
  - rewrite !filter_cons, IH.
    destruct (decide (chave x = k)) as [Hx|Hx]; [|done].
    rewrite decide_False; [done|]. intros Hc.
    rewrite (menor_chave c x), menor_irrefl in Hcx; congruence.
  - rewrite (filter_cons _ c). by case_decide.
Qed.

Lemma ordena_por_estavel l : estavel l (ordena_por l).
Proof.
  intros k. induction l as [|c l IH] using rev_ind; [done|].
  by rewrite ordena_por_snoc, insere_filter, IH, filter_app.
Qed.

Lemma isort_estavel l : estavel l (isort l).
Proof.
  intros k. induction l as [|x l IH]; [done|].
  cbn [Insercao.isort]. rewrite insere_esq_filter, IH, filter_cons.
  by case_decide.
Qed.

(** *** The stable ranked rearrangement is unique *)

Lemma estavel_nil l : estavel [] l → l = [].
Proof.
  intros Hl. destruct l as [|y l]; [done|].
  specialize (Hl (chave y)). by rewrite filter_cons, decide_True in Hl.
Qed.

Lemma estavel_elem_of l l' x : estavel l l' → x ∈ l' ↔ x ∈ l.
Proof.
  intros Hl.
  trans (x ∈ filter (λ y, chave y = chave x) l');
    [rewrite list_elem_of_filter; naive_solver|].
  rewrite Hl, list_elem_of_filter. naive_solver.
Qed.

(** Two ranked lists that start with elements of different keys are not
    stable rearrangements of one another. *)
Lemma estavel_cabeca x y l l' :
  classificada (x :: l) → classificada (y :: l') →
  estavel (x :: l) (y :: l') → chave y = chave x.
Proof.
  intros [Hx _]%StronglySorted_cons [Hy _]%StronglySorted_cons Hl.
  destruct (decide (chave y = chave x)) as [|Hk]; [done|].
  assert (x ∈ l') as Hxl.
  { assert (x ∈ y :: l') as [->|?]%elem_of_cons; [|done..].
    apply (estavel_elem_of _ _ x Hl). by left. }
  assert (y ∈ l) as Hyl.
  { assert (y ∈ x :: l) as [->|?]%elem_of_cons; [|done..].
    apply (estavel_elem_of _ _ y Hl). by left. }
  symmetry. apply empate_chave.
  - by apply (proj1 (Forall_forall _ _) Hx).
  - by apply (proj1 (Forall_forall _ _) Hy).
Qed.

Lemma estavel_cons_inv x l l' : estavel (x :: l) (x :: l') → estavel l l'.
Proof.
  intros Hl k. specialize (Hl k). rewrite !filter_cons in Hl.
  by case_decide; simplify_eq.
Qed.

Lemma classificada_estavel_eq l l' :
  classificada l → classificada l' → estavel l l' → l' = l.
Proof.
  revert l'. induction l as [|x l IH]; intros l' Hl Hl' Hst.
  - by apply estavel_nil.
  - destruct l' as [|y l'].
    { specialize (Hst (chave x)). by rewrite filter_cons, decide_True in Hst. }
    assert (y = x) as ->.
    { pose proof (estavel_cabeca _ _ _ _ Hl Hl' Hst) as Hk.
      specialize (Hst (chave x)).
      rewrite !filter_cons, !decide_True in Hst by done. congruence. }
    f_equal. apply IH; [by eapply StronglySorted_cons..|].
    by eapply estavel_cons_inv.
Qed.

(** The two insertion sorts agree. *)
Lemma ordena_por_isort l : ordena_por l = isort l.
Proof.
  apply classificada_estavel_eq.
  - apply isort_classificada.
  - apply ordena_por_classificada.
  - intros k. by rewrite ordena_por_estavel, isort_estavel.
Qed.

(** A ranked list is left as it is. *)
Lemma ordena_por_classificada_id l : classificada l → ordena_por l = l.
Proof.
  intros Hl. apply classificada_estavel_eq; [done|..].
  - apply ordena_por_classificada.
  - apply ordena_por_estavel.
Qed.

Lemma ordena_por_idemp l : ordena_por (ordena_por l) = ordena_por l.
Proof. apply ordena_por_classificada_id, ordena_por_classificada. Qed.

(** *** Ranking and selection commute *)

Lemma classificada_filter (P : A → Prop) `{!∀ x, Decision (P x)} l :
  classificada l → classificada (filter P l).
Proof.
  induction 1 as [|x l Hl IH Hx]; [constructor|].
  rewrite filter_cons. case_decide; [|done].
  constructor; [done|]. apply Forall_forall. intros y [_ Hy]%list_elem_of_filter.
  by apply (proj1 (Forall_forall _ _) Hx).
Qed.

Lemma ordena_por_filter (P : A → Prop) `{!∀ x, Decision (P x)} l :
  ordena_por (filter P l) = filter P (ordena_por l).
Proof.
  apply classificada_estavel_eq.
  - apply classificada_filter, ordena_por_classificada.
  - apply ordena_por_classificada.
  - intros k. rewrite ordena_por_estavel.
    rewrite (filter_troca _ P (ordena_por l)), (ordena_por_estavel l k).
    apply filter_troca.
Qed.

(** *** The insertion sorts fulfil the contract *)

#[global] Instance ordena_por_classificador :
  Classificador menor chave ordena_por.
Proof. split; [apply ordena_por_classificada|apply ordena_por_estavel]. Qed.

#[global] Instance isort_classificador : Classificador menor chave isort.
Proof. split; [apply isort_classificada|apply isort_estavel]. Qed.

End criterio.

(** ** What a client of a ranker may rely on *)

Section cliente.
Context {A K : Type} `{EqDecision K}.
Context (menor : A → A → bool) (chave : A → K) (lt : relation K).
Context `{!Criterio menor chave lt}.
Context (ordenar : list A → list A) `{!Classificador menor chave ordenar}.
Implicit Types (x y : A) (l : list A).

(** The contract determines the result. *)
Lemma ordenar_unico l : ordenar l = ordena_por menor l.
Proof.
  apply (classificada_estavel_eq menor chave lt).
  - apply (ordena_por_classificada menor chave lt).
  - apply ordenar_classificada.
  - intros k. by rewrite ordenar_estavel, (ordena_por_estavel menor chave lt).
Qed.

Lemma ordenar_perm l : ordenar l ≡ₚ l.
Proof. rewrite ordenar_unico. apply ordena_por_perm. Qed.

Lemma ordenar_length l : length (ordenar l) = length l.
Proof. by rewrite ordenar_perm. Qed.

Lemma ordenar_elem_of l x : x ∈ ordenar l ↔ x ∈ l.
Proof. by rewrite ordenar_perm. Qed.

Lemma ordenar_idemp l : ordenar (ordenar l) = ordenar l.
Proof. rewrite !ordenar_unico. apply (ordena_por_idemp menor chave lt). Qed.

Lemma ordenar_classificada_id l : classificada menor l → ordenar l = l.
Proof. rewrite ordenar_unico. apply (ordena_por_classificada_id menor chave lt). Qed.

Lemma ordenar_filter (P : A → Prop) `{!∀ x, Decision (P x)} l :
  ordenar (filter P l) = filter P (ordenar l).
Proof. rewrite !ordenar_unico. apply (ordena_por_filter menor chave lt P). Qed.

(** No element of the list ranks above the first of the result. *)
Lemma ordenar_primeiro l x y :
  head (ordenar l) = Some x → y ∈ l → ¬ lt (chave x) (chave y).
Proof.
  intros Hx Hy%ordenar_elem_of. pose proof (ordenar_classificada l) as Hl.
  destruct (ordenar l) as [|z l']; simplify_eq/=.
  apply (antes_lt menor chave lt).
  apply elem_of_cons in Hy as [->|Hy]; [by apply (antes_refl menor chave lt)|].
  apply StronglySorted_cons in Hl as [Hl _].
  by apply (proj1 (Forall_forall _ _) Hl).
Qed.

End cliente.
