(* ===== verification/Ordenador.v ===== *)
(** * Ordenador: [ordena]

    The in-place insertion sort of the medal table (lines 126-155).  The
    list is explicit state: every subscript read and write of the source is
    a [getitem] or [setitem] that may raise, the [for] loop is [for_range]
    and the [while] loop is [laco_interno], defined by well-founded
    recursion on [j + 1], so that no fuel is needed.

    The loops are related to [Insercao.insere] and [Insercao.ordena_por]:
    one round of the outer loop inserts [paises[i]] into the prefix before
    it, from the right.  From there [ordena] inherits what the generic
    theory proves of a stable insertion sort under the criterion
    [desloca], whose key is [podio] in lexicographic order. *)

From Equations Require Import Equations.
From stdpp Require Import sorting lexico.
From S2P Require Import Prelude Modelo Insercao.

(** ** The model *)

(** The nested comparison of the [while] loop (lines 139-152): [true] where
    the source shifts [paises[j]] to the right, [false] where it breaks.
    The source reads [paises[j]] anew in every comparison; the reads return
    the same element, bound once as [pj]. *)
Definition desloca (pj chave : Pais) : bool :=
  if decide (quant_ouro pj < quant_ouro chave)%Z then true
  else if decide (quant_ouro pj = quant_ouro chave) then
    if decide (quant_prata pj < quant_prata chave)%Z then true
    else if decide (quant_prata pj = quant_prata chave) then
      if decide (quant_bronze pj < quant_bronze chave)%Z then true
      else false
    else false
  else false.

(** The [while j >= 0] loop (lines 138-153): returns the list and the value
    of [j] when the loop ends. *)
Equations? laco_interno (chave : Pais) (paises : list Pais) (j : Z) :
    result (list Pais * Z) by wf (Z.to_nat (j + 1)) lt :=
laco_interno chave paises j :=
  match decide (0 ≤ j)%Z with
  | left _ =>
      pj ← paises.[j];
      if desloca pj chave then
        paises' ← paises.[j + 1 := pj];
        laco_interno chave paises' (j - 1)
      else Ok (paises, j)
  | right _ => Ok (paises, j)
  end.
Proof. lia. Qed.

(** The body of the [for] loop (lines 135-154). *)
Definition passo (paises : list Pais) (i : Z) : result (list Pais) :=
  chave ← paises.[i];
  '(paises, j) ← laco_interno chave paises (i - 1);
  paises.[j + 1 := chave].

(** [ordena(paises)]: the list it returns is the argument, updated. *)
Definition ordena (paises : list Pais) : result (list Pais) :=
  for_range 1 (len paises) passo paises.

(** The list [ordena] leaves, as a total function. *)
Definition ordenada (paises : list Pais) : list Pais :=
  match ordena paises with
  | Ok paises' => paises'
  | Raise _ => paises
  end.

(** ** Reference definitions *)

(** [p] ranks above [q] in the medal table: more gold; or as much gold and
    more silver; or as much gold and silver, and more bronze. *)
Definition acima (p q : Pais) : Prop :=
  (quant_ouro q < quant_ouro p ∨
   quant_ouro q = quant_ouro p ∧
     (quant_prata q < quant_prata p ∨
      quant_prata q = quant_prata p ∧ quant_bronze q < quant_bronze p))%Z.

#[export] Instance acima_dec : RelDecision acima.
Proof. intros p q. unfold acima. apply _. Defined.

(** A ranked table: no country ranks above one that precedes it. *)
Definition ranqueada (paises : list Pais) : Prop :=
  StronglySorted (λ p q, ¬ acima q p) paises.

#[export] Instance ranqueada_dec paises : Decision (ranqueada paises).
Proof. unfold ranqueada. apply _. Defined.

(** The countries of [paises] that have the medals [k], in order. *)
Definition empatados (k : Z * Z * Z) (paises : list Pais) : list Pais :=
  filter (λ p, podio p = k) paises.

(** The table of the docstring of [ordena]. *)
Definition paises_exemplo : list Pais :=
  [mkPais "BRA" 0 0 1 1 None; mkPais "USA" 0 1 0 1 None;
   mkPais "FRA" 0 0 1 1 None].

Definition ordenados_exemplo : list Pais :=
  [mkPais "BRA" 0 0 1 1 None; mkPais "FRA" 0 0 1 1 None;
   mkPais "USA" 0 1 0 1 None].

(** ** The criterion *)

Section criterio.
Implicit Types (p q c : Pais) (l : list Pais).

Lemma desloca_acima p c : desloca p c = true ↔ acima c p.
Proof. unfold desloca, acima. repeat case_decide; naive_solver lia. Qed.

Lemma acima_lexico p q : acima p q ↔ lexico (podio q) (podio p).
Proof.
  unfold acima, podio, lexico, prod_lexico, lexico, Z_lexico; simpl.
  split; [naive_solver congruence|].
  intros [[?|[??]]|[[= ??] ?]]; auto.
Qed.

#[export] Instance podio_criterio : Criterio desloca podio lexico.
Proof.
  split; [apply _..|]. intros p c. by rewrite desloca_acima, acima_lexico.
Qed.

Lemma antes_acima p q : antes desloca p q ↔ ¬ acima q p.
Proof.
  unfold antes. rewrite <-desloca_acima. by destruct (desloca p q).
Qed.

Lemma classificada_ranqueada l : classificada desloca l ↔ ranqueada l.
Proof.
  unfold classificada, ranqueada.
  split; induction 1 as [|p l Hl IH Hp]; constructor; try done;
    (eapply Forall_impl; [done|]); intros q; by apply antes_acima.
Qed.

(** Countries are tied exactly when they have the same medals. *)
Lemma empate_podio p q : ¬ acima p q → ¬ acima q p → podio p = podio q.
Proof.
  rewrite <-!antes_acima. intros Hqp Hpq.
  by apply (empate_chave desloca podio lexico).
Qed.

End criterio.

(** ** The loops *)

Section lacos.
Implicit Types (c x y : Pais) (l : list Pais) (j : Z).

Lemma laco_interno_fim c l j : (j < 0)%Z → laco_interno c l j = Ok (l, j).
Proof. intros. rewrite laco_interno_equation_1. by rewrite decide_False by lia. Qed.

Lemma laco_interno_passo c l j :
  (0 ≤ j)%Z →
  laco_interno c l j =
  pj ← l.[j];
  if desloca pj c then l' ← l.[j + 1 := pj]; laco_interno c l' (j - 1)
  else Ok (l, j).
Proof. intros. rewrite laco_interno_equation_1. by rewrite decide_True by lia. Qed.

(** One round of the [while] loop at the last element [y] of a prefix
    that is followed by a free position. *)
Lemma laco_interno_snoc c l1 y x l2 :
  laco_interno c ((l1 ++ [y]) ++ x :: l2) (len l1) =
  if desloca y c then laco_interno c (l1 ++ y :: y :: l2) (len l1 - 1)
  else Ok ((l1 ++ [y]) ++ x :: l2, len l1).
Proof.
  set (l := (l1 ++ [y]) ++ x :: l2).
  assert (l.[len l1] = Ok y) as Hget
    by (unfold l; rewrite <-app_assoc; apply getitem_meio).
  assert (l.[len l1 + 1 := y] = Ok (l1 ++ y :: y :: l2)) as Hset.
  { unfold l. replace (len l1 + 1)%Z with (len (l1 ++ [y]))
      by (rewrite length_app; simpl; lia).
    by rewrite setitem_meio, <-app_assoc. }
  rewrite laco_interno_passo, Hget by lia. cbn.
  destruct (desloca y c); [|done]. by rewrite Hset.
Qed.

(** The [while] loop and the assignment that follows it, started at the
    end of a prefix [l1] whose next position is free: [chave] is inserted
    into [l1] from the right. *)
Lemma laco_interno_insere c l1 x l2 :
  ('(l, j) ← laco_interno c (l1 ++ x :: l2) (len l1 - 1); l.[j + 1 := c])
  = Ok (insere desloca c l1 ++ l2).
Proof.
  revert x l2. induction l1 as [|y l1 IH] using rev_ind; intros x l2.
  - rewrite laco_interno_fim by (simpl; lia). apply (setitem_meio [] x l2 c).
  - replace (len (l1 ++ [y]) - 1)%Z with (len l1)
      by (rewrite length_app; simpl; lia).
    rewrite laco_interno_snoc, insere_snoc. destruct (desloca y c).
    + by rewrite IH, <-app_assoc.
    + cbn. replace (len l1 + 1)%Z with (len (l1 ++ [y]))
        by (rewrite length_app; simpl; lia).
      by rewrite setitem_meio, <-!app_assoc.
Qed.

(** One round of the [for] loop inserts [paises[i]] into the prefix before
    it. *)
Lemma passo_insere l1 c l2 :
  passo (l1 ++ c :: l2) (len l1) = Ok (insere desloca c l1 ++ l2).
Proof. unfold passo. rewrite getitem_meio. apply laco_interno_insere. Qed.

(** The rounds of the [for] loop from [i = len l1] on. *)
Lemma ordena_laco l1 l2 :
  for_range (len l1) (len (l1 ++ l2)) passo (l1 ++ l2)
  = Ok (fold_left (λ acc c, insere desloca c acc) l2 l1).
Proof.
  revert l1. induction l2 as [|c l2 IH]; intros l1.
  - rewrite app_nil_r. by apply for_range_empty.
  - rewrite for_range_first by (rewrite length_app; simpl; lia).
    rewrite passo_insere. cbn [fold_left].
    specialize (IH (insere desloca c l1)).
    rewrite !length_app, insere_length in IH. rewrite length_app. cbn.
    rewrite <-IH. f_equal; lia.
Qed.

(** [ordena] never raises: it returns the list the reference sort
    computes. *)
Lemma ordena_ordena_por l : ordena l = Ok (ordena_por desloca l).
Proof.
  destruct l as [|x l]; [done|]. apply (ordena_laco [x] l).
Qed.

End lacos.

(** ** Ranked tables *)

Lemma ranqueada_lookup l i j p q :
  ranqueada l → i < j → l !! i = Some p → l !! j = Some q → ¬ acima q p.
Proof.
  intros Hl%classificada_ranqueada Hij Hp Hq. apply antes_acima.
  by apply (classificada_lookup desloca l i j).
Qed.

Lemma ordena_por_ranqueada l : ranqueada (ordena_por desloca l).
Proof.
  apply classificada_ranqueada, (ordena_por_classificada desloca podio lexico).
Qed.

(** ** Properties *)

(** C1: [ordena] never raises, and the list it returns is the one the
    textbook insertion sort [isort] computes under the criterion
    [desloca]. *)
Theorem ordena_isort (paises : list Pais) :
  ordena paises = Ok (isort desloca paises).
Proof.
  rewrite ordena_ordena_por. f_equal.
  apply (ordena_por_isort desloca podio lexico).
Qed.

(** C3: [ordena] returns a list that is ranked: no country ranks above one
    that stands before it, by gold, then silver, then bronze. *)
Theorem ordena_ranqueada (paises : list Pais) :
  ∃ paises', ordena paises = Ok paises' ∧ ranqueada paises'.
Proof.
  exists (ordena_por desloca paises). split; [apply ordena_ordena_por|].
  apply ordena_por_ranqueada.
Qed.

(** C7: [ordena] returns a rearrangement of its argument: no country is
    lost, added or changed. *)
Theorem ordena_permutacao (paises : list Pais) :
  ∃ paises', ordena paises = Ok paises' ∧ paises' ≡ₚ paises.
Proof.
  exists (ordena_por desloca paises). split; [apply ordena_ordena_por|].
  apply ordena_por_perm.
Qed.

(** C4: [ordena] is stable: the countries that have the same medals come
    out in the order they had in the argument. *)
Theorem ordena_estavel (paises : list Pais) :
  ∃ paises', ordena paises = Ok paises' ∧
             ∀ k, empatados k paises' = empatados k paises.
Proof.
  exists (ordena_por desloca paises). split; [apply ordena_ordena_por|].
  apply (ordena_por_estavel desloca podio lexico).
Qed.

(** C18: the result of [ordena] is determined by its contract: a ranked
    list that holds the countries of the argument, tied ones in their
    order, is the list [ordena] returns. *)
Theorem ordena_unico (paises paises' : list Pais) :
  ranqueada paises' →
  (∀ k, empatados k paises' = empatados k paises) →
  ordena paises = Ok paises'.
Proof.
  intros Hr%classificada_ranqueada Hst. rewrite ordena_ordena_por. f_equal.
  symmetry. apply (classificada_estavel_eq desloca podio lexico); [|done|].
  - apply (ordena_por_classificada desloca podio lexico).
  - intros k. rewrite (ordena_por_estavel desloca podio lexico). apply Hst.
Qed.

Lemma ordena_unico_witness :
  ranqueada ordenados_exemplo ∧
  (∀ k, empatados k ordenados_exemplo = empatados k paises_exemplo) ∧
  ordena paises_exemplo = Ok ordenados_exemplo.
Proof.
  assert (ranqueada ordenados_exemplo) as Hr
    by (repeat constructor; unfold acima; simpl; lia).
  assert (∀ k, empatados k ordenados_exemplo = empatados k paises_exemplo)
    as Hst.
  { intros k. unfold empatados, ordenados_exemplo, paises_exemplo.
    rewrite !filter_cons, !filter_nil.
    repeat case_decide; unfold podio in *; simpl in *; congruence. }
  split_and!; [done..|]. by apply (ordena_unico paises_exemplo).
Defined.

(** C36: ranking a table that is ranked already leaves it as it is. *)
Theorem ordena_ranqueada_id (paises : list Pais) :
  ranqueada paises → ordena paises = Ok paises.
Proof.
  intros Hr%classificada_ranqueada. rewrite ordena_ordena_por. f_equal.
  by apply (ordena_por_classificada_id desloca podio lexico).
Qed.

Lemma ordena_ranqueada_id_witness :
  ranqueada ordenados_exemplo ∧ ordena ordenados_exemplo = Ok ordenados_exemplo.
Proof.
  assert (ranqueada ordenados_exemplo) as Hr
    by (repeat constructor; unfold acima; simpl; lia).
  split; [done|]. by apply (ordena_ranqueada_id ordenados_exemplo).
Defined.

(** [ordena] is idempotent: ranking its result again returns the same
    list. *)
Lemma ordena_idempotente (paises paises' : list Pais) :
  ordena paises = Ok paises' → ordena paises' = Ok paises'.
Proof.
  rewrite !ordena_ordena_por. intros [= <-]. f_equal.
  apply (ordena_por_idemp desloca podio lexico).
Qed.

(** In the list [ordena] returns, the country at a position does not
    rank below a country at a later position. *)
Lemma ordena_pares (paises paises' : list Pais) (i j : nat) (p q : Pais) :
  ordena paises = Ok paises' → i < j →
  paises' !! i = Some p → paises' !! j = Some q →
  ¬ acima q p.
Proof.
  rewrite ordena_ordena_por. intros [= <-].
  apply ranqueada_lookup, ordena_por_ranqueada.
Qed.

(** The first country of the list [ordena] returns is one that no
    country of the table ranks above. *)
Lemma ordena_primeiro (paises paises' : list Pais) (p q : Pais) :
  ordena paises = Ok paises' → head paises' = Some p → q ∈ paises →
  ¬ acima q p.
Proof.
  rewrite ordena_ordena_por. intros [= <-] Hp Hq. rewrite acima_lexico.
  by apply (ordenar_primeiro desloca podio lexico (ordena_por desloca) paises).
Qed.

(** C35: ranking commutes with selection: the ranking of the countries that
    satisfy a predicate is the selection from the ranking of all. *)
Theorem ordena_filter (P : Pais → Prop) `{!∀ p, Decision (P p)}
    (paises : list Pais) :
  ordena (filter P paises) = filter P <$> ordena paises.
Proof.
  rewrite !ordena_ordena_por. cbn. f_equal.
  apply (ordena_por_filter desloca podio lexico P).
Qed.

(** C34: the [while] loop terminates within its bounds: started at a
    position [j] that has a successor in the list, it returns a list of
    the same length and a final [j] between [-1] and the initial one. *)
Theorem laco_interno_Ok (c : Pais) (l : list Pais) (j : Z) :
  (-1 ≤ j < len l - 1)%Z →
  ∃ l' j', laco_interno c l j = Ok (l', j') ∧
           (-1 ≤ j' ≤ j)%Z ∧ length l' = length l.
Proof.
  intros Hj. remember (Z.to_nat (j + 1)) as n eqn:Hn.
  revert l j Hj Hn. induction n as [|n IH]; intros l j Hj Hn.
  - exists l, j. rewrite laco_interno_fim by lia. split_and!; done || lia.
  - rewrite laco_interno_passo by lia.
    destruct (l.[j]) as [pj|e] eqn:Hpj; [|apply getitem_Raise in Hpj; lia].
    cbn. destruct (desloca pj c); [|exists l, j; split_and!; done || lia].
    destruct (l.[j + 1 := pj]) as [l'|e] eqn:Hl';
      [|apply setitem_Raise in Hl'; lia].
    apply setitem_length in Hl'. cbn.
    destruct (IH l' (j - 1)%Z) as (l'' & j' & -> & ? & ?); [lia..|].
    exists l'', j'. split_and!; done || lia || congruence.
Qed.

Lemma laco_interno_Ok_witness :
  ∃ l' j', laco_interno (mkPais "FRA" 0 0 1 1 None) paises_exemplo 1
           = Ok (l', j') ∧
           (-1 ≤ j' ≤ 1)%Z ∧ length l' = length paises_exemplo.
Proof.
  apply (laco_interno_Ok (mkPais "FRA" 0 0 1 1 None) paises_exemplo 1).
  simpl. lia.
Defined.

(** Outside its bounds the [while] loop raises [IndexError]: at a
    position past the end the read of [paises[j]] fails, and at the last
    position the shift writes past the end. *)
Lemma laco_interno_IndexError (c : Pais) (l : list Pais) (j : Z) :
  (len l ≤ j)%Z ∨
  (j = len l - 1)%Z ∧ (∃ pj, last l = Some pj ∧ desloca pj c = true) →
  laco_interno c l j = Raise IndexError.
Proof.
  intros [Hj|(-> & pj & Hpj & Hd)].
  - rewrite laco_interno_passo by lia.
    by rewrite (proj2 (getitem_Raise l j IndexError)) by (split; [done|lia]).
  - destruct l as [|x l _] using rev_ind; [done|].
    rewrite last_snoc in Hpj. simplify_eq.
    replace (len (l ++ [pj]) - 1)%Z with (len l)
      by (rewrite length_app; simpl; lia).
    rewrite laco_interno_passo, getitem_meio by lia. cbn. rewrite Hd.
    rewrite (proj2 (setitem_Raise (l ++ [pj]) (len l + 1) pj IndexError));
      [done|]. split; [done|]. rewrite length_app. simpl. lia.
Qed.

(** ** [ordena] as a ranker *)

Lemma ordenada_ordena_por l : ordenada l = ordena_por desloca l.
Proof. unfold ordenada. by rewrite ordena_ordena_por. Qed.

Lemma ordena_ordenada l : ordena l = Ok (ordenada l).
Proof. by rewrite ordenada_ordena_por, ordena_ordena_por. Qed.

(** [ordena] fulfils the contract of a ranker for the criterion of the
    medal table. *)
#[export] Instance ordenada_classificador :
  Classificador desloca podio ordenada.
Proof.
  split; intros l; rewrite ordenada_ordena_por.
  - apply (ordena_por_classificada desloca podio lexico).
  - apply (ordena_por_estavel desloca podio lexico).
Qed.
