(* ===== verification/Maquina.v ===== *)
(** * Maquina: the loops of [ordena], step by step

    [ordena] (lines 126-155) as a transition system.  A configuration is
    a control point of the function, the bound of [range(1, len(paises))],
    computed once, and the list.  The control points are the head of the
    [for] loop with the next [i], the head of the [while] loop with [i],
    [chave] and [j], the [return], and an exception that leaves the
    function.  [passo_maquina] has one rule for each way an iteration of
    a loop can go; [avanca] is the same relation as a function.

    The machine is related to the functional model of [Ordenador] by the
    result that remains to be computed from a configuration, [resto],
    which no step changes.  A measure that every step decreases gives
    termination of every run and a bound on its length. *)

From stdpp Require Import relations sorting.
From S2P Require Import Prelude Modelo Insercao Ordenador.

(** ** Configurations *)

(** The control points of [ordena]. *)
Inductive ponto : Type :=
| PFor (i : Z)
| PWhile (i : Z) (chave : Pais) (j : Z)
| PFim
| PErro (e : excecao).

#[export] Instance ponto_eq_dec : EqDecision ponto.
Proof. solve_decision. Defined.

(** A control point, the bound of the range and the list. *)
Record config : Type := Config {
  ponto_de : ponto;
  fim_de : Z;
  lista_de : list Pais;
}.

#[export] Instance config_eq_dec : EqDecision config.
Proof. solve_decision. Defined.

(** The call [ordena(paises)]: the [for] loop starts at [i = 1]. *)
Definition inicial (paises : list Pais) : config :=
  Config (PFor 1) (len paises) paises.

(** A configuration from which nothing more runs. *)
Definition final (c : config) : Prop :=
  match ponto_de c with
  | PFim | PErro _ => True
  | _ => False
  end.

#[export] Instance final_dec c : Decision (final c).
Proof. unfold final. destruct (ponto_de c); apply _. Defined.

(** ** The transitions *)

(** [paises[j + 1] = chave] (line 154) and the next round of the [for]
    loop. *)
Definition grava (i : Z) (chave : Pais) (j n : Z) (l : list Pais) : config :=
  match l.[j + 1 := chave] with
  | Ok l' => Config (PFor (i + 1)) n l'
  | Raise e => Config (PErro e) n l
  end.

(** One transition, as a function. *)
Definition avanca (c : config) : option config :=
  let '(Config p n l) := c in
  match p with
  | PFor i =>
      if decide (i < n)%Z then
        match l.[i] with
        | Ok chave => Some (Config (PWhile i chave (i - 1)) n l)
        | Raise e => Some (Config (PErro e) n l)
        end
      else Some (Config PFim n l)
  | PWhile i chave j =>
      if decide (0 ≤ j)%Z then
        match l.[j] with
        | Ok pj =>
            if desloca pj chave then
              match l.[j + 1 := pj] with
              | Ok l' => Some (Config (PWhile i chave (j - 1)) n l')
              | Raise e => Some (Config (PErro e) n l)
              end
            else Some (grava i chave j n l)
        | Raise e => Some (Config (PErro e) n l)
        end
      else Some (grava i chave j n l)
  | PFim | PErro _ => None
  end.

(** One transition, rule by rule. *)
Inductive passo_maquina : relation config :=
| passo_for_entra i n l chave :
    (i < n)%Z → l.[i] = Ok chave →
    passo_maquina (Config (PFor i) n l) (Config (PWhile i chave (i - 1)) n l)
| passo_for_erro i n l e :
    (i < n)%Z → l.[i] = Raise e →
    passo_maquina (Config (PFor i) n l) (Config (PErro e) n l)
| passo_for_sai i n l :
    (n ≤ i)%Z →
    passo_maquina (Config (PFor i) n l) (Config PFim n l)
| passo_while_desloca i chave j n l pj l' :
    (0 ≤ j)%Z → l.[j] = Ok pj → desloca pj chave = true →
    l.[j + 1 := pj] = Ok l' →
    passo_maquina (Config (PWhile i chave j) n l)
      (Config (PWhile i chave (j - 1)) n l')
| passo_while_desloca_erro i chave j n l pj e :
    (0 ≤ j)%Z → l.[j] = Ok pj → desloca pj chave = true →
    l.[j + 1 := pj] = Raise e →
    passo_maquina (Config (PWhile i chave j) n l) (Config (PErro e) n l)
| passo_while_break i chave j n l pj :
    (0 ≤ j)%Z → l.[j] = Ok pj → desloca pj chave = false →
    passo_maquina (Config (PWhile i chave j) n l) (grava i chave j n l)
| passo_while_erro i chave j n l e :
    (0 ≤ j)%Z → l.[j] = Raise e →
    passo_maquina (Config (PWhile i chave j) n l) (Config (PErro e) n l)
| passo_while_sai i chave j n l :
    (j < 0)%Z →
    passo_maquina (Config (PWhile i chave j) n l) (grava i chave j n l).

(** ** Reference definitions *)

(** What remains to be computed from a configuration, by the functional
    model. *)
Definition resto (c : config) : result (list Pais) :=
  match ponto_de c with
  | PFor i => for_range i (fim_de c) passo (lista_de c)
  | PWhile i chave j =>
      '(l, j') ← laco_interno chave (lista_de c) j;
      l' ← l.[j' + 1 := chave];
      for_range (i + 1) (fim_de c) passo l'
  | PFim => Ok (lista_de c)
  | PErro e => Raise e
  end.

(** The transitions of the rounds of the [for] loop from [i] on, when
    [k] rounds are left: an upper bound. *)
Fixpoint custo_for (k : nat) (i : Z) : nat :=
  match k with
  | 0 => 1
  | S k => 2 + Z.to_nat i + custo_for k (i + 1)
  end.

(** The transitions left from a configuration: an upper bound. *)
Definition medida (c : config) : nat :=
  match ponto_de c with
  | PFor i => custo_for (Z.to_nat (fim_de c - i)) i
  | PWhile i _ j =>
      1 + Z.to_nat (j + 1) + custo_for (Z.to_nat (fim_de c - (i + 1))) (i + 1)
  | PFim | PErro _ => 0
  end.

(** [k] transitions from [c], when the run is that long. *)
Fixpoint executa (k : nat) (c : config) : option config :=
  match k with
  | 0 => Some c
  | S k => c' ← avanca c; executa k c'
  end.

(** The configurations the function can be in: the bound is the length of
    the list, [i] is a position of the range, [j] a position before [i]
    or [-1], and no exception has left the function. *)
Definition bem_formada (c : config) : Prop :=
  fim_de c = len (lista_de c) ∧
  match ponto_de c with
  | PFor i => (1 ≤ i)%Z
  | PWhile i _ j => (1 ≤ i < fim_de c)%Z ∧ (-1 ≤ j < i)%Z
  | PFim => True
  | PErro _ => False
  end.

#[export] Instance bem_formada_dec c : Decision (bem_formada c).
Proof. unfold bem_formada. destruct (ponto_de c); apply _. Defined.

(** A table in the reverse of the order of the ranking. *)
Definition paises_invertidos : list Pais :=
  [mkPais "BRA" 0 0 1 1 None; mkPais "FRA" 0 0 2 2 None;
   mkPais "USA" 0 0 3 3 None].

(** The call on the table of the docstring of [ordena], after four
    transitions: "USA" has been moved up and "FRA" is held in [chave]. *)
Definition config_exemplo : config :=
  Config (PWhile 2 (mkPais "FRA" 0 0 1 1 None) 0) 3
    [mkPais "BRA" 0 0 1 1 None; mkPais "USA" 0 1 0 1 None;
     mkPais "USA" 0 1 0 1 None].

(** ** The function and the relation *)

Section transicoes.
Implicit Types (c : config) (l : list Pais) (i j n : Z).

Lemma avanca_passo c c' : avanca c = Some c' → passo_maquina c c'.
Proof.
  destruct c as [[i|i chave j| |e] n l]; cbn [avanca]; [| |done..].
  - case_decide; [|intros [= <-]; apply passo_for_sai; lia].
    destruct (l.[i]) eqn:?; intros [= <-]; by constructor.
  - case_decide; [|intros [= <-]; apply passo_while_sai; lia].
    destruct (l.[j]) as [pj|] eqn:?;
      [|intros [= <-]; by apply passo_while_erro].
    destruct (desloca pj chave) eqn:?;
      [|intros [= <-]; by apply passo_while_break with pj].
    destruct (l.[j + 1 := pj]) eqn:?; intros [= <-].
    + by apply passo_while_desloca with pj.
    + by apply passo_while_desloca_erro with pj.
Qed.

Lemma passo_avanca c c' : passo_maquina c c' → avanca c = Some c'.
Proof.
  destruct 1; cbn [avanca];
    repeat first
      [ rewrite decide_True by done | rewrite decide_False by lia
      | match goal with H : _ = _ |- _ => rewrite H end ];
    done.
Qed.

Lemma passo_maquina_avanca c c' : passo_maquina c c' ↔ avanca c = Some c'.
Proof. split; [apply passo_avanca|apply avanca_passo]. Qed.

(** Every transition is decided by the configuration it leaves. *)
Lemma passo_maquina_det : deterministic passo_maquina.
Proof. intros c c1 c2 H1%passo_avanca H2%passo_avanca. congruence. Qed.

(** A configuration that is not final has a transition. *)
Lemma avanca_Some c : ¬ final c → is_Some (avanca c).
Proof.
  destruct c as [[i|i chave j| |e] n l]; unfold final; cbn; [| |done..];
    intros _; repeat case_match; by eexists.
Qed.

Lemma final_nf c : final c ↔ nf passo_maquina c.
Proof.
  split.
  - intros Hf [c' Hc]. destruct Hc; by cbn in Hf.
  - intros Hnf. destruct (decide (final c)) as [|Hc]; [done|].
    destruct (avanca_Some c Hc) as [c' Hc']. destruct Hnf.
    exists c'. by apply avanca_passo.
Qed.

End transicoes.

(** ** The machine and the functional model *)

Section simulacao.
Implicit Types (c : config) (l : list Pais) (i j n : Z).

Lemma resto_grava i chave j n l :
  resto (grava i chave j n l)
  = l' ← l.[j + 1 := chave]; for_range (i + 1) n passo l'.
Proof. unfold grava. by destruct (l.[j + 1 := chave]). Qed.

Lemma passo_chave l i chave :
  l.[i] = Ok chave →
  passo l i = '(l', j) ← laco_interno chave l (i - 1); l'.[j + 1 := chave].
Proof. unfold passo. by intros ->. Qed.

(** No transition changes what remains to be computed. *)
Lemma resto_passo c c' : passo_maquina c c' → resto c' = resto c.
Proof.
  destruct 1 as [i n l chave Hi Hc|i n l e Hi Hc|i n l Hi
    |i chave j n l pj l' Hj Hpj Hd Hl'|i chave j n l pj e Hj Hpj Hd Hl'
    |i chave j n l pj Hj Hpj Hd|i chave j n l e Hj Hpj|i chave j n l Hj];
    rewrite ?resto_grava; unfold resto; cbn [ponto_de fim_de lista_de].
  - rewrite (for_range_first i n), (passo_chave l i chave), !bind_assoc by done.
    by destruct (laco_interno chave l (i - 1)) as [[l1 j1]|].
  - rewrite (for_range_first i n) by done.
    replace (passo l i) with (Raise e : result (list Pais)); [done|].
    unfold passo. by rewrite Hc.
  - by rewrite for_range_empty.
  - by rewrite (laco_interno_passo chave l j), Hpj, bind_Ok, Hd, Hl', bind_Ok.
  - by rewrite (laco_interno_passo chave l j), Hpj, bind_Ok, Hd, Hl'.
  - by rewrite (laco_interno_passo chave l j), Hpj, bind_Ok, Hd, bind_Ok.
  - by rewrite (laco_interno_passo chave l j), Hpj.
  - by rewrite laco_interno_fim, bind_Ok.
Qed.

Lemma resto_rtc c c' : rtc passo_maquina c c' → resto c' = resto c.
Proof.
  induction 1 as [|c1 c2 c3 H12 _ IH]; [done|].
  by rewrite IH, (resto_passo c1 c2).
Qed.

Lemma resto_inicial l : resto (inicial l) = Ok (ordena_por desloca l).
Proof. apply ordena_ordena_por. Qed.

(** No transition changes the bound of the range. *)
Lemma fim_de_passo c c' : passo_maquina c c' → fim_de c' = fim_de c.
Proof. destruct 1; unfold grava; by repeat case_match. Qed.

Lemma fim_de_rtc c c' : rtc passo_maquina c c' → fim_de c' = fim_de c.
Proof.
  induction 1 as [|c1 c2 c3 H12 _ IH]; [done|].
  by rewrite IH, (fim_de_passo c1 c2).
Qed.

End simulacao.

(** ** Termination *)

Section terminacao.
Implicit Types (c : config) (l : list Pais) (i j n : Z) (k : nat).

Lemma custo_for_pos k i : 0 < custo_for k i.
Proof. destruct k; simpl; lia. Qed.

Lemma medida_grava i chave j n l :
  medida (grava i chave j n l) ≤ custo_for (Z.to_nat (n - (i + 1))) (i + 1).
Proof.
  unfold grava. destruct (l.[j + 1 := chave]); unfold medida; simpl; lia.
Qed.

(** Every transition decreases the measure. *)
Lemma medida_passo c c' : passo_maquina c c' → medida c' < medida c.
Proof.
  destruct 1 as [i n l chave Hi Hc|i n l e Hi Hc|i n l Hi
    |i chave j n l pj l' Hj Hpj Hd Hl'|i chave j n l pj e Hj Hpj Hd Hl'
    |i chave j n l pj Hj Hpj Hd|i chave j n l e Hj Hpj|i chave j n l Hj];
    try (pose proof (medida_grava i chave j n l));
    unfold medida in *; cbn [ponto_de fim_de lista_de] in *; try lia.
  - replace (Z.to_nat (n - i)) with (S (Z.to_nat (n - (i + 1)))) by lia.
    cbn [custo_for]. lia.
  - pose proof (custo_for_pos (Z.to_nat (n - i)) i). lia.
  - pose proof (custo_for_pos (Z.to_nat (n - i)) i). lia.
Qed.

Lemma medida_nsteps k c c' :
  nsteps passo_maquina k c c' → k + medida c' ≤ medida c.
Proof.
  induction 1 as [|k c1 c2 c3 H12 _ IH]; [done|].
  apply medida_passo in H12. lia.
Qed.

(** All runs from a configuration are finite. *)
Lemma passo_maquina_sn c : sn passo_maquina c.
Proof.
  remember (medida c) as m eqn:Hm. revert c Hm.
  induction (lt_wf m) as [m _ IH]. intros c ->.
  constructor. intros c' Hc. apply (IH (medida c')); [|done].
  by apply medida_passo.
Qed.

(** The bound in closed form. *)
Lemma custo_for_fechado k i :
  (0 ≤ i)%Z → 2 * custo_for k i = 2 + k * (k + 3 + 2 * Z.to_nat i).
Proof.
  revert i. induction k as [|k IH]; intros i Hi; [simpl; lia|].
  cbn [custo_for]. specialize (IH (i + 1)%Z ltac:(lia)).
  replace (Z.to_nat (i + 1)) with (S (Z.to_nat i)) in IH by lia. nia.
Qed.

End terminacao.

(** ** Runs *)

Section execucoes.
Implicit Types (c : config) (l : list Pais) (i j n : Z) (k : nat).

Lemma executa_nsteps k c c' :
  executa k c = Some c' ↔ nsteps passo_maquina k c c'.
Proof.
  revert c. induction k as [|k IH]; intros c; cbn [executa].
  - split; [intros [= ->]; constructor|by inversion 1].
  - split.
    + destruct (avanca c) as [c1|] eqn:Hc; [|done]. simpl. intros Hk.
      apply nsteps_l with c1; [by apply avanca_passo|by apply IH].
    + inversion 1 as [|? ? c1 ? Hc Hk]; subst.
      apply passo_avanca in Hc. rewrite Hc. simpl. by apply IH.
Qed.

Lemma executa_rtc k c c' : executa k c = Some c' → rtc passo_maquina c c'.
Proof. intros Hk%executa_nsteps. by eapply rtc_nsteps_2. Qed.

Lemma red_nao_final c : red passo_maquina c ↔ ¬ final c.
Proof.
  split.
  - intros Hr Hf%final_nf. by apply Hf.
  - intros [c' Hc]%avanca_Some. exists c'. by apply avanca_passo.
Qed.

#[export] Instance red_passo_maquina_dec c : Decision (red passo_maquina c).
Proof. refine (cast_if (decide (¬ final c))); by rewrite red_nao_final. Defined.

(** Every configuration reaches a final one. *)
Lemma passo_maquina_wn c : ∃ c', rtc passo_maquina c c' ∧ final c'.
Proof.
  destruct (sn_wn (R:=passo_maquina) c (passo_maquina_sn c)) as (c' & Hc & Hnf).
  exists c'. by rewrite final_nf.
Qed.

(** The final configuration of the call [ordena(l)]. *)
Lemma final_inicial l c :
  rtc passo_maquina (inicial l) c → final c →
  c = Config PFim (len l) (ordena_por desloca l).
Proof.
  intros Hc Hf. pose proof (resto_rtc _ _ Hc) as Hr.
  pose proof (fim_de_rtc _ _ Hc) as Hn. rewrite resto_inicial in Hr.
  destruct c as [[| | |] n l']; unfold resto in Hr; simplify_eq/=; done.
Qed.

End execucoes.

(** ** Well-formed configurations *)

Section formacao.
Implicit Types (c : config) (l : list Pais) (i j n : Z).

Lemma bem_formada_inicial l : bem_formada (inicial l).
Proof. by split. Qed.

Lemma bem_formada_grava i chave j n l :
  n = len l → (1 ≤ i < n)%Z → (-1 ≤ j < i)%Z →
  bem_formada (grava i chave j n l).
Proof.
  intros Hn Hi Hj. unfold grava.
  destruct (l.[j + 1 := chave]) as [l'|e] eqn:Hl.
  - apply setitem_length in Hl. split; simpl; lia.
  - apply setitem_Raise in Hl. lia.
Qed.

Lemma bem_formada_passo c c' :
  bem_formada c → passo_maquina c c' → bem_formada c'.
Proof.
  intros [Hn Hp] Hc.
  destruct Hc as [i n l chave Hi Hc|i n l e Hi Hc|i n l Hi
    |i chave j n l pj l' Hj Hpj Hd Hl'|i chave j n l pj e Hj Hpj Hd Hl'
    |i chave j n l pj Hj Hpj Hd|i chave j n l e Hj Hpj|i chave j n l Hj];
    cbn [ponto_de fim_de lista_de] in *;
    try (apply bem_formada_grava; lia);
    repeat match goal with
    | H : _.[_] = Raise _ |- _ => apply getitem_Raise in H
    | H : _.[_ := _] = Raise _ |- _ => apply setitem_Raise in H
    | H : _.[_ := _] = Ok _ |- _ => apply setitem_length in H
    end; split; cbn [ponto_de fim_de lista_de]; lia.
Qed.

Lemma bem_formada_rtc c c' :
  bem_formada c → rtc passo_maquina c c' → bem_formada c'.
Proof. induction 2; eauto using bem_formada_passo. Qed.

End formacao.

(** ** Properties *)

(** C11: the machine computes what the functional model of [ordena]
    computes: the call [ordena(l)] reaches the [return] with the list
    [l'] exactly when the model returns [l']. *)
Theorem maquina_ordena (l l' : list Pais) :
  rtc passo_maquina (inicial l) (Config PFim (len l) l') ↔ ordena l = Ok l'.
Proof.
  split; [intros Hc; by apply resto_rtc in Hc|].
  rewrite ordena_ordena_por. intros [= <-].
  destruct (passo_maquina_wn (inicial l)) as (c & Hc & Hf).
  by rewrite (final_inicial l c Hc Hf) in Hc.
Qed.

(** C19: no configuration the call [ordena(l)] reaches is an exception:
    in every one of them the indices are positions of the list, and what
    remains to be computed is the stable ranking of [l]. *)
Theorem maquina_segura (l : list Pais) (c : config) :
  rtc passo_maquina (inicial l) c →
  bem_formada c ∧ resto c = Ok (ordena_por desloca l).
Proof.
  intros Hc. split; [by eapply bem_formada_rtc, Hc; apply bem_formada_inicial|].
  by rewrite (resto_rtc _ _ Hc), resto_inicial.
Qed.

Lemma maquina_segura_witness :
  bem_formada config_exemplo ∧
  resto config_exemplo = Ok (ordena_por desloca paises_exemplo).
Proof.
  apply (maquina_segura paises_exemplo). apply (executa_rtc 4). by vm_compute.
Defined.

(** C21: the well-formed configurations are closed under the transitions
    and none of them is stuck: a well-formed configuration is the
    [return] or has a transition, to a well-formed configuration. *)
Theorem maquina_bem_formada (c : config) :
  bem_formada c →
  ponto_de c = PFim ∨ ∃ c', passo_maquina c c' ∧ bem_formada c'.
Proof.
  intros Hc. destruct (decide (final c)) as [Hf|Hf].
  - left. destruct Hc as [_ Hc]. unfold final in Hf. by destruct (ponto_de c).
  - right. destruct (avanca_Some c Hf) as [c' Hc']. apply avanca_passo in Hc'.
    eauto using bem_formada_passo.
Qed.

Lemma maquina_bem_formada_witness :
  ponto_de config_exemplo = PFim ∨
  ∃ c', passo_maquina config_exemplo c' ∧ bem_formada c'.
Proof. apply maquina_bem_formada. by vm_compute. Defined.

(** C20: [ordena] terminates: from every configuration, reachable or
    not, every sequence of transitions is finite, and a final
    configuration, the [return] or an exception, is reached. *)
Theorem maquina_termina (c : config) :
  sn passo_maquina c ∧ ∃ c', rtc passo_maquina c c' ∧ final c'.
Proof. split; [apply passo_maquina_sn|apply passo_maquina_wn]. Qed.

(** C22: the call [ordena(l)] makes a quadratic number of transitions:
    a run of [k] transitions on a list of [n] elements has
    [2 k <= 2 + (n - 1) (n + 4)]. *)
Theorem maquina_custo (l : list Pais) (k : nat) (c : config) :
  nsteps passo_maquina k (inicial l) c →
  2 * k ≤ 2 + (length l - 1) * (length l + 4).
Proof.
  intros Hk%medida_nsteps. unfold medida in Hk. cbn in Hk.
  pose proof (custo_for_fechado (Z.to_nat (len l - 1)) 1 ltac:(lia)) as Hf.
  replace (Z.to_nat (len l - 1)) with (length l - 1) in * by lia.
  change (Z.to_nat 1) with 1 in Hf. nia.
Qed.

Lemma maquina_custo_witness : 2 * 8 ≤ 2 + (3 - 1) * (3 + 4).
Proof.
  apply (maquina_custo paises_invertidos 8
           (Config PFim 3 (reverse paises_invertidos))).
  apply executa_nsteps. by vm_compute.
Defined.
