(* ===== verification/FiltroGenero.v ===== *)
(** * FiltroGenero: [filtrar_paises_genero_unico]

    The recursive selection of the countries whose medallists are all of
    one gender (lines 165-178).  The recursion is on the index, which
    grows until it reaches the length of the list: the model recurs on
    [limite], the number of frames the interpreter still allows, and
    raises [RecursionError] when they run out, as CPython does.  A country
    whose [generos] is [None] (the default of the dataclass) makes
    [len(...)] raise [TypeError].  [index] is an argument: [main] calls
    the function at [0], and a negative [index] counts from the end of the
    list, as every subscript of Python does. *)

From S2P Require Import Prelude Modelo Agregador.

(** ** The model *)

(** [len(generos)], which raises on [None]. *)
Definition len_generos (g : option (list string)) : result Z :=
  match g with
  | Some gs => Ok (len gs)
  | None => Raise TypeError
  end.

(** [filtrar_paises_genero_unico(paises, index)], with [limite] frames
    left. *)
Fixpoint filtrar_paises_genero_unico
    (limite : nat) (paises : list Pais) (index : Z) : result (list Pais) :=
  match limite with
  | 0 => Raise RecursionError
  | S limite =>
      if decide (len paises ≤ index)%Z then Ok []
      else
        pais ← paises.[index];
        n ← len_generos (generos pais);
        if decide (n = 1%Z) then
          pais ← paises.[index];
          resto ← filtrar_paises_genero_unico limite paises (index + 1);
          Ok ([pais] ++ resto)
        else filtrar_paises_genero_unico limite paises (index + 1)
  end.

(** ** Reference definitions *)

(** A country with medallists of exactly one gender. *)
Definition genero_unico (p : Pais) : Prop :=
  ∃ g, generos p = Some [g].

#[export] Instance genero_unico_dec p : Decision (genero_unico p).
Proof.
  unfold genero_unico. destruct (generos p) as [[|g [|g' gs]]|].
  - right. by intros [? [=]].
  - left. by exists g.
  - right. by intros [? [=]].
  - right. by intros [? [=]].
Defined.

(** A country whose genders are a list. *)
Definition tem_generos (p : Pais) : Prop := generos p ≠ None.

#[export] Instance tem_generos_dec p : Decision (tem_generos p).
Proof. unfold tem_generos. apply _. Defined.

(** The table of the docstring of [filtrar_paises_genero_unico]. *)
Definition paises_generos_exemplo : list Pais :=
  [mkPais "BOT" 0 1 1 2 (Some ["M"]); mkPais "QAT" 1 0 0 1 (Some ["M"]);
   mkPais "BEL" 5 1 2 8 (Some ["M"; "W"])].

(** ** Lemmas *)

Section filtro.
Implicit Types (p : Pais) (paises : list Pais) (limite : nat) (index : Z).

Lemma len_generos_unico p :
  tem_generos p →
  ∃ n, len_generos (generos p) = Ok n ∧ (n = 1%Z ↔ genero_unico p).
Proof.
  unfold tem_generos, genero_unico. destruct (generos p) as [gs|]; [|done].
  intros _. exists (len gs). split; [done|].
  destruct gs as [|g [|g' gs]]; simpl; split; try lia; naive_solver.
Qed.

Lemma pais_ok_tem_generos p : pais_ok p → tem_generos p.
Proof. intros (gs & Hg & _)%pais_ok_generos. unfold tem_generos. congruence. Qed.

(** A frame past the end of the list. *)
Lemma filtrar_fim limite paises index :
  (len paises ≤ index)%Z →
  filtrar_paises_genero_unico (S limite) paises index = Ok [].
Proof. intros. simpl. by rewrite decide_True. Qed.

(** A frame at a position that holds a country [p] with genders. *)
Lemma filtrar_passo_em limite paises index p :
  (index < len paises)%Z → paises.[index] = Ok p → tem_generos p →
  filtrar_paises_genero_unico (S limite) paises index =
  resto ← filtrar_paises_genero_unico limite paises (index + 1);
  Ok (filter genero_unico [p] ++ resto).
Proof.
  intros Hi Hp (n & Hn & Hu)%len_generos_unico.
  cbn [filtrar_paises_genero_unico].
  rewrite decide_False by lia. rewrite Hp. cbn. rewrite Hn. cbn.
  destruct (decide (n = 1%Z)) as [H1|H1].
  - by rewrite decide_True by by apply Hu.
  - rewrite decide_False by (by rewrite <-Hu).
    by destruct (filtrar_paises_genero_unico _ _ _).
Qed.

Lemma filtrar_passo limite l1 p l2 :
  tem_generos p →
  filtrar_paises_genero_unico (S limite) (l1 ++ p :: l2) (len l1) =
  resto ← filtrar_paises_genero_unico limite (l1 ++ p :: l2) (len l1 + 1);
  Ok (filter genero_unico [p] ++ resto).
Proof.
  intros. apply filtrar_passo_em; [|apply getitem_meio|done].
  rewrite length_app. simpl. lia.
Qed.

(** The frames from the end of a prefix [l1] on, when they suffice. *)
Lemma filtrar_sufixo limite l1 l2 :
  Forall tem_generos l2 → length l2 < limite →
  filtrar_paises_genero_unico limite (l1 ++ l2) (len l1)
  = Ok (filter genero_unico l2).
Proof.
  intros Hg. revert limite l1.
  induction Hg as [|p l2 Hp Hg IH]; intros [|limite] l1 Hlim;
    simpl in Hlim; try lia.
  - apply filtrar_fim. rewrite app_nil_r. lia.
  - rewrite filtrar_passo by done.
    rewrite (cons_middle p l1 l2), app_assoc.
    replace (len l1 + 1)%Z with (len (l1 ++ [p]))
      by (rewrite length_app; simpl; lia).
    rewrite IH, bind_Ok, !filter_cons, filter_nil by lia. by case_decide.
Qed.

(** The frames from the end of a prefix [l1] on, when they run out. *)
Lemma filtrar_esgota limite l1 l2 :
  Forall tem_generos l2 → limite ≤ length l2 →
  filtrar_paises_genero_unico limite (l1 ++ l2) (len l1)
  = Raise RecursionError.
Proof.
  intros Hg. revert limite l1.
  induction Hg as [|p l2 Hp Hg IH]; intros [|limite] l1 Hlim;
    simpl in Hlim; try done; try lia.
  rewrite filtrar_passo by done.
  rewrite (cons_middle p l1 l2), app_assoc.
  replace (len l1 + 1)%Z with (len (l1 ++ [p]))
    by (rewrite length_app; simpl; lia).
  by rewrite IH by lia.
Qed.

(** The call of [main], at index [0]. *)
Lemma filtrar_inicio limite paises :
  Forall tem_generos paises → length paises < limite →
  filtrar_paises_genero_unico limite paises 0 = Ok (filter genero_unico paises).
Proof. apply (filtrar_sufixo limite [] paises). Qed.

Lemma filtrar_inicio_esgota limite paises :
  Forall tem_generos paises → limite ≤ length paises →
  filtrar_paises_genero_unico limite paises 0 = Raise RecursionError.
Proof. apply (filtrar_esgota limite [] paises). Qed.

(** The frames up to a country [p] whose genders are [None]. *)
Lemma filtrar_sem_generos limite l0 l1 p l2 :
  Forall tem_generos l1 → generos p = None → length l1 < limite →
  filtrar_paises_genero_unico limite (l0 ++ l1 ++ p :: l2) (len l0)
  = Raise TypeError.
Proof.
  intros Hg Hp. revert limite l0.
  induction Hg as [|q l1 Hq Hg IH]; intros [|limite] l0 Hlim;
    simpl in Hlim; try lia.
  - cbn [app filtrar_paises_genero_unico].
    rewrite decide_False by (rewrite length_app; simpl; lia).
    by rewrite getitem_meio, bind_Ok, Hp.
  - cbn [app]. rewrite filtrar_passo by done.
    rewrite (cons_middle q l0), app_assoc.
    replace (len l0 + 1)%Z with (len (l0 ++ [q]))
      by (rewrite length_app; simpl; lia).
    by rewrite IH by lia.
Qed.

(** The frames from a negative index on: the positions counted from the
    end of the list, then the whole list. *)
Lemma filtrar_negativo limite l1 l2 :
  Forall tem_generos (l1 ++ l2) → length l2 + length (l1 ++ l2) < limite →
  filtrar_paises_genero_unico limite (l1 ++ l2) (- len l2)
  = Ok (filter genero_unico l2 ++ filter genero_unico (l1 ++ l2)).
Proof.
  revert limite l1. induction l2 as [|p l2 IH]; intros limite l1 Hg Hlim.
  - apply filtrar_inicio; [done|simpl in *; lia].
  - destruct limite as [|limite]; [lia|].
    rewrite (filtrar_passo_em limite _ _ p);
      [|rewrite length_app; simpl; lia|apply getitem_do_fim|].
    + replace (- len (p :: l2) + 1)%Z with (- len l2)%Z by (simpl; lia).
      rewrite (cons_middle p l1 l2), app_assoc in Hg, Hlim |- *.
      rewrite IH by (done || simpl in *; lia).
      rewrite bind_Ok, (filter_cons _ p l2), filter_cons, filter_nil.
      by case_decide.
    + apply Forall_app in Hg as [_ Hg]. by apply Forall_inv in Hg.
Qed.

(** A country with rows of two genders has not one gender. *)
Lemma acumulado_dois_generos (tabela : list Linha) n (l1 l2 : Linha) :
  l1 ∈ tabela → l2 ∈ tabela → nome_pais l1 = n → nome_pais l2 = n →
  genero_atleta l1 ≠ genero_atleta l2 → ¬ genero_unico (acumulado tabela n).
Proof.
  intros H1 H2 Hn1 Hn2 Hg [g [= Hu]].
  assert (∀ l, l ∈ tabela → nome_pais l = n → genero_atleta l = g) as Hall.
  { intros l Hl Hn. apply list_elem_of_singleton.
    rewrite <-Hu, elem_of_distintos. apply list_elem_of_fmap_2.
    by apply list_elem_of_filter. }
  apply Hg. by rewrite (Hall l1), (Hall l2).
Qed.

Lemma quadro_tem_generos tabela : Forall tem_generos (quadro tabela).
Proof.
  eapply Forall_impl; [|apply pais_ok_tem_generos].
  unfold quadro. apply fold_processa_linha_ok. constructor.
Qed.

End filtro.

(** ** Properties *)

(** C6: on a table whose countries all have a list of genders, and with
    more frames than countries, [filtrar_paises_genero_unico] returns the
    countries that have exactly one gender, in the order of the table. *)
Theorem filtrar_filter (limite : nat) (paises : list Pais) :
  Forall tem_generos paises → length paises < limite →
  filtrar_paises_genero_unico limite paises 0 = Ok (filter genero_unico paises).
Proof. apply filtrar_inicio. Qed.

Lemma filtrar_filter_witness :
  Forall tem_generos paises_generos_exemplo ∧
  length paises_generos_exemplo < 1000 ∧
  filtrar_paises_genero_unico 1000 paises_generos_exemplo 0
  = Ok [mkPais "BOT" 0 1 1 2 (Some ["M"]); mkPais "QAT" 1 0 0 1 (Some ["M"])].
Proof.
  assert (Forall tem_generos paises_generos_exemplo) as Hg
    by (by repeat constructor).
  assert (length paises_generos_exemplo < 1000) as Hlim by (simpl; lia).
  split_and!; [done..|].
  apply (filtrar_filter 1000 paises_generos_exemplo Hg Hlim).
Defined.

(** C25: on the table [quadro] builds, [filtrar_paises_genero_unico] raises
    nothing when the frames suffice: it returns the countries of the table
    that have one gender. *)
Theorem filtrar_quadro (limite : nat) (tabela : list Linha) :
  length (quadro tabela) < limite →
  filtrar_paises_genero_unico limite (quadro tabela) 0
  = Ok (filter genero_unico (quadro tabela)).
Proof.
  apply filtrar_inicio, quadro_tem_generos.
Qed.

Lemma filtrar_quadro_witness :
  length (quadro tabela_exemplo) < 1000 ∧
  filtrar_paises_genero_unico 1000 (quadro tabela_exemplo) 0
  = Ok (filter genero_unico (quadro tabela_exemplo)).
Proof.
  assert (length (quadro tabela_exemplo) < 1000) as Hlim
    by (vm_compute; lia).
  split; [done|]. apply (filtrar_quadro 1000 tabela_exemplo Hlim).
Defined.

(** C39: with no more frames than countries, the recursion of
    [filtrar_paises_genero_unico] exceeds the limit: [RecursionError]. *)
Theorem filtrar_RecursionError (limite : nat) (paises : list Pais) :
  Forall tem_generos paises → limite ≤ length paises →
  filtrar_paises_genero_unico limite paises 0 = Raise RecursionError.
Proof. apply filtrar_inicio_esgota. Qed.

Lemma filtrar_RecursionError_witness :
  Forall tem_generos paises_generos_exemplo ∧
  3 ≤ length paises_generos_exemplo ∧
  filtrar_paises_genero_unico 3 paises_generos_exemplo 0
  = Raise RecursionError.
Proof.
  assert (Forall tem_generos paises_generos_exemplo) as Hg
    by (by repeat constructor).
  assert (3 ≤ length paises_generos_exemplo) as Hlim by (simpl; lia).
  split_and!; [done..|].
  apply (filtrar_RecursionError 3 paises_generos_exemplo Hg Hlim).
Defined.

(** C40: a country built without genders, [Pais(nome)], makes
    [filtrar_paises_genero_unico] raise [TypeError] when the recursion
    reaches it. *)
Theorem filtrar_TypeError (limite : nat) (l1 l2 : list Pais) (p : Pais) :
  Forall tem_generos l1 → generos p = None → length l1 < limite →
  filtrar_paises_genero_unico limite (l1 ++ p :: l2) 0 = Raise TypeError.
Proof. intros Hg Hp Hlim. by apply (filtrar_sem_generos limite [] l1 p l2). Qed.

Lemma filtrar_TypeError_witness :
  filtrar_paises_genero_unico 1000
    (paises_generos_exemplo ++ [mkPais "BRA" 0 0 1 1 None]) 0
  = Raise TypeError.
Proof.
  apply (filtrar_TypeError 1000 paises_generos_exemplo []
           (mkPais "BRA" 0 0 1 1 None));
    [by repeat constructor|done|simpl; lia].
Defined.

(** C37: a negative [index] counts from the end of the list, as every
    subscript of Python does: started at [-k] the recursion visits the
    last [k] countries and then the whole list, so that a country of one
    gender among the last [k] is returned twice. *)
Theorem filtrar_indice_negativo (limite : nat) (paises : list Pais) (k : nat) :
  Forall tem_generos paises → k ≤ length paises →
  k + length paises < limite →
  filtrar_paises_genero_unico limite paises (- Z.of_nat k)
  = Ok (filter genero_unico (drop (length paises - k) paises)
        ++ filter genero_unico paises).
Proof.
  intros Hg Hk Hlim.
  pose proof (filtrar_negativo limite (take (length paises - k) paises)
                (drop (length paises - k) paises)) as H.
  rewrite take_drop, length_drop in H.
  replace (length paises - (length paises - k)) with k in H by lia.
  by apply H.
Qed.

Lemma filtrar_indice_negativo_witness :
  filtrar_paises_genero_unico 1000 paises_generos_exemplo (-2)
  = Ok [mkPais "QAT" 1 0 0 1 (Some ["M"]); mkPais "BOT" 0 1 1 2 (Some ["M"]);
        mkPais "QAT" 1 0 0 1 (Some ["M"])].
Proof.
  apply (filtrar_indice_negativo 1000 paises_generos_exemplo 2);
    [by repeat constructor|simpl; lia..].
Defined.
