(* ===== verification/Mapa.v ===== *)
(** * Mapa: the table of countries as a finite map

    The specification describes the result of [quadro] as a mapping from
    the code of a country to its accumulator; the program keeps a list
    and searches it.  This file gives the mapping, [mapa], as a fold of
    [registra] over the rows with a [gmap] for state, and proves that the
    list [quadro] builds represents it ([mapa_de]).

    It also relates the tables of two files that hold the same rows in
    another order.  The accumulators are then not equal, because the
    genders of a country are listed in the order of their first
    appearance; they are equivalent for [mesmo_placar], the equality of
    accumulators up to the order of the genders, which the comparison of
    [ordena] and the test of [filtrar_paises_genero_unico] respect. *)

From stdpp Require Import gmap.
From S2P Require Import Prelude Modelo Agregador Insercao Ordenador.
From S2P Require Import FiltroGenero.

(** ** The specification *)

(** One row: the accumulator of its country is updated, or created. *)
Definition registra (m : gmap string Pais) (linha : Linha) : gmap string Pais :=
  partial_alter
    (λ item, Some (from_option (atualiza_item linha) (novo_pais linha) item))
    (nome_pais linha) m.

(** The mapping of a table of rows. *)
Definition mapa (tabela : list Linha) : gmap string Pais :=
  fold_left registra tabela ∅.

(** The mapping a list of accumulators represents: a search from the
    head of the list finds the first accumulator of a name. *)
Definition mapa_de (paises_list : list Pais) : gmap string Pais :=
  list_to_map ((λ p, (nome p, p)) <$> paises_list).

(** The countries of a list with one gender, as a set of names. *)
Definition nomes_genero_unico (paises : list Pais) : gset string :=
  list_to_set (nome <$> filter genero_unico paises).

(** ** Accumulators up to the order of the genders *)

Definition mesmo_placar (p q : Pais) : Prop :=
  nome p = nome q ∧ podio p = podio q ∧ quant_total p = quant_total q ∧
  option_Forall2 (≡ₚ) (generos p) (generos q).

#[export] Instance Pais_equiv : Equiv Pais := mesmo_placar.

#[export] Instance mesmo_placar_equivalence : Equivalence mesmo_placar.
Proof.
  unfold mesmo_placar. split.
  - by intros p.
  - intros p q (? & ? & ? & ?). by split_and!.
  - intros p q r (? & ? & ? & ?) (? & ? & ? & ?).
    split_and!; try congruence. by etrans.
Qed.

#[export] Instance nome_proper : Proper ((≡) ==> (=)) nome.
Proof. by intros p q (? & _). Qed.

#[export] Instance podio_proper : Proper ((≡) ==> (=)) podio.
Proof. by intros p q (_ & ? & _). Qed.

#[export] Instance quant_total_proper : Proper ((≡) ==> (=)) quant_total.
Proof. by intros p q (_ & _ & ? & _). Qed.

(** The comparison of [ordena] reads the counts only. *)
#[export] Instance desloca_proper : Proper ((≡) ==> (≡) ==> (=)) desloca.
Proof.
  intros p p' (_ & [= Hp1 Hp2 Hp3] & _) q q' (_ & [= Hq1 Hq2 Hq3] & _).
  unfold desloca. by rewrite Hp1, Hp2, Hp3, Hq1, Hq2, Hq3.
Qed.

(** The test of [filtrar_paises_genero_unico] reads the number of genders
    only. *)
#[export] Instance genero_unico_proper : Proper ((≡) ==> iff) genero_unico.
Proof.
  assert (∀ p q, p ≡ q → genero_unico p → genero_unico q) as H.
  { intros p q (_ & _ & _ & Hg) [g Hp]. rewrite Hp in Hg.
    inversion Hg as [gs gs' Hgs Hp' Hq|]; subst.
    apply Permutation_singleton_l in Hgs. subst gs'. by exists g. }
  intros p q Hpq. split; apply H; [done|by symmetry].
Qed.

(** ** The list represents the mapping *)

Section representacao.
Implicit Types (p item : Pais) (ps : list Pais) (linha : Linha) (n : string).
Implicit Types (m : gmap string Pais) (tabela : list Linha).

Lemma mapa_de_cons p ps : mapa_de (p :: ps) = <[nome p := p]> (mapa_de ps).
Proof. done. Qed.

Lemma mapa_de_app ps1 ps2 : mapa_de (ps1 ++ ps2) = mapa_de ps1 ∪ mapa_de ps2.
Proof. unfold mapa_de. by rewrite fmap_app, list_to_map_app. Qed.

Lemma mapa_de_ausente ps n : n ∉ nome <$> ps → mapa_de ps !! n = None.
Proof.
  intros Hn. apply not_elem_of_list_to_map_1.
  by rewrite <-list_fmap_compose.
Qed.

(** The binding of a name is the first accumulator of that name. *)
Lemma mapa_de_primeiro ps1 item ps2 :
  nome item ∉ nome <$> ps1 →
  mapa_de (ps1 ++ item :: ps2) !! nome item = Some item.
Proof.
  intros Hn. rewrite mapa_de_app, lookup_union_r by by apply mapa_de_ausente.
  by rewrite mapa_de_cons, lookup_insert_eq.
Qed.

Lemma mapa_de_outro ps1 item item' ps2 n :
  nome item' = nome item → n ≠ nome item →
  mapa_de (ps1 ++ item' :: ps2) !! n = mapa_de (ps1 ++ item :: ps2) !! n.
Proof.
  intros Hi Hn. rewrite !mapa_de_app, !lookup_union, !mapa_de_cons.
  by rewrite !lookup_insert_ne by congruence.
Qed.

(** The search of the list and the update of the mapping agree. *)
Lemma processa_linha_registra ps linha :
  mapa_de (processa_linha ps linha) = registra (mapa_de ps) linha.
Proof.
  apply map_eq. intros n. unfold processa_linha, registra.
  rewrite lookup_partial_alter.
  destruct (decide (nome_pais linha ∈ nome <$> ps)) as [Hin|Hin].
  - apply list_elem_of_split_l in Hin as (ns1 & ns2 & Hps & Hn1).
    apply fmap_app_inv in Hps as (ps1 & ps' & -> & Hps' & ->).
    symmetry in Hps'.
    apply fmap_cons_inv in Hps' as (item & ps2 & Hitem & -> & ->).
    rewrite percorre_presente by done. rewrite Hitem in Hn1 |- *.
    case_decide as Hn; [subst n|].
    + rewrite mapa_de_primeiro by done. simpl.
      rewrite <-(atualiza_item_nome linha item).
      apply mapa_de_primeiro. by rewrite atualiza_item_nome.
    + apply mapa_de_outro; [apply atualiza_item_nome|done].
  - rewrite percorre_ausente, mapa_de_app, lookup_union by done.
    rewrite mapa_de_cons, novo_pais_nome. case_decide as Hn; [subst n|].
    + by rewrite mapa_de_ausente, lookup_insert_eq.
    + rewrite lookup_insert_ne by done. by destruct (mapa_de ps !! n).
Qed.

Lemma fold_processa_linha_registra tabela ps :
  mapa_de (fold_left processa_linha tabela ps)
  = fold_left registra tabela (mapa_de ps).
Proof.
  revert ps. induction tabela as [|linha tabela IH]; intros ps; [done|].
  simpl. by rewrite IH, processa_linha_registra.
Qed.

Lemma quadro_mapa tabela : mapa_de (quadro tabela) = mapa tabela.
Proof. apply (fold_processa_linha_registra tabela []). Qed.

(** The accumulators of a list without two of a name are the bindings of
    its mapping. *)
Lemma elem_of_mapa_de ps p :
  NoDup (nome <$> ps) → p ∈ ps ↔ mapa_de ps !! nome p = Some p.
Proof.
  intros Hnd. unfold mapa_de.
  rewrite <-elem_of_list_to_map by by rewrite <-list_fmap_compose.
  rewrite list_elem_of_fmap. naive_solver.
Qed.

(** The mapping in closed form. *)
Lemma lookup_mapa tabela n :
  mapa tabela !! n =
  if decide (n ∈ nome_pais <$> tabela) then Some (acumulado tabela n) else None.
Proof.
  rewrite <-quadro_mapa. case_decide as Hn.
  - apply (elem_of_mapa_de (quadro tabela) (acumulado tabela n)).
    + rewrite quadro_acumulado, <-list_fmap_compose, nome_acumulado.
      rewrite list_fmap_id. apply NoDup_distintos.
    + by apply elem_of_quadro.
  - apply mapa_de_ausente. rewrite quadro_acumulado, <-list_fmap_compose.
    by rewrite nome_acumulado, list_fmap_id, elem_of_distintos.
Qed.

End representacao.

(** ** The order of the rows *)

Section ordem_das_linhas.
Implicit Types (tabela : list Linha) (n : string) (m : Medalha).

#[export] Instance linhas_de_proper :
  Proper ((≡ₚ) ==> (=) ==> (≡ₚ)) linhas_de.
Proof. intros tabela tabela' Ht n ? <-. unfold linhas_de. by rewrite Ht. Qed.

#[export] Instance conta_proper : Proper ((≡ₚ) ==> (=) ==> (=) ==> (=)) conta.
Proof.
  intros tabela tabela' Ht n ? <- m ? <-. unfold conta. by rewrite Ht.
Qed.

Lemma distintos_Permutation `{EqDecision A} (l k : list A) :
  l ≡ₚ k → distintos l ≡ₚ distintos k.
Proof.
  intros Hlk. apply NoDup_Permutation; [apply NoDup_distintos..|].
  intros x. by rewrite !elem_of_distintos, Hlk.
Qed.

#[export] Instance acumulado_proper :
  Proper ((≡ₚ) ==> (=) ==> (≡)) acumulado.
Proof.
  intros tabela tabela' Ht n ? <-.
  assert (∀ m, conta tabela n m = conta tabela' n m) as Hc
    by (intros m; by apply conta_proper).
  unfold acumulado. split_and!; unfold podio; simpl; rewrite ?Hc; try done.
  constructor. by apply distintos_Permutation, fmap_Permutation, linhas_de_proper.
Qed.

#[export] Instance mapa_proper : Proper ((≡ₚ) ==> (≡)) mapa.
Proof.
  intros tabela tabela' Ht. apply map_equiv_iff. intros n.
  rewrite !lookup_mapa. rewrite (decide_ext _ (n ∈ nome_pais <$> tabela'))
    by by rewrite Ht.
  case_decide; constructor. by rewrite Ht.
Qed.

Lemma elem_of_nomes_genero_unico tabela n :
  n ∈ nomes_genero_unico (quadro tabela) ↔
  n ∈ nome_pais <$> tabela ∧ genero_unico (acumulado tabela n).
Proof.
  unfold nomes_genero_unico.
  rewrite elem_of_list_to_set, list_elem_of_fmap.
  setoid_rewrite list_elem_of_filter. setoid_rewrite elem_of_quadro. split.
  - intros (p & -> & Hg & Hp & Hn). by rewrite <-Hp.
  - intros [Hn Hg]. by exists (acumulado tabela n).
Qed.

Lemma nomes_genero_unico_Permutation tabela tabela' :
  tabela ≡ₚ tabela' →
  nomes_genero_unico (quadro tabela) = nomes_genero_unico (quadro tabela').
Proof.
  intros Ht. apply set_eq. intros n.
  by rewrite !elem_of_nomes_genero_unico, Ht.
Qed.

End ordem_das_linhas.

(** ** Properties *)

(** C13: [quadro] implements the mapping of the specification: the list
    it returns represents the mapping that [registra] builds row by row,
    and its accumulators are exactly the bindings of that mapping. *)
Theorem quadro_refina_mapa (tabela : list Linha) :
  mapa_de (quadro tabela) = mapa tabela ∧
  ∀ p, p ∈ quadro tabela ↔ mapa tabela !! nome p = Some p.
Proof.
  split; [apply quadro_mapa|]. intros p.
  rewrite lookup_mapa, elem_of_quadro. case_decide as Hn.
  - split; [intros [Hp _]; congruence|intros [= Hp]; by split].
  - by split; [intros [_ ?]|].
Qed.

(** C23: the order of the rows of the file changes neither the countries
    nor their counts, nor the set of their genders: two tables with the
    same rows give mappings equal up to the order of the genders, and the
    same countries with one gender. *)
Theorem quadro_permutacao (tabela tabela' : list Linha) :
  tabela ≡ₚ tabela' →
  mapa tabela ≡ mapa tabela' ∧
  nomes_genero_unico (quadro tabela) = nomes_genero_unico (quadro tabela').
Proof.
  intros Ht. split; [by apply mapa_proper|].
  by apply nomes_genero_unico_Permutation.
Qed.

Lemma quadro_permutacao_witness :
  mapa (reverse tabela_exemplo) ≡ mapa tabela_exemplo ∧
  nomes_genero_unico (quadro (reverse tabela_exemplo))
  = nomes_genero_unico (quadro tabela_exemplo).
Proof. apply quadro_permutacao, reverse_Permutation. Defined.
