(* ===== verification/Relatorio.v ===== *)
(** * Relatorio: [exibir_quadro] and [exibir_paises_formatado]

    The two reports (lines 157-163 and 180-186).  What [print] writes is
    the value of the functions: the list of the lines printed.  A
    replacement field [{x:<n}] of an f-string is [esq n]: the text of [x]
    followed by the spaces that bring it to [n] characters, and by none
    when it is longer.  The length of a string is counted in characters, as
    Python does, on the UTF-8 bytes the model holds. *)

From Stdlib Require Import Ascii.
From stdpp Require Import pretty.
From S2P Require Import Prelude Modelo Leitor.

(** ** The formatting of Python *)

(** The space. *)
Definition espaco : ascii := " "%char.

(** A byte that continues a character of several bytes: [10xxxxxx]. *)
Definition continuacao (c : ascii) : bool :=
  match c with
  | Ascii _ _ _ _ _ _ b6 b7 => b7 && negb b6
  end.

(** [len(s)]: the number of characters. *)
Definition comprimento (s : string) : nat :=
  length (filter (λ c, continuacao c = false) (caracteres s)).

(** [n] spaces. *)
Fixpoint espacos (n : nat) : string :=
  match n with
  | 0 => EmptyString
  | S n => String espaco (espacos n)
  end.

(** [f'{s:<n}']: [s] aligned to the left in [n] columns. *)
Definition esq (largura : nat) (s : string) : string :=
  s +:+ espacos (largura - comprimento s).

(** Replacement fields separated by one space.  The text of an integer
    field is its decimal numeral, [pretty]. *)
Fixpoint colunas (campos : list (nat * string)) : string :=
  match campos with
  | [] => EmptyString
  | [(largura, s)] => esq largura s
  | (largura, s) :: campos => esq largura s +:+ String espaco (colunas campos)
  end.

(** ** The model *)

(** The line of a country in the medal table (line 163). *)
Definition linha_quadro (pais : Pais) : string :=
  colunas [(15, nome pais); (5, pretty (quant_ouro pais));
           (5, pretty (quant_prata pais)); (6, pretty (quant_bronze pais));
           (5, pretty (quant_total pais))].

(** The first line of the medal table (line 161). *)
Definition cabecalho_quadro : string :=
  colunas [(15, "País"); (5, "Ouro"); (5, "Prata"); (6, "Bronze");
           (5, "Total")].

(** [exibir_quadro(paises)]: the lines it prints. *)
Definition exibir_quadro (paises : list Pais) : list string :=
  cabecalho_quadro :: (linha_quadro <$> paises).

(** [exibir_paises_formatado(paises)]: the lines it prints. *)
Definition exibir_paises_formatado (paises : list Pais) : list string :=
  "Países com atletas de um único gênero premiados:"
  :: ((λ pais, esq 15 (nome pais)) <$> paises).

(** ** Reference definitions *)

(** The words of a line: what stands between its spaces. *)
Definition palavras (linha : string) : list string :=
  filter (λ s, s ≠ EmptyString) (split espaco linha).

(** A text that fills a column: not empty and without spaces. *)
Definition palavra (s : string) : Prop :=
  s ≠ EmptyString ∧ espaco ∉ caracteres s.

(** A country that fits the columns of the medal table. *)
Definition cabe (pais : Pais) : Prop :=
  comprimento (nome pais) ≤ 15 ∧
  (0 ≤ quant_ouro pais < 10 ^ 5 ∧ 0 ≤ quant_prata pais < 10 ^ 5 ∧
   0 ≤ quant_bronze pais < 10 ^ 6 ∧ 0 ≤ quant_total pais < 10 ^ 5)%Z.

#[export] Instance cabe_dec pais : Decision (cabe pais).
Proof. unfold cabe. apply _. Defined.

(** The table of the docstring of [quadro], ranked. *)
Definition paises_relatorio : list Pais :=
  [mkPais "BRA" 1 0 1 2 (Some ["M"]); mkPais "FRA" 0 0 1 1 (Some ["M"]);
   mkPais "USA" 0 1 0 1 (Some ["F"])].

(** ** Lemmas *)

Section cadeias.
Implicit Types (s t u : string) (c sep : ascii) (n k : nat).

Lemma append_cons c s t : String c s +:+ t = String c (s +:+ t).
Proof. reflexivity. Qed.

Lemma append_nil_l t : EmptyString +:+ t = t.
Proof. reflexivity. Qed.

Lemma append_nil_r s : s +:+ EmptyString = s.
Proof. induction s as [|c s IH]; [done|]. by rewrite append_cons, IH. Qed.

Lemma append_assoc s t u : (s +:+ t) +:+ u = s +:+ (t +:+ u).
Proof. induction s as [|c s IH]; [done|]. by rewrite !append_cons, IH. Qed.

Lemma caracteres_append s t :
  caracteres (s +:+ t) = caracteres s ++ caracteres t.
Proof.
  induction s as [|c s IH]; [done|].
  rewrite append_cons. cbn [caracteres app]. by rewrite IH.
Qed.

Lemma comprimento_append s t :
  comprimento (s +:+ t) = comprimento s + comprimento t.
Proof.
  unfold comprimento. by rewrite caracteres_append, filter_app, length_app.
Qed.

Lemma comprimento_espacos n : comprimento (espacos n) = n.
Proof.
  induction n as [|n IH]; [done|]. unfold comprimento in *. cbn [espacos caracteres].
  rewrite filter_cons_True by done. cbn [length]. by rewrite IH.
Qed.

Lemma comprimento_esq n s : comprimento (esq n s) = n `max` comprimento s.
Proof.
  unfold esq. rewrite comprimento_append, comprimento_espacos. lia.
Qed.

End cadeias.

(** *** The digits of an integer *)

Section digitos.
Implicit Types (x : N) (z : Z) (s : string) (n : nat).

Lemma continuacao_pretty_N_char x : continuacao (pretty_N_char x) = false.
Proof. destruct x as [|p]; compute; by repeat case_match. Qed.

Lemma espaco_pretty_N_char x : pretty_N_char x ≠ espaco.
Proof. destruct x as [|p]; compute; by repeat case_match. Qed.

(** What holds of the ten digits holds of the characters of a numeral. *)
Lemma pretty_N_go_Forall (P : ascii → Prop) x s :
  (∀ d, P (pretty_N_char d)) →
  Forall P (caracteres s) → Forall P (caracteres (pretty_N_go x s)).
Proof.
  intros HP. revert s. induction (N.lt_wf_0 x) as [x _ IH]. intros s Hs.
  destruct (decide (0 < x)%N) as [Hx|Hx].
  - rewrite pretty_N_go_step by done.
    apply IH; [by apply N.div_lt|]. by constructor.
  - by replace x with 0%N by lia.
Qed.

Lemma pretty_N_go_length x s n :
  (x < 10 ^ N.of_nat n)%N →
  length (caracteres (pretty_N_go x s)) ≤ n + length (caracteres s).
Proof.
  revert x s. induction n as [|n IH]; intros x s Hx.
  - replace x with 0%N by (simpl in Hx; lia). by rewrite pretty_N_go_0.
  - destruct (decide (0 < x)%N) as [H0|H0];
      [|replace x with 0%N by lia; rewrite pretty_N_go_0; lia].
    rewrite pretty_N_go_step by done.
    etrans; [apply IH|cbn [caracteres length]; lia].
    rewrite Nat2N.inj_succ, N.pow_succ_r' in Hx.
    apply N.Div0.div_lt_upper_bound. lia.
Qed.

Lemma pretty_Z_Forall (P : ascii → Prop) z :
  (0 ≤ z)%Z → (∀ d, P (pretty_N_char d)) → Forall P (caracteres (pretty z)).
Proof.
  intros Hz HP. destruct z as [|p|p]; [|..|lia].
  - apply (Forall_singleton P), (HP 0%N).
  - by apply pretty_N_go_Forall.
Qed.

Lemma pretty_N_go_length_ge x s :
  length (caracteres s) ≤ length (caracteres (pretty_N_go x s)).
Proof.
  revert s. induction (N.lt_wf_0 x) as [x _ IH]. intros s.
  destruct (decide (0 < x)%N) as [Hx|Hx];
    [|by replace x with 0%N by lia].
  rewrite pretty_N_go_step by done.
  etrans; [|apply IH; by apply N.div_lt]. cbn [caracteres length]. lia.
Qed.

Lemma pretty_pos p : pretty (Z.pos p) = pretty_N_go (N.pos p) "".
Proof. done. Qed.

(** The numeral of a natural number is a word. *)
Lemma palavra_pretty z : (0 ≤ z)%Z → palavra (pretty z).
Proof.
  intros Hz. split.
  - destruct z as [|p|p]; [done| |lia]. rewrite pretty_pos.
    rewrite pretty_N_go_step by lia. intros Hs.
    pose proof (pretty_N_go_length_ge (N.pos p `div` 10)
      (String (pretty_N_char (N.pos p `mod` 10)) "")) as Hl.
    rewrite Hs in Hl. cbn in Hl. lia.
  - intros He. eapply (proj1 (Forall_forall _ _)) in He;
      [|by apply (pretty_Z_Forall (λ c, c ≠ espaco)), espaco_pretty_N_char].
    done.
Qed.

(** The numeral of a natural number below [10 ^ n] has [n] characters at
    most. *)
Lemma comprimento_pretty z n :
  0 < n → (0 ≤ z < 10 ^ Z.of_nat n)%Z → comprimento (pretty z) ≤ n.
Proof.
  intros Hn [Hz Hlt]. unfold comprimento.
  etrans; [apply length_filter|].
  destruct z as [|p|p]; [cbn; lia| |lia]. rewrite pretty_pos.
  etrans; [apply (pretty_N_go_length _ _ n)|cbn; lia].
  apply N2Z.inj_lt. rewrite N2Z.inj_pow, nat_N_Z. exact Hlt.
Qed.

End digitos.

(** *** The words of a formatted line *)

Section palavras.
Implicit Types (s t resto : string) (n k : nat).
Implicit Types (campos : list (nat * string)).

Lemma split_palavra_sep s t :
  espaco ∉ caracteres s →
  split espaco (s +:+ String espaco t) = s :: split espaco t.
Proof.
  induction s as [|c s IH]; intros Hs.
  - rewrite append_nil_l. cbn [split]. by rewrite decide_True.
  - cbn [caracteres] in Hs. apply not_elem_of_cons in Hs as [Hc Hs].
    rewrite append_cons. cbn [split]. rewrite decide_False by done.
    by rewrite IH.
Qed.

Lemma split_palavra s : espaco ∉ caracteres s → split espaco s = [s].
Proof.
  induction s as [|c s IH]; intros Hs; [done|].
  cbn [caracteres] in Hs. apply not_elem_of_cons in Hs as [Hc Hs].
  cbn [split]. rewrite decide_False by done. by rewrite IH.
Qed.

Lemma palavras_espaco t : palavras (String espaco t) = palavras t.
Proof.
  unfold palavras. cbn [split]. rewrite decide_True by done.
  by rewrite filter_cons_False by naive_solver.
Qed.

Lemma palavras_espacos n t : palavras (espacos n +:+ t) = palavras t.
Proof.
  induction n as [|n IH]; [done|].
  cbn [espacos]. by rewrite append_cons, palavras_espaco.
Qed.

Lemma palavras_espacos_fim n : palavras (espacos n) = [].
Proof.
  induction n as [|n IH]; [done|]. cbn [espacos]. by rewrite palavras_espaco.
Qed.

Lemma palavras_palavra_sep s t :
  palavra s → palavras (s +:+ String espaco t) = s :: palavras t.
Proof.
  intros [Hs He]. unfold palavras.
  by rewrite split_palavra_sep, filter_cons_True by done.
Qed.

(** The words of a column that is followed by another. *)
Lemma palavras_esq_sep n s resto :
  palavra s → palavras (esq n s +:+ String espaco resto) = s :: palavras resto.
Proof.
  intros Hs. unfold esq. rewrite append_assoc.
  destruct (n - comprimento s) as [|k].
  - rewrite append_nil_l. by apply palavras_palavra_sep.
  - cbn [espacos]. rewrite append_cons, palavras_palavra_sep by done.
    by rewrite palavras_espacos, palavras_espaco.
Qed.

(** The words of the last column. *)
Lemma palavras_esq n s : palavra s → palavras (esq n s) = [s].
Proof.
  intros Hs. unfold esq. destruct (n - comprimento s) as [|k].
  - rewrite append_nil_r. unfold palavras.
    by rewrite split_palavra, filter_cons_True by apply Hs.
  - cbn [espacos]. rewrite palavras_palavra_sep by done.
    by rewrite palavras_espacos_fim.
Qed.

Lemma palavras_colunas campos :
  Forall palavra campos.*2 → palavras (colunas campos) = campos.*2.
Proof.
  induction campos as [|[n s] campos IH]; intros Hc; [done|].
  apply Forall_cons in Hc as [Hs Hc].
  destruct campos as [|campo campos]; [by apply palavras_esq|].
  change (colunas ((n, s) :: campo :: campos))
    with (esq n s +:+ String espaco (colunas (campo :: campos))).
  by rewrite palavras_esq_sep, IH.
Qed.

Lemma comprimento_colunas campos :
  campos ≠ [] →
  Forall (λ campo, comprimento campo.2 ≤ campo.1) campos →
  comprimento (colunas campos) = sum_list campos.*1 + length campos - 1.
Proof.
  intros Hne Hc. induction Hc as [|[n s] campos Hs Hc IH]; [done|].
  destruct campos as [|campo campos].
  - change (colunas [(n, s)]) with (esq n s). rewrite comprimento_esq.
    cbn [fst snd] in Hs. cbn [fmap list_fmap sum_list sum_list_with length fst].
    unfold id. lia.
  - change (colunas ((n, s) :: campo :: campos))
      with (esq n s +:+ String espaco (colunas (campo :: campos))).
    rewrite comprimento_append, comprimento_esq.
    change (String espaco ?t) with (espacos 1 +:+ t).
    rewrite comprimento_append, (comprimento_espacos 1), IH by done.
    cbn [fst snd] in Hs. rewrite !fmap_cons. cbn [sum_list sum_list_with length fst].
    unfold id. lia.
Qed.

End palavras.

Section relatorios.
Implicit Types (p q : Pais) (paises : list Pais).

Lemma linha_quadro_palavras p :
  palavra (nome p) → contagens_ok p → (0 ≤ quant_total p)%Z →
  palavras (linha_quadro p) =
  [nome p; pretty (quant_ouro p); pretty (quant_prata p);
   pretty (quant_bronze p); pretty (quant_total p)].
Proof.
  intros Hn (Hb & Hp & Ho) Ht. unfold linha_quadro.
  rewrite palavras_colunas; [done|].
  repeat (constructor; [done || by apply palavra_pretty|]). constructor.
Qed.

Lemma linha_quadro_comprimento p : cabe p → comprimento (linha_quadro p) = 40.
Proof.
  intros (Hn & Ho & Hp & Hb & Ht). unfold linha_quadro.
  rewrite comprimento_colunas; [done..|].
  repeat (constructor;
    [done || (apply comprimento_pretty; [cbn [fst]; lia|done])|]).
  constructor.
Qed.

End relatorios.

(** ** Properties *)

(** C32: the medal table is aligned: when the names have 15 characters at
    most and the counts fit their columns, every line [exibir_quadro]
    prints, the header included, has 40 characters. *)
Theorem exibir_quadro_alinhado (paises : list Pais) :
  Forall cabe paises →
  Forall (λ linha, comprimento linha = 40) (exibir_quadro paises).
Proof.
  intros Hc. constructor; [by vm_compute|].
  apply Forall_fmap. eapply Forall_impl; [done|].
  intros p Hp. by apply linha_quadro_comprimento.
Qed.

Lemma exibir_quadro_alinhado_witness :
  Forall (λ linha, comprimento linha = 40) (exibir_quadro paises_relatorio).
Proof.
  apply (exibir_quadro_alinhado paises_relatorio).
  repeat constructor; unfold cabe; cbn; lia.
Defined.

(** C33: nothing of a country is lost in its line of the medal table: two
    well-formed countries whose names are words and whose lines are equal
    have the same name and the same counts. *)
Theorem linha_quadro_inj (p q : Pais) :
  palavra (nome p) → palavra (nome q) → pais_ok p → pais_ok q →
  linha_quadro p = linha_quadro q →
  nome p = nome q ∧ podio p = podio q ∧ quant_total p = quant_total q.
Proof.
  intros Hnp Hnq (Htp & Hcp & _) (Htq & Hcq & _) Hl.
  apply (f_equal palavras) in Hl.
  rewrite (linha_quadro_palavras p), (linha_quadro_palavras q) in Hl
    by (done || (unfold total_ok, contagens_ok in *; lia)).
  injection Hl as Hn Ho Hp Hb Ht.
  apply (inj pretty) in Ho, Hp, Hb, Ht. unfold podio.
  by rewrite Hn, Ho, Hp, Hb, Ht.
Qed.

Lemma linha_quadro_inj_witness :
  nome (mkPais "BRA" 1 0 1 2 (Some ["M"])) = nome (mkPais "BRA" 1 0 1 2 (Some ["W"])) ∧
  podio (mkPais "BRA" 1 0 1 2 (Some ["M"])) = podio (mkPais "BRA" 1 0 1 2 (Some ["W"])) ∧
  quant_total (mkPais "BRA" 1 0 1 2 (Some ["M"])) =
  quant_total (mkPais "BRA" 1 0 1 2 (Some ["W"])).
Proof.
  apply (linha_quadro_inj (mkPais "BRA" 1 0 1 2 (Some ["M"]))
           (mkPais "BRA" 1 0 1 2 (Some ["W"])));
    [by split; [|vm_compute; set_solver]..| | |done];
    apply (bool_decide_unpack _); by vm_compute.
Defined.

(** [exibir_paises_formatado] prints, after its title, one line for
    each country, in order, that holds the name of the country and
    nothing else but spaces. *)
Lemma exibir_paises_formatado_nomes (paises : list Pais) :
  Forall (λ p, palavra (nome p)) paises →
  palavras <$> drop 1 (exibir_paises_formatado paises)
  = (λ p, [nome p]) <$> paises.
Proof.
  intros Hp. unfold exibir_paises_formatado.
  change (drop 1 (?x :: ?l)) with l.
  rewrite <-list_fmap_compose. apply list_fmap_ext.
  intros i p Hi. apply palavras_esq.
  apply (proj1 (Forall_lookup _ _) Hp i p Hi).
Qed.

