(* ===== verification/Principal.v ===== *)
(** * Principal: [main]

    [main] (lines 22-37): the checks on the number of arguments, the
    reading of the file and the calls chained between reading the file and
    printing the reports, [nucleo], and the two reports.  The arguments of
    the program, what [open] answers for each name and the number of
    frames the interpreter allows are parameters; [main] is a run: the
    lines it prints, the messages before [sys.exit(1)] included, and how
    it ends.  Lists are objects of a store and the names of
    [main] hold references to them: [ordena] updates the list it is given
    and returns the same reference, so that [tabela_enumerada] and
    [quadro_organizado] name one object, and
    [filtrar_paises_genero_unico(tabela_enumerada)], which runs after
    [ordena], reads the table as ranked.  [programa] is the script that
    calls [main] (lines 189-190): what it writes and its exit status.

    The theorems on [nucleo] state what the reports hold in terms of the
    rows of the file: which fields are the country and the medal code
    ([linhas_com]), and what the line break kept by [le_arquivo] does to
    the genders of a country. *)

From Stdlib Require Import Ascii.
From stdpp Require Import gmap sorting.
From S2P Require Import Prelude Saida Modelo Leitor Projetor Agregador Insercao.
From S2P Require Import Ordenador FiltroGenero Relatorio.

(** ** The store *)

(** A reference to a list object. *)
Abbreviation ref := nat (only parsing).

(** The list objects that are alive. *)
Abbreviation memoria := (gmap nat (list Pais)) (only parsing).

(** A new list object. *)
Definition aloca (paises : list Pais) (m : memoria) : ref * memoria :=
  (fresh (dom m), <[fresh (dom m) := paises]> m).

(** The list a reference denotes.  A reference of the program is never
    dangling: the error of the other branch is not reachable from
    [nucleo]. *)
Definition le (r : ref) (m : memoria) : result (list Pais) :=
  of_option TypeError (m !! r).

(** ** The calls of [main] *)

(** [tabela_enumerada = quadro(tabela_filtrada)]: [quadro] returns a new
    list. *)
Definition quadro_ref (tabela : list Linha) (m : memoria) : ref * memoria :=
  aloca (quadro tabela) m.

(** [quadro_organizado = ordena(tabela_enumerada)]: the object is updated
    and its own reference returned. *)
Definition ordena_ref (r : ref) (m : memoria) : result (ref * memoria) :=
  paises ← le r m;
  paises' ← ordena paises;
  Ok (r, <[r := paises']> m).

(** [paises_genero = filtrar_paises_genero_unico(tabela_enumerada)]: the
    result is a new list. *)
Definition filtrar_ref (limite : nat) (r : ref) (m : memoria) :
    result (ref * memoria) :=
  paises ← le r m;
  unicos ← filtrar_paises_genero_unico limite paises 0;
  Ok (aloca unicos m).

(** Lines 31-37 of [main], from the table [le_arquivo] returns to the two
    lists handed to [exibir_quadro] and [exibir_paises_formatado]. *)
Definition nucleo (limite : nat) (tabela : list (list string)) :
    result (list Pais * list Pais) :=
  tabela_filtrada ← filtro_tabela tabela;
  let '(tabela_enumerada, m) := quadro_ref tabela_filtrada ∅ in
  '(quadro_organizado, m) ← ordena_ref tabela_enumerada m;
  '(paises_genero, m) ← filtrar_ref limite tabela_enumerada m;
  exibido ← le quadro_organizado m;
  formatado ← le paises_genero m;
  Ok (exibido, formatado).

(** [main()], with [sys.argv], what [open] answers for each name and the
    frames available. *)
Definition main (argv : list string) (arquivos : string → abertura)
    (limite : nat) : execucao unit :=
  if decide (len argv < 2)%Z then
    print "Nenhum nome de arquivo informado.";; sys_exit 1
  else if decide (len argv > 2)%Z then
    print "Muitos parâmetros. Informe apenas um nome de arquivo.";;
    sys_exit 1
  else
    nome ← eleva (argv.[1]);
    tabela ← le_arquivo nome (arquivos nome);
    '(quadro_organizado, paises_genero) ← eleva (nucleo limite tabela);
    imprime (exibir_quadro quadro_organizado);;
    imprime (exibir_paises_formatado paises_genero).

(** The script (lines 189-190): what the process writes on its standard
    output, and its exit status. *)
Definition programa (argv : list string) (arquivos : string → abertura)
    (limite : nat) : list string * Z :=
  let m := main argv arquivos limite in (impresso m, status m).

(** ** Reference definitions *)

(** The table of countries of a file whose rows are valid. *)
Definition agregado (tabela : list (list string)) : list Pais :=
  quadro (campos <$> tabela).

(** A file in which the country that appears first ranks below another,
    both with medallists of one gender. *)
Definition arquivo_exemplo : list (list string) :=
  [["a"; "3"; "c"; "d"; "QAT"; "M"];
   ["a"; "1"; "c"; "d"; "BOT"; "M"];
   ["a"; "2"; "c"; "d"; "BEL"; "M"];
   ["a"; "2"; "c"; "d"; "BEL"; "W"]].

(** The rows of a file laid out with the medal code in the first field,
    the country in the second and the gender in the fifth. *)
Definition arquivo_cenario : list (list string) :=
  [["1"; "BRA"; "x"; "x"; "M"; "x"];
   ["2"; "USA"; "x"; "x"; "F"; "x"];
   ["3"; "BRA"; "x"; "x"; "M"; "x"];
   ["1"; "FRA"; "x"; "x"; "M"; "x"]].

(** A file whose last column is the gender and whose last line has no
    line break: two medals of women of one country. *)
Definition texto_sem_quebra : string :=
  "a,b,c,d,e,f" +:+ String nl
    ("a,1,c,d,BRA,W" +:+ String nl "a,2,c,d,BRA,W").

(** The same file with a row of another country between the two rows. *)
Definition texto_dois_paises : string :=
  "a,b,c,d,e,f" +:+ String nl
    ("a,1,c,d,BRA,W" +:+ String nl
       ("a,3,c,d,QAT,M" +:+ String nl "a,2,c,d,BRA,W")).

(** The files of the examples, by name: one file, and no other. *)
Definition arquivos_exemplo (nome : string) : abertura :=
  if decide (nome = "medals.csv") then Aberto texto_sem_quebra
  else IOError 2 "No such file or directory".

(** The rows of a table with the country [pais] in field 4 and the medal
    code [codigo] in field 1. *)
Definition linhas_com (tabela : list (list string)) (pais codigo : string) :
    list (list string) :=
  filter (λ item, item !! 4 = Some pais ∧ item !! 1 = Some codigo) tabela.

(** ** Lemmas *)

Section memoria.
Implicit Types (r : ref) (m : memoria) (l : list Pais).

Lemma le_Some r m l : m !! r = Some l → le r m = Ok l.
Proof. unfold le. by intros ->. Qed.

Lemma aloca_fresca l m : m !! (aloca l m).1 = None.
Proof. apply not_elem_of_dom, is_fresh. Qed.

Lemma le_aloca l m : le (aloca l m).1 (aloca l m).2 = Ok l.
Proof. apply le_Some. apply lookup_insert_eq. Qed.

(** Allocation leaves the objects that are alive as they are. *)
Lemma le_aloca_outro l m r l' :
  m !! r = Some l' → le r (aloca l m).2 = Ok l'.
Proof.
  intros Hr. apply le_Some. unfold aloca. cbn [snd].
  rewrite lookup_insert_ne; [done|].
  intros <-. pose proof (aloca_fresca l m) as Hf. unfold aloca in Hf.
  cbn [fst] in Hf. congruence.
Qed.

Lemma ordena_ref_Some r m l :
  m !! r = Some l →
  ordena_ref r m = Ok (r, <[r := ordena_por desloca l]> m).
Proof.
  intros Hr. unfold ordena_ref.
  by rewrite (le_Some r m l), bind_Ok, ordena_ordena_por.
Qed.

End memoria.

Section nucleo.
Implicit Types (tabela : list (list string)) (limite : nat).

Lemma ordena_por_tem_generos (l : list Pais) :
  Forall tem_generos l → Forall tem_generos (ordena_por desloca l).
Proof. by rewrite ordena_por_perm. Qed.

(** The pipeline on a file of valid rows: what is left is the call of
    [filtrar_paises_genero_unico] on the ranked table. *)
Lemma nucleo_filtrar limite tabela :
  Forall linha_valida tabela →
  nucleo limite tabela =
  unicos ← filtrar_paises_genero_unico limite
              (ordena_por desloca (agregado tabela)) 0;
  Ok (ordena_por desloca (agregado tabela), unicos).
Proof.
  intros Hv. unfold nucleo, quadro_ref.
  rewrite filtro_tabela_mapM, mapM_filtra_valida, bind_Ok by done.
  fold (agregado tabela). set (q := agregado tabela) in *.
  destruct (aloca q ∅) as [r m] eqn:Ha.
  assert (m !! r = Some q) as Hr.
  { injection Ha as <- <-. apply lookup_insert_eq. }
  rewrite (ordena_ref_Some r m q), bind_Ok by done.
  set (q' := ordena_por desloca q). set (m' := <[r := q']> m).
  assert (m' !! r = Some q') as Hr' by apply lookup_insert_eq.
  unfold filtrar_ref. rewrite (le_Some r m' q'), bind_Ok by done.
  destruct (filtrar_paises_genero_unico limite q' 0) as [unicos|e]; [|done].
  rewrite !bind_Ok. destruct (aloca unicos m') as [r2 m2] eqn:Ha2.
  rewrite <-(f_equal snd Ha2) at 1. cbn [snd].
  rewrite (le_aloca_outro _ m' r q'), bind_Ok by done.
  change r2 with (r2, m2).1. change m2 with (r2, m2).2 at 2.
  by rewrite <-Ha2, le_aloca.
Qed.

(** The pipeline on a valid file, with frames enough. *)
Lemma nucleo_valido limite tabela :
  Forall linha_valida tabela → length (agregado tabela) < limite →
  nucleo limite tabela =
  Ok (ordena_por desloca (agregado tabela),
      filter genero_unico (ordena_por desloca (agregado tabela))).
Proof.
  intros Hv Hlim. rewrite nucleo_filtrar by done.
  rewrite filtrar_inicio;
    [done|apply ordena_por_tem_generos, quadro_tem_generos|].
  by rewrite ordena_por_perm.
Qed.

(** The pipeline on a valid file with at least as many countries as
    frames. *)
Lemma nucleo_esgotado limite tabela :
  Forall linha_valida tabela → limite ≤ length (agregado tabela) →
  nucleo limite tabela = Raise RecursionError.
Proof.
  intros Hv Hlim. rewrite nucleo_filtrar by done.
  rewrite filtrar_inicio_esgota;
    [done|apply ordena_por_tem_generos, quadro_tem_generos|].
  by rewrite ordena_por_perm.
Qed.

(** A row of fewer than six fields makes the pipeline raise [IndexError]
    before any country is counted. *)
Lemma nucleo_invalida limite tabela :
  ¬ Forall linha_valida tabela → nucleo limite tabela = Raise IndexError.
Proof.
  intros Hv. unfold nucleo.
  by rewrite filtro_tabela_mapM, mapM_filtra_invalida.
Qed.

(** The three ways the pipeline can go. *)
Lemma nucleo_casos limite tabela :
  nucleo limite tabela =
  if decide (Forall linha_valida tabela) then
    if decide (length (agregado tabela) < limite) then
      Ok (ordena_por desloca (agregado tabela),
          filter genero_unico (ordena_por desloca (agregado tabela)))
    else Raise RecursionError
  else Raise IndexError.
Proof.
  repeat case_decide;
    [by apply nucleo_valido|apply nucleo_esgotado; [done|lia]
    |by apply nucleo_invalida].
Qed.

(** What the pipeline returns, when it returns. *)
Lemma nucleo_Ok limite tabela exibido formatado :
  nucleo limite tabela = Ok (exibido, formatado) →
  Forall linha_valida tabela ∧
  exibido = ordena_por desloca (agregado tabela) ∧
  formatado = filter genero_unico exibido.
Proof. rewrite nucleo_casos. repeat case_decide; naive_solver. Qed.

(** The countries of the first report are the accumulators of the
    projected rows. *)
Lemma nucleo_exibido limite tabela exibido formatado p :
  nucleo limite tabela = Ok (exibido, formatado) → p ∈ exibido →
  Forall linha_valida tabela ∧
  p = acumulado (campos <$> tabela) (nome p) ∧
  nome p ∈ nome_pais <$> (campos <$> tabela).
Proof.
  intros (Hv & -> & _)%nucleo_Ok. rewrite ordena_por_perm.
  by intros ?%elem_of_quadro.
Qed.

(** The counts of the projected rows, by the fields of the rows. *)
Lemma conta_campos tabela n m :
  Forall linha_valida tabela →
  conta (campos <$> tabela) n m
  = Z.of_nat (length (linhas_com tabela n (value m))).
Proof.
  unfold conta, linhas_de, linhas_com.
  induction 1 as [|item tabela Hi Hv IH]; [done|].
  rewrite fmap_cons, (filter_cons _ (campos item)), (filter_cons _ item).
  pose proof (linha_valida_lookup item 4 Hi ltac:(lia)) as H4.
  pose proof (linha_valida_lookup item 1 Hi ltac:(lia)) as H1.
  unfold campos, nome_pais, medal_code in *. cbn [fst snd] in *.
  rewrite H4, H1.
  destruct (decide (item !!! 4 = n)) as [Hn|Hn];
    [rewrite filter_cons; cbn [fst snd];
     destruct (decide (item !!! 1 = value m)) as [Hm|Hm]|].
  - rewrite decide_True by (by rewrite Hn, Hm). simpl in *. lia.
  - rewrite decide_False by naive_solver. done.
  - rewrite decide_False by naive_solver. done.
Qed.

(** The last field of a row of six fields is the gender. *)
Lemma last_campos item :
  length item = 6 → last item = Some (genero_atleta (campos item)).
Proof.
  intros H6. rewrite last_lookup, H6. apply list_lookup_lookup_total_lt. lia.
Qed.

End nucleo.

(** ** Properties *)

(** C10: on a file whose rows are valid, and with more frames than
    countries, the pipeline of [main] hands to the first report the
    countries of the file ranked, and to the second report the countries
    of one gender selected from that ranked list. *)
Theorem nucleo_relatorios (limite : nat) (tabela : list (list string)) :
  Forall linha_valida tabela → length (agregado tabela) < limite →
  ∃ exibido formatado,
    nucleo limite tabela = Ok (exibido, formatado) ∧
    exibido ≡ₚ agregado tabela ∧ ranqueada exibido ∧
    formatado = filter genero_unico exibido.
Proof.
  intros Hv Hlim. eexists _, _. split; [by apply nucleo_valido|].
  split_and!; [apply ordena_por_perm|apply ordena_por_ranqueada|done].
Qed.

Lemma nucleo_relatorios_witness :
  ∃ exibido formatado,
    nucleo 1000 arquivo_exemplo = Ok (exibido, formatado) ∧
    exibido ≡ₚ agregado arquivo_exemplo ∧ ranqueada exibido ∧
    formatado = filter genero_unico exibido.
Proof.
  apply (nucleo_relatorios 1000 arquivo_exemplo).
  - repeat constructor; unfold linha_valida; simpl; lia.
  - vm_compute. lia.
Defined.

(** C24: [ordena] updates the list [tabela_enumerada] names, so the second
    report lists the countries of one gender in ranked order: it is the
    ranking of the countries of one gender of the aggregated table. *)
Theorem nucleo_formatado_ranqueado (limite : nat) (tabela : list (list string)) :
  Forall linha_valida tabela → length (agregado tabela) < limite →
  ∃ exibido formatado,
    nucleo limite tabela = Ok (exibido, formatado) ∧
    formatado = isort desloca (filter genero_unico (agregado tabela)) ∧
    ranqueada formatado.
Proof.
  intros Hv Hlim. eexists _, _. split; [by apply nucleo_valido|].
  rewrite <-(ordena_por_filter desloca podio lexico).
  split; [apply (ordena_por_isort desloca podio lexico)|].
  apply ordena_por_ranqueada.
Qed.

Lemma nucleo_formatado_ranqueado_witness :
  ∃ exibido formatado,
    nucleo 1000 arquivo_exemplo = Ok (exibido, formatado) ∧
    formatado = isort desloca (filter genero_unico (agregado arquivo_exemplo)) ∧
    ranqueada formatado.
Proof.
  apply (nucleo_formatado_ranqueado 1000 arquivo_exemplo).
  - repeat constructor; unfold linha_valida; simpl; lia.
  - vm_compute. lia.
Defined.

(** The second report is not the selection from the table in the
    order of first appearance: in [arquivo_exemplo] QAT appears before BOT
    and is listed after it. *)
Example nucleo_formatado_exemplo :
  ∃ exibido formatado,
    nucleo 1000 arquivo_exemplo = Ok (exibido, formatado) ∧
    nome <$> formatado = ["BOT"; "QAT"] ∧
    nome <$> filter genero_unico (agregado arquivo_exemplo) = ["QAT"; "BOT"].
Proof.
  eexists _, _. split; [apply nucleo_valido|].
  - repeat constructor; unfold linha_valida; simpl; lia.
  - vm_compute. lia.
  - split; by vm_compute.
Qed.

(** C14: the pipeline of [main] on every file: a row of fewer than six
    fields raises [IndexError]; otherwise a table of as many countries as
    there are frames or more raises [RecursionError]; otherwise the two
    lists of the reports are returned. *)
Theorem nucleo_total (limite : nat) (tabela : list (list string)) :
  nucleo limite tabela =
  if decide (Forall linha_valida tabela) then
    if decide (length (agregado tabela) < limite) then
      Ok (ordena_por desloca (agregado tabela),
          filter genero_unico (ordena_por desloca (agregado tabela)))
    else Raise RecursionError
  else Raise IndexError.
Proof. apply nucleo_casos. Qed.

(** C15: the country of a row is its field 4 and its medal code its field
    1, not the fields the specification names: every country of the first
    report is the field 4 of some row, and each of its counts is the
    number of rows with that field 4 and the code of the medal in field
    1. *)
Theorem nucleo_campos (limite : nat) (tabela : list (list string))
    (exibido formatado : list Pais) (p : Pais) :
  nucleo limite tabela = Ok (exibido, formatado) → p ∈ exibido →
  (∃ item, item ∈ tabela ∧ item !! 4 = Some (nome p)) ∧
  quant_ouro p = Z.of_nat (length (linhas_com tabela (nome p) (value OURO))) ∧
  quant_prata p = Z.of_nat (length (linhas_com tabela (nome p) (value PRATA))) ∧
  quant_bronze p
  = Z.of_nat (length (linhas_com tabela (nome p) (value BRONZE))).
Proof.
  intros Hn Hp. destruct (nucleo_exibido _ _ _ _ _ Hn Hp) as (Hv & Hac & Hnome).
  rewrite <-!conta_campos by done. split; [|by rewrite Hac at 1 3 5].
  apply list_elem_of_fmap in Hnome as (linha & Hl & (item & -> & Hitem)%list_elem_of_fmap).
  exists item. split; [done|]. rewrite Hl. apply linha_valida_lookup; [|lia].
  by eapply (proj1 (Forall_forall _ _)).
Qed.

Lemma nucleo_campos_witness :
  (∃ item, item ∈ arquivo_cenario ∧ item !! 4 = Some "M") ∧
  0%Z = Z.of_nat (length (linhas_com arquivo_cenario "M" (value OURO))) ∧
  0%Z = Z.of_nat (length (linhas_com arquivo_cenario "M" (value PRATA))) ∧
  0%Z = Z.of_nat (length (linhas_com arquivo_cenario "M" (value BRONZE))).
Proof.
  apply (nucleo_campos 1000 arquivo_cenario
           [mkPais "M" 0 0 0 0 (Some ["x"]); mkPais "F" 0 0 0 0 (Some ["x"])]
           [mkPais "M" 0 0 0 0 (Some ["x"]); mkPais "F" 0 0 0 0 (Some ["x"])]
           (mkPais "M" 0 0 0 0 (Some ["x"])));
    [by vm_compute|left].
Defined.

(** C30: a country that has a row on the last line of the file, when that
    line has no line break, and a row on an earlier line is never in the
    report of the countries of one gender, whatever the genders of its
    rows: with the gender in the last of six fields, the gender of the
    earlier row ends with the line break and that of the last row does
    not. *)
Theorem nucleo_quebra_de_linha (nome_arquivo texto : string) (limite : nat)
    (tabela : list (list string)) (i : nat) (item ultimo : list string)
    (pais : string) (exibido formatado : list Pais) :
  fim (le_arquivo nome_arquivo (Aberto texto)) = Ok tabela →
  last (caracteres texto) ≠ Some nl →
  tabela !! i = Some item → S i < length tabela → last tabela = Some ultimo →
  length item = 6 → length ultimo = 6 →
  item !! 4 = Some pais → ultimo !! 4 = Some pais →
  nucleo limite tabela = Ok (exibido, formatado) →
  pais ∉ nome <$> formatado.
Proof.
  rewrite le_arquivo_drop.
  intros [= <-] Hfim Hi Hlen Hult H6 H6' Hitem Hultimo Hn
    (p & -> & Hp)%list_elem_of_fmap.
  pose proof (nucleo_Ok _ _ _ _ Hn) as (Hv & _ & ->).
  apply list_elem_of_filter in Hp as [Hu Hp].
  destruct (nucleo_exibido _ _ _ _ _ Hn Hp) as (_ & Hac & _).
  rewrite Hac in Hu. revert Hu.
  apply (acumulado_dois_generos _ _ (campos item) (campos ultimo)).
  - by eapply list_elem_of_fmap_2, list_elem_of_lookup_2.
  - by apply list_elem_of_fmap_2, last_Some_elem_of.
  - by apply list_lookup_total_correct.
  - by apply list_lookup_total_correct.
  - intros Hg.
    destruct (linhas_quebra_de_linha texto i item Hi Hlen) as (campo & Hc & Hnl).
    rewrite last_campos in Hc by done. injection Hc as <-.
    apply Hfim, (linhas_ultima texto ultimo (genero_atleta (campos ultimo)));
      [done|by apply last_campos|by rewrite <-Hg].
Qed.

Lemma nucleo_quebra_de_linha_witness :
  "BRA" ∉ nome <$>
    [mkPais "QAT" 1 0 0 1 (Some [String.append "M" (String nl EmptyString)])].
Proof.
  apply (nucleo_quebra_de_linha "medals.csv" texto_dois_paises 1000
           [["a"; "1"; "c"; "d"; "BRA"; String.append "W" (String nl EmptyString)];
            ["a"; "3"; "c"; "d"; "QAT"; String.append "M" (String nl EmptyString)];
            ["a"; "2"; "c"; "d"; "BRA"; "W"]]
           0 ["a"; "1"; "c"; "d"; "BRA"; String.append "W" (String nl EmptyString)]
           ["a"; "2"; "c"; "d"; "BRA"; "W"] "BRA"
           [mkPais "BRA" 0 1 1 2
              (Some [String.append "W" (String nl EmptyString); "W"]);
            mkPais "QAT" 1 0 0 1 (Some [String.append "M" (String nl EmptyString)])]);
    [by vm_compute|by vm_compute|done|simpl; lia|done..|by vm_compute].
Defined.

(** [main] with one argument. *)
Lemma main_um_argumento (programa nome : string)
    (arquivos : string → abertura) (limite : nat) :
  main [programa; nome] arquivos limite
  = tabela ← le_arquivo nome (arquivos nome);
    '(quadro_organizado, paises_genero) ← eleva (nucleo limite tabela);
    imprime (exibir_quadro quadro_organizado);;
    imprime (exibir_paises_formatado paises_genero).
Proof.
  unfold main. rewrite !decide_False by (simpl; lia).
  change ([programa; nome].[1]) with (Ok nome). by rewrite eleva_Ok_bind.
Qed.

(** [main] with one argument that names a file of valid rows. *)
Lemma main_valido (programa nome texto : string)
    (arquivos : string → abertura) (limite : nat) :
  let tabela := split virgula <$> drop 1 (readlines texto) in
  arquivos nome = Aberto texto →
  Forall linha_valida tabela → length (agregado tabela) < limite →
  main [programa; nome] arquivos limite
  = imprime
      (exibir_quadro (ordena_por desloca (agregado tabela)) ++
       exibir_paises_formatado
         (filter genero_unico (ordena_por desloca (agregado tabela)))).
Proof.
  intros tabela Hnome Hv Hlim.
  rewrite main_um_argumento, Hnome, le_arquivo_drop, eleva_Ok_bind.
  fold tabela. by rewrite nucleo_valido, eleva_Ok_bind by done.
Qed.

(** C31: [main] prints a message and leaves with status 1 when the
    program is given no argument, when it is given more than one, and when
    the file its argument names cannot be opened; it prints nothing
    else. *)
Theorem main_SystemExit (argv : list string)
    (arquivos : string → abertura) (limite : nat) :
  (length argv < 2 →
   main argv arquivos limite
   = Exec ["Nenhum nome de arquivo informado."] (Raise (SystemExit 1))) ∧
  (2 < length argv →
   main argv arquivos limite
   = Exec ["Muitos parâmetros. Informe apenas um nome de arquivo."]
       (Raise (SystemExit 1))) ∧
  (∀ programa nome errno strerror,
     argv = [programa; nome] → arquivos nome = IOError errno strerror →
     main argv arquivos limite
     = Exec [mensagem_erro nome errno strerror] (Raise (SystemExit 1))).
Proof.
  split_and!.
  - intros Hargv. unfold main. by rewrite decide_True by lia.
  - intros Hargv. unfold main.
    by rewrite decide_False, decide_True by lia.
  - intros programa nome errno strerror -> Hnome.
    by rewrite main_um_argumento, Hnome.
Qed.

Lemma main_SystemExit_witness :
  main ["medalhas.py"] arquivos_exemplo 1000
  = Exec ["Nenhum nome de arquivo informado."] (Raise (SystemExit 1)).
Proof.
  apply (main_SystemExit ["medalhas.py"] arquivos_exemplo 1000). simpl. lia.
Defined.

(** C9: given one argument that names a readable file whose lines after
    the first have six fields or more, [main] prints the table of the
    countries of the file, ranked, and then the countries of one gender
    selected from it, and ends normally. *)
Theorem main_relatorios (programa nome texto : string)
    (arquivos : string → abertura) (limite : nat) :
  let tabela := split virgula <$> drop 1 (readlines texto) in
  arquivos nome = Aberto texto →
  Forall linha_valida tabela → length (agregado tabela) < limite →
  ∃ exibido,
    main [programa; nome] arquivos limite
    = Exec (exibir_quadro exibido ++
            exibir_paises_formatado (filter genero_unico exibido)) (Ok tt) ∧
    exibido ≡ₚ agregado tabela ∧ ranqueada exibido.
Proof.
  intros tabela Hnome Hv Hlim. eexists. split; [by apply main_valido|].
  split; [apply ordena_por_perm|apply ordena_por_ranqueada].
Qed.

Lemma main_relatorios_witness :
  ∃ exibido,
    main ["medalhas.py"; "medals.csv"] arquivos_exemplo 1000
    = Exec (exibir_quadro exibido ++
            exibir_paises_formatado (filter genero_unico exibido)) (Ok tt) ∧
    exibido ≡ₚ agregado (split virgula <$> drop 1 (readlines texto_sem_quebra)) ∧
    ranqueada exibido.
Proof.
  apply (main_relatorios "medalhas.py" "medals.csv" texto_sem_quebra
           arquivos_exemplo 1000); [done| |by vm_compute; lia].
  repeat constructor; unfold linha_valida; vm_compute; lia.
Defined.

(** The run of [main] on [texto_sem_quebra]: the one country of the file,
    whose two medallists are women, is printed in the table and is not in
    the second report. *)
Example main_quebra_de_linha :
  main ["medalhas.py"; "medals.csv"] arquivos_exemplo 1000 =
  Exec (exibir_quadro
          [mkPais "BRA" 0 1 1 2
             (Some [String.append "W" (String nl EmptyString); "W"])] ++
        exibir_paises_formatado []) (Ok tt).
Proof.
  rewrite (main_valido _ _ texto_sem_quebra); [by vm_compute|done|..].
  - repeat constructor; unfold linha_valida; vm_compute; lia.
  - vm_compute. lia.
Qed.

(** C12: the script either prints the two reports and exits with status
    0, or prints no part of a report and exits with status 1: then it has
    printed one message, or nothing when it ends with an exception
    nothing catches. *)
Theorem programa_relatorios_ou_erro (argv : list string)
    (arquivos : string → abertura) (limite : nat) :
  ((programa argv arquivos limite).2 = 0%Z ∧
   ∃ quadro_organizado paises_genero,
     (programa argv arquivos limite).1
     = exibir_quadro quadro_organizado ++ exibir_paises_formatado paises_genero)
  ∨
  ((programa argv arquivos limite).2 = 1%Z ∧
   length (programa argv arquivos limite).1 ≤ 1).
Proof.
  unfold programa. destruct (decide (length argv = 2)) as [Hargv|Hargv].
  - destruct argv as [|programa [|nome [|? ?]]]; try done.
    rewrite main_um_argumento.
    destruct (arquivos nome) as [texto|errno strerror]; [|by right].
    rewrite le_arquivo_drop, eleva_Ok_bind.
    set (tabela := split virgula <$> _).
    rewrite nucleo_casos.
    repeat case_decide; [left|right; split; [done|simpl; lia]..].
    rewrite eleva_Ok_bind. split; [done|]. by eexists _, _.
  - unfold main. case_decide; [by right|].
    rewrite decide_True by lia. by right.
Qed.
